(** * Raytune batch generator ([generator.py]): a shallow embedding

    The Python class [Generator] (a [tf.keras.utils.Sequence]) scans a
    directory of class folders, one-hot encodes the class names, optionally
    shuffles the samples with a fixed seed, cuts them into groups of
    [batch_size] with wrap-around, and on [__getitem__] loads, normalises,
    resizes and zero-pads the images of one group.

    Python integers are [Z], Python floats are IEEE-754 binary64 and numpy
    [float32] is binary32, both through [SpecFloat]; Python lists are lists;
    attributes of [self] and the process-wide numpy random state form an
    explicit world that a small state-and-exception monad threads through
    the methods.  The libraries the source calls (numpy's random generator,
    PIL's decoder, OpenCV's resampler) are interfaces. *)

From Stdlib Require Import Arith ZArith Lia SpecFloat.
From stdpp Require Import base option list strings sorting.

(** ** Exceptions and results *)

Inductive exn :=
| FileNotFoundError
| NotADirectoryError
| IsADirectoryError
| ValueError
| ZeroDivisionError
| IndexError
| AssertionError
| OverflowError
| UnidentifiedImageError
| OSError
| cv2_error.

Inductive result (A : Type) :=
| Ok (a : A)
| Raise (e : exn).
Arguments Ok {A} a.
Arguments Raise {A} e.

#[global] Instance exn_eq_dec : EqDecision exn.
Proof. solve_decision. Defined.

Definition rbind {A B} (m : result A) (f : A → result B) : result B :=
  match m with Ok a => f a | Raise e => Raise e end.

Notation "x <- m ;; k" := (rbind m (fun x => k))
  (at level 20, m at level 99, k at level 200).
Notation "' pat <- m ;; k" := (rbind m (fun x => match x with pat => k end))
  (at level 20, pat pattern, m at level 99, k at level 200).

Definition is_Ok {A} (r : result A) : Prop :=
  match r with Ok _ => True | Raise _ => False end.

Definition is_Raise {A} (r : result A) : Prop :=
  match r with Ok _ => False | Raise _ => True end.

(** A list comprehension whose element expression can raise: elements are
    evaluated left to right and the first exception aborts. *)
Fixpoint comprehension {A B} (f : A → result B) (l : list A) : result (list B) :=
  match l with
  | [] => Ok []
  | x :: l' =>
      match f x with
      | Raise e => Raise e
      | Ok y =>
          match comprehension f l' with
          | Raise e => Raise e
          | Ok ys => Ok (y :: ys)
          end
      end
  end.

(** ** Python built-ins used by the source *)

(** [range(start, stop, step)] for a positive step, by fuel. *)
Fixpoint range_up (fuel : nat) (cur stop step : Z) : list Z :=
  match fuel with
  | O => []
  | S fuel' =>
      if (cur <? stop)%Z then cur :: range_up fuel' (cur + step)%Z stop step
      else []
  end.

(** [range(start, stop, step)] for a negative step. *)
Fixpoint range_down (fuel : nat) (cur stop step : Z) : list Z :=
  match fuel with
  | O => []
  | S fuel' =>
      if (stop <? cur)%Z then cur :: range_down fuel' (cur + step)%Z stop step
      else []
  end.

(** [range]: a zero step is a [ValueError]. *)
Definition py_range (start stop step : Z) : result (list Z) :=
  if (step =? 0)%Z then Raise ValueError
  else if (0 <? step)%Z then Ok (range_up (Z.to_nat (stop - start)) start stop step)
  else Ok (range_down (Z.to_nat (start - stop)) start stop step).

(** [a % b] on integers: the result has the sign of [b], as [Z.modulo]. *)
Definition py_mod (a b : Z) : result Z :=
  if (b =? 0)%Z then Raise ZeroDivisionError else Ok (a mod b)%Z.

(** [l[k]] on a list or on the first axis of an array: a negative index counts
    from the end, anything outside [-len, len) is an [IndexError]. *)
Definition py_getitem {A} (l : list A) (k : Z) : result A :=
  let n := Z.of_nat (length l) in
  let k' := if (k <? 0)%Z then (k + n)%Z else k in
  if ((0 <=? k') && (k' <? n))%Z then
    match l !! Z.to_nat k' with
    | Some x => Ok x
    | None => Raise IndexError
    end
  else Raise IndexError.

(** ** Floating point: binary32 for numpy [float32], binary64 for [float] *)

Abbreviation f32 := spec_float (only parsing).
Abbreviation f64 := spec_float (only parsing).

Module F32.
Definition prec : Z := 24.
Definition emax : Z := 128.
Definition of_Z (z : Z) : spec_float := binary_normalize prec emax z 0 false.
Definition div := SFdiv prec emax.
Definition sub := SFsub prec emax.
Definition zero : spec_float := S754_zero false.
Definition one : spec_float := Eval vm_compute in of_Z 1.
(** the literal [127.5] is [255 * 2^-1] *)
Definition c127_5 : spec_float := Eval vm_compute in binary_normalize prec emax 255 (-1) false.
End F32.

Module F64.
Definition prec : Z := 53.
Definition emax : Z := 1024.
Definition mul := SFmul prec emax.
Definition div := SFdiv prec emax.
Definition one : spec_float := Eval vm_compute in binary_normalize prec emax 1 0 false.
End F64.

(** [float(z)] and the implicit conversion of an [int] operand: rounded to
    nearest even, [OverflowError] when the integer is too large. *)
Definition py_float (z : Z) : result spec_float :=
  match binary_normalize F64.prec F64.emax z 0 false with
  | S754_infinity _ => Raise OverflowError
  | f => Ok f
  end.

(** [int(f)]: truncation toward zero; infinities and NaN raise. *)
Definition py_int (f : spec_float) : result Z :=
  match f with
  | S754_zero _ => Ok 0%Z
  | S754_infinity _ => Raise OverflowError
  | S754_nan => Raise ValueError
  | S754_finite s m e =>
      let a := match e with
               | Z0 => Zpos m
               | Zpos p => Z.shiftl (Zpos m) e
               | Zneg p => Z.shiftr (Zpos m) (Zpos p)
               end in
      Ok (if s then (- a)%Z else a)
  end.

(** [float / x] and [int / int]: division by zero raises. *)
Definition py_truediv (x y : spec_float) : result spec_float :=
  match y with
  | S754_zero _ => Raise ZeroDivisionError
  | _ => Ok (F64.div x y)
  end.

(** ** numpy arrays: a shape and a row-major buffer *)

Record array3 (A : Type) := Array3 {
  shape3 : nat * nat * nat;
  data3 : list A
}.
Arguments Array3 {A} shape3 data3.
Arguments shape3 {A} a.
Arguments data3 {A} a.

Record array4 (A : Type) := Array4 {
  shape4 : nat * nat * nat * nat;
  data4 : list A
}.
Arguments Array4 {A} shape4 data4.
Arguments shape4 {A} a.
Arguments data4 {A} a.

Definition height {A} (a : array3 A) : nat := a.(shape3).1.1.
Definition width {A} (a : array3 A) : nat := a.(shape3).1.2.
Definition channels {A} (a : array3 A) : nat := a.(shape3).2.

(** The buffer has one cell per index. *)
Definition wf3 {A} (a : array3 A) : Prop :=
  length a.(data3) = height a * width a * channels a.

Definition wf4 {A} (a : array4 A) : Prop :=
  let '(b, h, w, c) := a.(shape4) in length a.(data4) = b * h * w * c.

(** [a[y, x, k]] and [a[i, y, x, k]] for indices inside the shape. *)
Definition get3 {A} (a : array3 A) (y x k : nat) : option A :=
  if decide (y < height a ∧ x < width a ∧ k < channels a)
  then a.(data3) !! ((y * width a + x) * channels a + k)
  else None.

Definition get4 {A} (a : array4 A) (i y x k : nat) : option A :=
  let '(b, h, w, c) := a.(shape4) in
  if decide (i < b ∧ y < h ∧ x < w ∧ k < c)
  then a.(data4) !! (((i * h + y) * w + x) * c + k)
  else None.

(** A buffer given cell by cell. *)
Definition tabulate {A} (n : nat) (f : nat → A) : list A := f <$> seq 0 n.

(** [a[:, :, ::-1].copy()]: the channel axis reversed. *)
Definition reverse_channels {A} (a : array3 A) : array3 A :=
  let c := channels a in
  Array3 a.(shape3)
    (omap (fun idx => a.(data3) !! (idx / c * c + (c - 1 - idx mod c)))
          (seq 0 (length a.(data3)))).

(** ** The libraries behind the generator *)

(** numpy's legacy global generator: [np.random.seed] replaces the state,
    [random_interval st i] draws an index in [0, i]. *)
Class NumpyRandom := {
  rng_state : Type;
  np_random_seed : Z → rng_state;
  random_interval : rng_state → nat → nat * rng_state
}.

(** What PIL makes of the content of a file: the RGB array of bytes, or one
    of its two failures: [Image.open] cannot identify the format, or the
    pixel data cannot be loaded by [convert] (a truncated file). *)
Inductive decoded :=
| Pixels (a : array3 Z)
| CannotIdentify
| CannotLoad.

(** PIL decodes the content of a file; OpenCV resamples an array to a width
    and a height ([None]: it raises). *)
Class ImageLib := {
  file_data : Type;
  pil_open_rgb : file_data → decoded;
  cv2_resize : array3 spec_float → Z → Z → option (array3 spec_float)
}.

(** ** The file system read by [os.listdir] and [Image.open] *)

Abbreviation path := (list string) (only parsing).

#[warnings="-register-all"] Inductive node `{ImageLib} :=
| File (d : file_data)
| Dir (entries : list (string * node)).

Fixpoint lookup_entry `{ImageLib} (name : string) (entries : list (string * node)) : option node :=
  match entries with
  | [] => None
  | (n, x) :: rest => if decide (n = name) then Some x else lookup_entry name rest
  end.

(** Walking a path from the root, as the system calls behind [os.listdir]
    and [open] do: a component that is not in its directory is a
    [FileNotFoundError] (ENOENT), a component looked up in a regular file is
    a [NotADirectoryError] (ENOTDIR). *)
Fixpoint resolve `{ImageLib} (fs : node) (p : list string) : result node :=
  match p with
  | [] => Ok fs
  | name :: p' =>
      match fs with
      | File _ => Raise NotADirectoryError
      | Dir entries =>
          match lookup_entry name entries with
          | Some x => resolve x p'
          | None => Raise FileNotFoundError
          end
      end
  end.

(** [os.listdir(p)]: the entry names in enumeration order. *)
Definition os_listdir `{ImageLib} (fs : node) (p : list string) : result (list string) :=
  match resolve fs p with
  | Raise e => Raise e
  | Ok (File _) => Raise NotADirectoryError
  | Ok (Dir entries) => Ok (entries.*1)
  end.

(** [os.path.join(p, name)] for an entry name. *)
Definition os_path_join (p : list string) (name : string) : list string := p ++ [name].

(** [np.asarray(Image.open(p).convert('RGB'))]: opening raises what the walk
    raises, [IsADirectoryError] on a directory and [UnidentifiedImageError]
    on a file that is not an image; loading the pixels of a truncated image
    raises [OSError]. *)
Definition image_open_rgb `{ImageLib} (fs : node) (p : list string) : result (array3 Z) :=
  match resolve fs p with
  | Raise e => Raise e
  | Ok (Dir _) => Raise IsADirectoryError
  | Ok (File d) =>
      match pil_open_rgb d with
      | Pixels a => Ok a
      | CannotIdentify => Raise UnidentifiedImageError
      | CannotLoad => Raise OSError
      end
  end.

(** ** scikit-learn's [OneHotEncoder] on one column of strings *)

(** [np.unique]: sort, then keep the first element of every run. *)
Fixpoint drop_repeats (prev : string) (l : list string) : list string :=
  match l with
  | [] => []
  | x :: l' => if decide (x = prev) then drop_repeats x l' else x :: drop_repeats x l'
  end.

Definition np_unique (l : list string) : list string :=
  match merge_sort String.le l with
  | [] => []
  | x :: l' => x :: drop_repeats x l'
  end.

(** [lb.fit(column)]: the categories are the sorted distinct values; an empty
    column is rejected. *)
Definition onehot_fit (column : list string) : result (list string) :=
  match column with
  | [] => Raise ValueError
  | _ => Ok (np_unique column)
  end.

(** Position of a value among the categories. *)
Definition category_index (categories : list string) (c : string) : option nat :=
  fst <$> list_find (fun x => x = c) categories.

(** A row of [width] cells with a one at position [k]. *)
Definition one_hot (width k : nat) : list spec_float :=
  tabulate width (fun j => if decide (j = k) then F32.one else F32.zero).

Definition encode_label (categories : list string) (c : string) : result (list spec_float) :=
  match category_index categories c with
  | Some k => Ok (one_hot (length categories) k)
  | None => Raise ValueError
  end.

(** [np.array(lb.transform(column), dtype='float32')]: one row per value; an
    empty column and an unknown value are rejected. *)
Definition onehot_transform (categories column : list string) : result (list (list spec_float)) :=
  match column with
  | [] => Raise ValueError
  | _ => comprehension (encode_label categories) column
  end.

(** ** The generator object and the world it lives in *)

Record Generator := {
  batch_size : Z;
  shuffle_images : bool;
  image_min_side : Z;
  classes : list string;
  image_paths : list (list string);
  image_labels : list (list spec_float);
  image_groups : list (list (list string));
  label_groups : list (list (list spec_float))
}.

(** A fresh object: no attribute has been assigned yet. *)
Definition blank : Generator :=
  {| batch_size := 0; shuffle_images := false; image_min_side := 0; classes := [];
     image_paths := []; image_labels := []; image_groups := []; label_groups := [] |}.

Record world `{NumpyRandom} := World {
  self : Generator;
  np_random : rng_state
}.
Arguments World {_} self np_random.

(** Computations that read and write the world and may raise. *)
Definition M `{NumpyRandom} (A : Type) : Type := world → result A * world.

Definition ret `{NumpyRandom} {A} (a : A) : M A := fun w => (Ok a, w).
Definition bind `{NumpyRandom} {A B} (m : M A) (f : A → M B) : M B :=
  fun w =>
    match m w with
    | (Ok a, w') => f a w'
    | (Raise e, w') => (Raise e, w')
    end.

Notation "x <~ m ;; k" := (bind m (fun x => k))
  (at level 20, m at level 99, k at level 200).

Definition lift `{NumpyRandom} {A} (r : result A) : M A := fun w => (r, w).
Definition attr `{NumpyRandom} {A} (field : Generator → A) : M A :=
  fun w => (Ok (field w.(self)), w).
Definition assign `{NumpyRandom} (upd : Generator → Generator) : M () :=
  fun w => (Ok (), World (upd w.(self)) w.(np_random)).

Definition set_batch_size (v : Z) (g : Generator) : Generator :=
  {| batch_size := v; shuffle_images := g.(shuffle_images);
     image_min_side := g.(image_min_side); classes := g.(classes);
     image_paths := g.(image_paths); image_labels := g.(image_labels);
     image_groups := g.(image_groups); label_groups := g.(label_groups) |}.
Definition set_shuffle_images (v : bool) (g : Generator) : Generator :=
  {| batch_size := g.(batch_size); shuffle_images := v;
     image_min_side := g.(image_min_side); classes := g.(classes);
     image_paths := g.(image_paths); image_labels := g.(image_labels);
     image_groups := g.(image_groups); label_groups := g.(label_groups) |}.
Definition set_image_min_side (v : Z) (g : Generator) : Generator :=
  {| batch_size := g.(batch_size); shuffle_images := g.(shuffle_images);
     image_min_side := v; classes := g.(classes);
     image_paths := g.(image_paths); image_labels := g.(image_labels);
     image_groups := g.(image_groups); label_groups := g.(label_groups) |}.
Definition set_classes (v : list string) (g : Generator) : Generator :=
  {| batch_size := g.(batch_size); shuffle_images := g.(shuffle_images);
     image_min_side := g.(image_min_side); classes := v;
     image_paths := g.(image_paths); image_labels := g.(image_labels);
     image_groups := g.(image_groups); label_groups := g.(label_groups) |}.
Definition set_image_paths (v : list (list string)) (g : Generator) : Generator :=
  {| batch_size := g.(batch_size); shuffle_images := g.(shuffle_images);
     image_min_side := g.(image_min_side); classes := g.(classes);
     image_paths := v; image_labels := g.(image_labels);
     image_groups := g.(image_groups); label_groups := g.(label_groups) |}.
Definition set_image_labels (v : list (list spec_float)) (g : Generator) : Generator :=
  {| batch_size := g.(batch_size); shuffle_images := g.(shuffle_images);
     image_min_side := g.(image_min_side); classes := g.(classes);
     image_paths := g.(image_paths); image_labels := v;
     image_groups := g.(image_groups); label_groups := g.(label_groups) |}.
Definition set_image_groups (v : list (list (list string))) (g : Generator) : Generator :=
  {| batch_size := g.(batch_size); shuffle_images := g.(shuffle_images);
     image_min_side := g.(image_min_side); classes := g.(classes);
     image_paths := g.(image_paths); image_labels := g.(image_labels);
     image_groups := v; label_groups := g.(label_groups) |}.
Definition set_label_groups (v : list (list (list spec_float))) (g : Generator) : Generator :=
  {| batch_size := g.(batch_size); shuffle_images := g.(shuffle_images);
     image_min_side := g.(image_min_side); classes := g.(classes);
     image_paths := g.(image_paths); image_labels := g.(image_labels);
     image_groups := g.(image_groups); label_groups := v |}.

(** ** [Generator.load_image_paths_labels] *)

(** The inner loop for one class folder: every entry is a sample of the class. *)
Definition scan_class `{ImageLib} (fs : node) (DATASET_PATH : list string)
    (class_name : string) : result (list (list string * string)) :=
  let class_path := os_path_join DATASET_PATH class_name in
  image_file_names <- os_listdir fs class_path;;
  Ok ((fun image_file_name => (os_path_join class_path image_file_name, class_name))
        <$> image_file_names).

(** The outer loop, in the enumeration order of the class folders. *)
Fixpoint scan_classes `{ImageLib} (fs : node) (DATASET_PATH : list string)
    (class_names : list string) : result (list (list string * string)) :=
  match class_names with
  | [] => Ok []
  | class_name :: rest =>
      here <- scan_class fs DATASET_PATH class_name;;
      more <- scan_classes fs DATASET_PATH rest;;
      Ok (here ++ more)
  end.

(** [assert len(self.image_paths) == len(self.image_labels)] *)
Definition assert_same_length `{NumpyRandom} : M () :=
  paths <~ attr image_paths;;
  labels <~ attr image_labels;;
  if decide (length paths = length labels) then ret () else lift (Raise AssertionError).

(** The method, for an encoder [lb] given by its [fit] and its [transform].
    The two lists are filled in local variables and assigned after the loop:
    an exception leaves [__init__], and the half-built object is dropped. *)
Definition load_image_paths_labels_with `{NumpyRandom, ImageLib}
    (lb_fit : list string → result (list string))
    (lb_transform : list string → list string → result (list (list spec_float)))
    (fs : node) (DATASET_PATH : list string) : M () :=
  class_names <~ lift (os_listdir fs DATASET_PATH);;
  categories <~ lift (lb_fit class_names);;
  _ <~ assign (set_classes categories);;
  samples <~ lift (scan_classes fs DATASET_PATH class_names);;
  _ <~ assign (set_image_paths samples.*1);;
  rows <~ lift (lb_transform categories samples.*2);;
  _ <~ assign (set_image_labels rows);;
  assert_same_length.

(** The method with scikit-learn's [OneHotEncoder]. *)
Definition load_image_paths_labels `{NumpyRandom, ImageLib}
    (fs : node) (DATASET_PATH : list string) : M () :=
  load_image_paths_labels_with onehot_fit onehot_transform fs DATASET_PATH.

(** ** [Generator.create_image_groups] *)

(** [x[i], x[j] = x[j], x[i]] *)
Definition swap {A} (i j : nat) (x : list A) : list A :=
  match x !! i, x !! j with
  | Some a, Some b => <[j:=a]> (<[i:=b]> x)
  | _, _ => x
  end.

(** [np.random.shuffle]: for [i] from [len - 1] down to [1], draw [j] in
    [0, i] and swap the entries (rows) [i] and [j]. *)
Fixpoint shuffle_from `{NumpyRandom} {A} (i : nat) (st : rng_state) (x : list A)
    : list A * rng_state :=
  match i with
  | O => (x, st)
  | S i' =>
      let '(j, st') := random_interval st i in
      shuffle_from i' st' (swap i j x)
  end.

Definition shuffled `{NumpyRandom} {A} (st : rng_state) (x : list A) : list A * rng_state :=
  shuffle_from (length x - 1) st x.

Definition np_random_seed_call `{NumpyRandom} (seed : Z) : M () :=
  fun w => (Ok (), World w.(self) (np_random_seed seed)).

Definition np_random_shuffle `{NumpyRandom} {A}
    (field : Generator → list A) (upd : list A → Generator → Generator) : M () :=
  fun w =>
    let '(x', st') := shuffled w.(np_random) (field w.(self)) in
    (Ok (), World (upd x' w.(self)) st').

(** [[xs[x % len(xs)] for x in range(i, i + B)]] *)
Definition take_group {A} (xs : list A) (B i : Z) : result (list A) :=
  r <- py_range i (i + B) 1;;
  comprehension (fun x => k <- py_mod x (Z.of_nat (length xs));; py_getitem xs k) r.

(** [[... for i in range(0, len(xs), B)]] *)
Definition make_groups {A} (xs : list A) (B : Z) : result (list (list A)) :=
  starts <- py_range 0 (Z.of_nat (length xs)) B;;
  comprehension (take_group xs B) starts.

Definition create_image_groups `{NumpyRandom} : M () :=
  shuffle <~ attr shuffle_images;;
  _ <~ (if shuffle : bool then
     let seed := 4321%Z in
     _ <~ np_random_seed_call seed;;
     _ <~ np_random_shuffle image_paths set_image_paths;;
     _ <~ np_random_seed_call seed;;
     np_random_shuffle image_labels set_image_labels
   else ret ());;
  paths <~ attr image_paths;;
  B <~ attr batch_size;;
  groups <~ lift (make_groups paths B);;
  _ <~ assign (set_image_groups groups);;
  labels <~ attr image_labels;;
  lgroups <~ lift (make_groups labels B);;
  assign (set_label_groups lgroups).

(** ** [Generator.resize_image] *)

(** [a / b] on two integers: the correctly rounded quotient. *)
Definition int_as_float (z : Z) : spec_float :=
  match z with
  | Z0 => S754_zero false
  | Zpos p => S754_finite false p 0
  | Zneg p => S754_finite true p 0
  end.

Definition py_int_truediv (a b : Z) : result spec_float :=
  if (b =? 0)%Z then Raise ZeroDivisionError
  else match F64.div (int_as_float a) (int_as_float b) with
       | S754_infinity _ => Raise OverflowError
       | f => Ok f
       end.

(** [float(min_side_len) / h if h < w else float(min_side_len) / w], or [1.] *)
Definition im_scale_of (h w min_side_len : Z) : result spec_float :=
  if (Z.min h w <? min_side_len)%Z then
    m <- py_float min_side_len;;
    d <- py_float (if (h <? w)%Z then h else w);;
    py_truediv m d
  else Ok F64.one.

(** [int(n * im_scale)] *)
Definition scaled_side (n : Z) (im_scale : spec_float) : result Z :=
  nf <- py_float n;;
  py_int (F64.mul nf im_scale).

Definition resize_image `{ImageLib} (img : array3 spec_float) (min_side_len : Z)
    : result (array3 spec_float * spec_float * spec_float) :=
  let h := Z.of_nat (height img) in
  let w := Z.of_nat (width img) in
  im_scale <- im_scale_of h w min_side_len;;
  new_h <- scaled_side h im_scale;;
  new_w <- scaled_side w im_scale;;
  re_im <- match cv2_resize img new_w new_h with
           | Some a => Ok a
           | None => Raise cv2_error
           end;;
  rh <- py_int_truediv new_h h;;
  rw <- py_int_truediv new_w w;;
  Ok (re_im, rh, rw).

(** ** [Generator.preprocess_image] *)

(** One cell: [astype(np.float32)], [/= 127.5], [-= 1.] *)
Definition preprocess_pixel (v : Z) : spec_float :=
  F32.sub (F32.div (F32.of_Z v) F32.c127_5) F32.one.

Definition preprocess_image (x : array3 Z) : array3 spec_float :=
  Array3 x.(shape3) (preprocess_pixel <$> x.(data3)).

(** ** [Generator.load_images] *)

Definition load_image `{ImageLib} (fs : node) (min_side : Z) (image_path : list string)
    : result (array3 spec_float) :=
  raw <- image_open_rgb fs image_path;;
  let img := preprocess_image (reverse_channels raw) in
  '(img, rh, rw) <- resize_image img min_side;;
  Ok img.

Definition load_images `{NumpyRandom, ImageLib} (fs : node)
    (image_group : list (list string)) : M (list (array3 spec_float)) :=
  min_side <~ attr image_min_side;;
  lift (comprehension (load_image fs min_side) image_group).

(** ** [Generator.construct_image_batch] *)

(** [max(...)] over a generator expression: empty input is a [ValueError]. *)
Definition py_max (l : list nat) : result nat :=
  match l with
  | [] => Raise ValueError
  | x :: l' => Ok (foldl Nat.max x l')
  end.

(** [np.zeros(shape, dtype='float32')]: a negative dimension is rejected. *)
Definition np_zeros (b : Z) (h w c : nat) : result (array4 spec_float) :=
  if (b <? 0)%Z then Raise ValueError
  else
    let n := Z.to_nat b in
    Ok (Array4 (n, h, w, c) (replicate (n * h * w * c) F32.zero)).

(** [batch[i, :h, :w, :c] = image] where [(h, w, c)] is the shape of [image]:
    the index [i] must exist, and the block must fit; every cell of the block
    is overwritten with the cell of the image, the others are kept. *)
Definition slice_assign {A} (batch : array4 A) (i : nat) (image : array3 A)
    : result (array4 A) :=
  let '(B, H, W, C) := batch.(shape4) in
  if decide (B ≤ i) then Raise IndexError
  else if decide (height image ≤ H ∧ width image ≤ W ∧ channels image ≤ C) then
    Ok (Array4 batch.(shape4)
          (imap (fun idx old =>
                   let i' := idx / (H * W * C) in
                   let y := (idx / (W * C)) mod H in
                   let x := (idx / C) mod W in
                   let k := idx mod C in
                   if decide (i' = i) then default old (get3 image y x k) else old)
                batch.(data4)))
  else Raise ValueError.

(** The loop over [enumerate(image_group)], from position [image_index]. *)
Fixpoint copy_images {A} (batch : array4 A) (image_index : nat) (image_group : list (array3 A))
    : result (array4 A) :=
  match image_group with
  | [] => Ok batch
  | image :: rest =>
      batch' <- slice_assign batch image_index image;;
      copy_images batch' (S image_index) rest
  end.

Definition construct_image_batch `{NumpyRandom} (image_group : list (array3 spec_float))
    : M (array4 spec_float) :=
  B <~ attr batch_size;;
  lift (max_h <- py_max (height <$> image_group);;
        max_w <- py_max (width <$> image_group);;
        max_c <- py_max (channels <$> image_group);;
        image_batch <- np_zeros B max_h max_w max_c;;
        copy_images image_batch 0 image_group).

(** ** [Generator.__len__], [Generator.__getitem__], [Generator.__init__] *)

Definition __len__ `{NumpyRandom} : M Z :=
  groups <~ attr image_groups;;
  ret (Z.of_nat (length groups)).

Definition __getitem__ `{NumpyRandom, ImageLib} (fs : node) (index : Z)
    : M (array4 spec_float * list (list spec_float)) :=
  groups <~ attr image_groups;;
  image_group <~ lift (py_getitem groups index);;
  lgroups <~ attr label_groups;;
  label_group <~ lift (py_getitem lgroups index);;
  images <~ load_images fs image_group;;
  image_batch <~ construct_image_batch images;;
  ret (image_batch, label_group).

Definition __init__ `{NumpyRandom, ImageLib} (fs : node) (DATASET_PATH : list string)
    (BATCH_SIZE : Z) (shuffle_images : bool) (image_min_side : Z) : M () :=
  _ <~ assign (set_batch_size BATCH_SIZE);;
  _ <~ assign (set_shuffle_images shuffle_images);;
  _ <~ assign (set_image_min_side image_min_side);;
  _ <~ load_image_paths_labels fs DATASET_PATH;;
  create_image_groups.

(** [Generator(DATASET_PATH, BATCH_SIZE, shuffle_images, image_min_side)] in a
    process whose numpy random state is [st]: the new object, or the exception,
    and the random state left behind. *)
Definition Generator_new `{NumpyRandom, ImageLib} (fs : node) (DATASET_PATH : list string)
    (BATCH_SIZE : Z) (shuffle_images : bool) (image_min_side : Z) (st : rng_state)
    : result Generator * rng_state :=
  match __init__ fs DATASET_PATH BATCH_SIZE shuffle_images image_min_side (World blank st) with
  | (Ok _, w) => (Ok w.(self), w.(np_random))
  | (Raise e, w) => (Raise e, w.(np_random))
  end.

(** ** Vocabulary of the statements *)

(** [ceil(n / b)] for a positive [b]. *)
Definition ceil_div (n b : Z) : Z := ((n + b - 1) / b)%Z.

(** The samples of group [k]: positions [(k * B + j) mod N] for [j < B]. *)
Definition group_at {A} (xs : list A) (B k : nat) : list A :=
  omap (fun j => xs !! ((k * B + j) mod length xs)) (seq 0 B).

(** The groups cut from a list: [ceil(len / B)] of them. *)
Definition groups_of {A} (xs : list A) (B : Z) : list (list A) :=
  group_at xs (Z.to_nat B) <$> seq 0 (Z.to_nat (ceil_div (Z.of_nat (length xs)) B)).

(** The shuffle of a list of length [n] from state [st] as the list of the
    source positions. *)
Definition shuffle_positions `{NumpyRandom} (st : rng_state) (n : nat) : list nat :=
  (shuffled st (seq 0 n)).1.

(** The object after the optional shuffle. *)
Definition reordered `{NumpyRandom} (g : Generator) : Generator :=
  if g.(shuffle_images) then
    set_image_labels (shuffled (np_random_seed 4321) g.(image_labels)).1
      (set_image_paths (shuffled (np_random_seed 4321) g.(image_paths)).1 g)
  else g.

(** The random state that [create_image_groups] leaves behind. *)
Definition rng_after `{NumpyRandom} (w : world) : rng_state :=
  if w.(self).(shuffle_images)
  then (shuffled (np_random_seed 4321) w.(self).(image_labels)).2
  else w.(np_random).

(** The object after [load_image_paths_labels]. *)
Definition loaded (names : list string) (samples : list (list string * string))
    (rows : list (list spec_float)) (g : Generator) : Generator :=
  set_image_labels rows (set_image_paths samples.*1 (set_classes (np_unique names) g)).

(** The object that [__init__] starts the two scans on. *)
Definition configured (B : Z) (sh : bool) (ms : Z) : Generator :=
  set_image_min_side ms (set_shuffle_images sh (set_batch_size B blank)).

(** Strictly before, in the order of [np.unique] (code points, left to right). *)
Definition name_lt : relation string := strict String.le.

(** A computation that leaves the world as it found it. *)
Definition reads_only `{NumpyRandom} {A} (m : M A) : Prop := ∀ w, (m w).2 = w.

(** [-1.] in binary32. *)
Definition f32_minus_one : spec_float := S754_finite true 8388608 (-23).

(** The value of a binary32 number times [2^40], when that is an integer. *)
Definition scaled40 (f : spec_float) : option Z :=
  match f with
  | S754_zero _ => Some 0%Z
  | S754_finite s m e =>
      if (0 <=? e + 40)%Z
      then Some ((if s then -1 else 1) * Z.pos m * 2 ^ (e + 40))%Z
      else None
  | _ => None
  end.

#[global] Instance spec_float_eq_dec : EqDecision spec_float.
Proof. solve_decision. Defined.

(** What the normalisation of one byte must satisfy, as a test: the result is
    within [2^-23] of [v / 127.5 - 1], lies between [-1.] and [1.], is [-1.]
    for 0 and [1.] for 255, and is below [1.] for every other byte. *)
Definition normalised_as_expected (v : Z) : bool :=
  let r := preprocess_pixel v in
  match scaled40 r with
  | Some r40 =>
      (Z.abs (255 * r40 - (2 * v - 255) * 2 ^ 40) <=? 255 * 2 ^ 17)%Z
  | None => false
  end
  && SFleb f32_minus_one r && SFleb r F32.one
  && (if (v =? 0)%Z then bool_decide (r = f32_minus_one) else true)
  && (if (v =? 255)%Z then bool_decide (r = F32.one) else SFltb r F32.one).


(** The real number [N / D] lies at the location [l] above the integer [m]:
    on it, below the middle of [m] and [m + 1], on the middle, or above it. *)
Definition located (m : Z) (l : location) (N D : Z) : Prop :=
  match l with
  | loc_Exact => N = (m * D)%Z
  | loc_Inexact Lt => (2 * m * D < 2 * N < (2 * m + 1) * D)%Z
  | loc_Inexact Eq => (2 * N = (2 * m + 1) * D)%Z
  | loc_Inexact Gt => ((2 * m + 1) * D < 2 * N < (2 * m + 2) * D)%Z
  end.

(** [f] is a positive normal binary64 number [m * 2^e] within half a unit in
    its last place of the quotient [num / den]:
    [(m - 1/2) * 2^e <= num / den <= (m + 1/2) * 2^e]. *)
Definition rounds_quotient (f : spec_float) (num den : Z) : Prop :=
  match f with
  | S754_finite false m e =>
      (2 ^ 52 ≤ Z.pos m < 2 ^ 53 ∧
       (2 * Z.pos m - 1) * (den * 2 ^ Z.max 0 e) ≤ 2 * (num * 2 ^ Z.max 0 (- e))
       ∧ 2 * (num * 2 ^ Z.max 0 (- e)) ≤ (2 * Z.pos m + 1) * (den * 2 ^ Z.max 0 e))%Z
  | _ => False
  end.

(** What the statements on the size of a resized image assume of
    [cv2.resize]: when it returns, on an image of three channels, the result
    has the requested height and width and three channels. *)
Definition cv2_resize_law `{ImageLib} : Prop :=
  ∀ (img re_im : array3 spec_float) (new_w new_h : Z),
    cv2_resize img new_w new_h = Some re_im → channels img = 3 →
    shape3 re_im = (Z.to_nat new_h, Z.to_nat new_w, 3).

(** ** Concrete libraries and a small data set, for examples *)

(** A generator that reads its draws from a tape fixed by the seed, standing
    in for numpy's. *)
Definition tape_of_seed (seed : Z) : list nat :=
  Z.to_nat <$> [seed mod 7; seed mod 5; seed mod 3; seed mod 2; 4; 1; 3; 0; 2]%Z.

Definition draw (st : list nat) (i : nat) : nat * list nat :=
  match st with
  | [] => (0, [])
  | x :: st' => (Nat.min x i, st')
  end.

Definition tape_random : NumpyRandom := {|
  rng_state := list nat;
  np_random_seed := tape_of_seed;
  random_interval := draw
|}.

(** Files that hold their pixels (or nothing decodable), resampled by taking
    the nearest source cell. *)
Definition nearest_resize (img : array3 spec_float) (new_w new_h : Z)
    : option (array3 spec_float) :=
  if ((0 <? new_w) && (0 <? new_h))%Z then
    let h := height img in
    let w := width img in
    let c := channels img in
    let nh := Z.to_nat new_h in
    let nw := Z.to_nat new_w in
    Some (Array3 (nh, nw, c)
            (tabulate (nh * nw * c) (fun idx =>
               let y := idx / (nw * c) in
               let x := (idx / c) mod nw in
               let k := idx mod c in
               default F32.zero (get3 img (y * h / nh) (x * w / nw) k))))
  else None.

Definition toy_images : ImageLib := {|
  file_data := decoded;
  pil_open_rgb := fun d => d;
  cv2_resize := nearest_resize
|}.

(** A picture of one colour. *)
Definition flat_image (h w : nat) (r g b : Z) : array3 Z :=
  Array3 (h, w, 3) (mjoin (replicate (h * w) [r; g; b])).

Section demo.
#[local] Existing Instance tape_random.
#[local] Existing Instance toy_images.

(** [dataset/train], listed with the dogs first: three pictures of dogs and
    two of cats. *)
Definition demo_fs : node :=
  Dir [("dataset", Dir [("train", Dir [
    ("dog", Dir [("d1.png", File (Pixels (flat_image 2 3 0 0 0)));
                 ("d2.png", File (Pixels (flat_image 5 6 255 255 255)));
                 ("d3.png", File (Pixels (flat_image 1 1 10 20 30)))]);
    ("cat", Dir [("c1.png", File (Pixels (flat_image 3 2 255 0 128)));
                 ("c2.png", File (Pixels (flat_image 2 2 1 2 3)))])])])].

(** [dataset/val], listed with the cats first. *)
Definition demo_fs_val : node :=
  Dir [("dataset", Dir [("val", Dir [
    ("cat", Dir [("c9.png", File (Pixels (flat_image 2 2 9 9 9)))]);
    ("dog", Dir [("d9.png", File (Pixels (flat_image 2 2 7 7 7)))])])])].

Definition demo_path : list string := ["dataset"; "train"].
Definition demo_path_val : list string := ["dataset"; "val"].

(** The world after [load_image_paths_labels] on the two directories, with a
    batch size of 2. *)
Definition demo_scanned : world :=
  Eval vm_compute in
    (load_image_paths_labels demo_fs demo_path (World (configured 2 false 4) [])).2.

Definition demo_scanned_val : world :=
  Eval vm_compute in
    (load_image_paths_labels demo_fs_val demo_path_val
       (World (configured 2 false 4) [5])).2.

(** [Generator('dataset/train', 2, False, 4)] and the same with shuffling. *)
Definition demo_generator : Generator :=
  Eval vm_compute in
    match (Generator_new demo_fs demo_path 2 false 4 []).1 with
    | Ok g => g
    | Raise _ => blank
    end.

Definition demo_shuffled : Generator :=
  Eval vm_compute in
    match (Generator_new demo_fs demo_path 2 true 4 []).1 with
    | Ok g => g
    | Raise _ => blank
    end.

Definition demo_rng_after_shuffle : list nat :=
  Eval vm_compute in (Generator_new demo_fs demo_path 2 true 4 []).2.

Definition demo_world : world := World demo_generator [].

(** Two small images of different shapes, and a tall one. *)
Definition demo_images : list (array3 spec_float) :=
  [Array3 (1, 2, 1) [F32.one; F32.one];
   Array3 (2, 1, 1) [f32_minus_one; F32.one]].

Definition demo_tall : array3 spec_float :=
  Array3 (49, 100, 3) (replicate (49 * 100 * 3) F32.zero).

End demo.

(** ** Vocabulary of the further properties *)

(** The samples that one class folder contributes: one per entry of its
    listing, in the order of the listing; none when it cannot be listed. *)
Definition class_samples `{ImageLib} (fs : node) (DATASET_PATH : list string)
    (class_name : string) : list (list string * string) :=
  match os_listdir fs (os_path_join DATASET_PATH class_name) with
  | Ok files =>
      (fun f => (os_path_join (os_path_join DATASET_PATH class_name) f, class_name))
        <$> files
  | Raise _ => []
  end.

(** Every element is below all the later ones. *)
Fixpoint pairwise_increasing (l : list spec_float) : bool :=
  match l with
  | [] => true
  | x :: l' => forallb (SFltb x) l' && pairwise_increasing l'
  end.

(** The normalised values of the bytes 0 to 255. *)
Definition byte_table : list spec_float :=
  preprocess_pixel <$> (Z.of_nat <$> seq 0 256).

(** ** More data for examples *)

Section demo_more.
#[local] Existing Instance tape_random.
#[local] Existing Instance toy_images.

(** [dataset/train] with class folders that hold nothing. *)
Definition demo_fs_empty : node :=
  Dir [("dataset", Dir [("train", Dir [("dog", Dir []); ("cat", Dir [])])])].

(** [dataset/train] with a stray file between the class folders. *)
Definition demo_fs_stray : node :=
  Dir [("dataset", Dir [("train", Dir [
    ("dog", Dir [("d1.png", File (Pixels (flat_image 2 3 0 0 0)))]);
    ("notes.txt", File CannotIdentify);
    ("cat", Dir [("c1.png", File (Pixels (flat_image 3 2 255 0 128)))])])])].

(** [dataset/train] with the names of [demo_fs], every file unreadable. *)
Definition demo_fs_corrupt : node :=
  Dir [("dataset", Dir [("train", Dir [
    ("dog", Dir [("d1.png", File CannotIdentify); ("d2.png", File CannotIdentify); ("d3.png", File CannotIdentify)]);
    ("cat", Dir [("c1.png", File CannotIdentify); ("c2.png", File CannotIdentify)])])])].

(** The first batch of the demo generator. *)
Definition demo_batch : array4 spec_float :=
  Eval vm_compute in
    match (__getitem__ demo_fs 0 demo_world).1 with
    | Ok (batch, _) => batch
    | Raise _ => Array4 (0, 0, 0, 0) []
    end.

Definition demo_labels : list (list spec_float) :=
  Eval vm_compute in
    match (__getitem__ demo_fs 0 demo_world).1 with
    | Ok (_, labels) => labels
    | Raise _ => []
    end.

(** One pixel, an image without rows, and a small black image. *)
Definition demo_pixel : array3 Z := flat_image 1 1 10 20 30.

Definition demo_no_rows : array3 spec_float := Array3 (0, 5, 3) [].

Definition demo_black : array3 spec_float :=
  Array3 (2, 3, 1) (replicate 6 F32.zero).

End demo_more.

(** * Properties *)

(** ** Results and the world monad *)

Lemma comprehension_Ok {A B} (f : A → result B) (g : A → B) (l : list A) :
  (∀ x, x ∈ l → f x = Ok (g x)) → comprehension f l = Ok (g <$> l).
Proof.
  induction l as [|x l IH]; intros Hf; simpl; [done|].
  rewrite (Hf x) by constructor.
  rewrite IH; [done|]. intros y Hy. apply Hf. by constructor.
Qed.

Lemma comprehension_length {A B} (f : A → result B) (l : list A) (ys : list B) :
  comprehension f l = Ok ys → length ys = length l.
Proof.
  revert ys. induction l as [|x l IH]; intros ys; simpl.
  - by intros [= <-].
  - destruct (f x); [|done]. destruct (comprehension f l) as [zs|]; [|done].
    intros [= <-]. simpl. f_equal. by apply IH.
Qed.

(** ** Ranges and the partition into groups *)

Lemma ceil_div_bounds (n b : Z) :
  (0 < b)%Z → ((ceil_div n b - 1) * b < n ≤ ceil_div n b * b)%Z.
Proof.
  intros Hb. unfold ceil_div.
  pose proof (Z.div_mod (n + b - 1) b ltac:(lia)).
  pose proof (Z.mod_pos_bound (n + b - 1) b Hb). nia.
Qed.

Lemma ceil_div_step (n b : Z) :
  (0 < b)%Z → ceil_div (n - b) b = (ceil_div n b - 1)%Z.
Proof.
  intros Hb. unfold ceil_div.
  replace (n - b + b - 1)%Z with ((n + b - 1) + (-1) * b)%Z by lia.
  rewrite Z.div_add by lia. lia.
Qed.

Lemma ceil_div_nonpos (n b : Z) : (0 < b)%Z → (n ≤ 0)%Z → (ceil_div n b ≤ 0)%Z.
Proof. intros Hb Hn. pose proof (ceil_div_bounds n b Hb). nia. Qed.

Lemma ceil_div_pos (n b : Z) : (0 < b)%Z → (0 < n)%Z → (0 < ceil_div n b)%Z.
Proof. intros Hb Hn. pose proof (ceil_div_bounds n b Hb). nia. Qed.

Lemma range_up_spec (fuel : nat) (cur stop step : Z) :
  (0 < step)%Z → (stop - cur ≤ Z.of_nat fuel)%Z →
  range_up fuel cur stop step =
  (fun k => (cur + Z.of_nat k * step)%Z) <$> seq 0 (Z.to_nat (ceil_div (stop - cur) step)).
Proof.
  intros Hstep. revert cur.
  induction fuel as [|fuel IH]; intros cur Hfuel; simpl.
  - pose proof (ceil_div_nonpos (stop - cur) step Hstep ltac:(lia)).
    by replace (Z.to_nat _) with 0 by lia.
  - destruct (Z.ltb_spec cur stop) as [Hlt|Hge].
    + pose proof (ceil_div_pos (stop - cur) step Hstep ltac:(lia)) as Hpos.
      rewrite IH by lia.
      replace (stop - (cur + step))%Z with (stop - cur - step)%Z by lia.
      rewrite ceil_div_step by done.
      replace (Z.to_nat (ceil_div (stop - cur) step))
        with (S (Z.to_nat (ceil_div (stop - cur) step - 1))) by lia.
      simpl. f_equal; [lia|].
      rewrite <- fmap_S_seq, <- list_fmap_compose.
      apply list_fmap_ext. intros _ k _. simpl. lia.
    + pose proof (ceil_div_nonpos (stop - cur) step Hstep ltac:(lia)).
      by replace (Z.to_nat _) with 0 by lia.
Qed.

Lemma py_range_up (start stop step : Z) :
  (0 < step)%Z →
  py_range start stop step =
  Ok ((fun k => (start + Z.of_nat k * step)%Z)
        <$> seq 0 (Z.to_nat (ceil_div (stop - start) step))).
Proof.
  intros Hstep. unfold py_range.
  destruct (Z.eqb_spec step 0); [lia|].
  destruct (Z.ltb_spec 0 step); [|lia].
  f_equal. apply range_up_spec; lia.
Qed.

Lemma py_getitem_nonneg {A} (l : list A) (k : Z) (x : A) :
  (0 ≤ k)%Z → l !! Z.to_nat k = Some x → py_getitem l k = Ok x.
Proof.
  intros Hk Hx. unfold py_getitem.
  pose proof (lookup_lt_Some _ _ _ Hx).
  destruct (Z.ltb_spec k 0); [lia|].
  destruct (Z.leb_spec 0 k); [|lia].
  destruct (Z.ltb_spec k (Z.of_nat (length l))); [|lia].
  simpl. by rewrite Hx.
Qed.

Lemma omap_lookup_all {A B} (f : A → option B) (l : list A) (j : nat) :
  (∀ x, x ∈ l → is_Some (f x)) → omap f l !! j = l !! j ≫= f.
Proof.
  revert j. induction l as [|a l IH]; intros j Hall; [done|].
  destruct (Hall a) as [y Hy]; [by constructor|].
  simpl. rewrite Hy. destruct j as [|j]; simpl; [done|].
  apply IH. intros x Hx. apply Hall. by constructor.
Qed.

Lemma omap_length_all {A B} (f : A → option B) (l : list A) :
  (∀ x, x ∈ l → is_Some (f x)) → length (omap f l) = length l.
Proof.
  induction l as [|a l IH]; intros Hall; [done|].
  destruct (Hall a) as [y Hy]; [by constructor|].
  simpl. rewrite Hy. simpl. f_equal. apply IH.
  intros x Hx. apply Hall. by constructor.
Qed.

Lemma wrap_is_Some {A} (xs : list A) (n : nat) :
  xs ≠ [] → is_Some (xs !! (n mod length xs)).
Proof.
  intros Hxs. apply lookup_lt_is_Some_2, Nat.mod_upper_bound.
  destruct xs; simpl; [done|lia].
Qed.

Lemma group_at_lookup {A} (xs : list A) (B k j : nat) :
  xs ≠ [] → j < B → group_at xs B k !! j = xs !! ((k * B + j) mod length xs).
Proof.
  intros Hxs Hj. unfold group_at.
  rewrite omap_lookup_all by (intros; by apply wrap_is_Some).
  by rewrite lookup_seq_lt.
Qed.

Lemma group_at_length {A} (xs : list A) (B k : nat) :
  xs ≠ [] → length (group_at xs B k) = B.
Proof.
  intros Hxs. unfold group_at.
  rewrite omap_length_all by (intros; by apply wrap_is_Some).
  apply length_seq.
Qed.

Lemma take_group_spec {A} (xs : list A) (B : Z) (k : nat) :
  xs ≠ [] → (0 ≤ B)%Z →
  take_group xs B (Z.of_nat (k * Z.to_nat B)) = Ok (group_at xs (Z.to_nat B) k).
Proof.
  intros Hxs HB. unfold take_group.
  rewrite py_range_up by lia. simpl.
  replace (ceil_div _ 1) with B by (unfold ceil_div; rewrite Z.div_1_r; lia).
  unfold group_at.
  induction (seq 0 (Z.to_nat B)) as [|j l IH]; [done|]. simpl.
  unfold py_mod at 1.
  assert (length xs ≠ 0) by (destruct xs; simpl; [done|lia]).
  destruct (Z.eqb_spec (Z.of_nat (length xs)) 0); [lia|]. simpl.
  destruct (wrap_is_Some xs (k * Z.to_nat B + j) Hxs) as [y Hy].
  rewrite Hy.
  rewrite (py_getitem_nonneg xs _ y).
  - destruct (comprehension _ _); [|done]. by injection IH as ->.
  - apply Z.mod_pos_bound. lia.
  - rewrite <- Hy. f_equal.
    replace (Z.of_nat (k * Z.to_nat B) + Z.of_nat j * 1)%Z
      with (Z.of_nat (k * Z.to_nat B + j)) by lia.
    rewrite <- Nat2Z.inj_mod. apply Nat2Z.id.
Qed.

Lemma start_of_group (k : nat) (B : Z) :
  (0 ≤ B)%Z → (0 + Z.of_nat k * B)%Z = Z.of_nat (k * Z.to_nat B).
Proof. intros HB. rewrite Nat2Z.inj_mul, Z2Nat.id; lia. Qed.

Lemma make_groups_spec {A} (xs : list A) (B : Z) :
  (1 ≤ B)%Z →
  make_groups xs B =
  Ok (group_at xs (Z.to_nat B) <$> seq 0 (Z.to_nat (ceil_div (Z.of_nat (length xs)) B))).
Proof.
  intros HB. unfold make_groups.
  rewrite py_range_up by lia. simpl.
  rewrite Z.sub_0_r.
  destruct xs as [|x xs].
  { simpl. unfold ceil_div. rewrite Z.div_small by lia. done. }
  set (n := Z.to_nat (ceil_div _ B)).
  rewrite (comprehension_Ok _ (fun i => group_at (x :: xs) (Z.to_nat B) (Z.to_nat i / Z.to_nat B))).
  - f_equal. rewrite <- list_fmap_compose. apply list_fmap_ext.
    intros _ k _. simpl. f_equal.
    rewrite start_of_group by lia.
    rewrite Nat2Z.id. apply Nat.div_mul. lia.
  - intros i Hi. apply list_elem_of_fmap in Hi as (k & -> & _).
    rewrite start_of_group by lia.
    rewrite take_group_spec by (done || lia).
    rewrite Nat2Z.id, Nat.div_mul by lia. done.
Qed.

(** ** The shuffle *)

Section shuffle.
Context `{NumpyRandom}.

Lemma swap_fmap {A B} (f : A → B) (i j : nat) (x : list A) :
  swap i j (f <$> x) = f <$> swap i j x.
Proof.
  unfold swap. rewrite !list_lookup_fmap.
  destruct (x !! i) as [a|]; simpl; [|done].
  destruct (x !! j) as [b|]; simpl; [|done].
  by rewrite !list_fmap_insert.
Qed.

Lemma swap_length {A} (i j : nat) (x : list A) : length (swap i j x) = length x.
Proof.
  unfold swap. destruct (x !! i), (x !! j); try done.
  by rewrite !length_insert.
Qed.

Lemma swap_Permutation {A} (i j : nat) (x : list A) : swap i j x ≡ₚ x.
Proof.
  unfold swap.
  destruct (x !! i) as [a|] eqn:Hi; [|done].
  destruct (x !! j) as [b|] eqn:Hj; [|done].
  destruct (decide (i = j)) as [->|Hne].
  - rewrite list_insert_insert_eq. rewrite list_insert_id; [done|congruence].
  - symmetry. apply Permutation_inj. split.
    + by rewrite !length_insert.
    + exists (fun k => if decide (k = i) then j else if decide (k = j) then i else k).
      split.
      * intros k1 k2. repeat case_decide; intros; subst; congruence.
      * intros k. repeat case_decide; subst.
        -- rewrite list_lookup_insert_eq; [done|].
           rewrite length_insert. by eapply lookup_lt_Some.
        -- rewrite list_lookup_insert_ne by done.
           rewrite list_lookup_insert_eq; [done|]. by eapply lookup_lt_Some.
        -- by rewrite !list_lookup_insert_ne.
Qed.

Lemma shuffle_from_fmap {A B} (f : A → B) (i : nat) (st : rng_state) (x : list A) :
  shuffle_from i st (f <$> x) =
  ((f <$> (shuffle_from i st x).1), (shuffle_from i st x).2).
Proof.
  revert st x. induction i as [|i IH]; intros st x; simpl; [done|].
  destruct (random_interval st (S i)) as [j st'].
  by rewrite swap_fmap, IH.
Qed.

Lemma shuffled_fmap {A B} (f : A → B) (st : rng_state) (x : list A) :
  shuffled st (f <$> x) = ((f <$> (shuffled st x).1), (shuffled st x).2).
Proof. unfold shuffled. by rewrite length_fmap, shuffle_from_fmap. Qed.

Lemma shuffle_from_Permutation {A} (i : nat) (st : rng_state) (x : list A) :
  (shuffle_from i st x).1 ≡ₚ x.
Proof.
  revert st x. induction i as [|i IH]; intros st x; simpl; [done|].
  destruct (random_interval st (S i)) as [j st'].
  by rewrite IH, swap_Permutation.
Qed.

Lemma shuffled_Permutation {A} (st : rng_state) (x : list A) : (shuffled st x).1 ≡ₚ x.
Proof. apply shuffle_from_Permutation. Qed.

(** Two lists of one length shuffled from one state: the pairs stay together. *)
Lemma shuffled_zip {A B} (st : rng_state) (x : list A) (y : list B) :
  length x = length y →
  (shuffled st x).1 = (shuffled st (zip x y)).1.*1 ∧
  (shuffled st y).1 = (shuffled st (zip x y)).1.*2.
Proof.
  intros Hlen. split.
  - rewrite <- (fst_zip x y) at 1 by lia. by rewrite shuffled_fmap.
  - rewrite <- (snd_zip x y) at 1 by lia. by rewrite shuffled_fmap.
Qed.

Lemma shuffle_positions_Permutation (st : rng_state) (n : nat) :
  shuffle_positions st n ≡ₚ seq 0 n.
Proof. apply shuffled_Permutation. Qed.

Lemma shuffled_by_positions {A} (st : rng_state) (x : list A) :
  (shuffled st x).1 = omap (fun k => x !! k) (shuffle_positions st (length x)).
Proof.
  unfold shuffle_positions.
  destruct (shuffled_zip st (seq 0 (length x)) x) as [-> ->]; [by rewrite length_seq|].
  pose proof (shuffled_Permutation st (zip (seq 0 (length x)) x)) as Hperm.
  assert (Hall : Forall (fun p => x !! p.1 = Some p.2) (zip (seq 0 (length x)) x)).
  { apply Forall_forall. intros [k a] Hin.
    apply list_elem_of_lookup in Hin as [i Hi].
    apply lookup_zip_with_Some in Hi as (k' & a' & [= <- <-] & Hk & Ha).
    apply lookup_seq in Hk as [-> _]. done. }
  rewrite <- Hperm in Hall. clear Hperm.
  induction Hall as [|[k a] l Hka _ IH]; [done|].
  csimpl in *. rewrite Hka. by f_equal.
Qed.

End shuffle.

(** ** Running the constructor *)

Section construction.
Context `{NumpyRandom, ImageLib}.

Lemma create_image_groups_inv (w w' : world) :
  create_image_groups w = (Ok (), w') →
  ∃ gs lgs,
    make_groups (reordered w.(self)).(image_paths) w.(self).(batch_size) = Ok gs ∧
    make_groups (reordered w.(self)).(image_labels) w.(self).(batch_size) = Ok lgs ∧
    w' = World (set_label_groups lgs (set_image_groups gs (reordered w.(self))))
               (rng_after w).
Proof.
  destruct w as [g st].
  unfold create_image_groups, bind, attr, rng_after, reordered. simpl.
  destruct (shuffle_images g) eqn:Hsh.
  - unfold bind, np_random_seed_call, np_random_shuffle. simpl.
    destruct (shuffled (np_random_seed 4321) (image_paths g)) as [ps st1] eqn:Hp.
    simpl.
    destruct (shuffled (np_random_seed 4321) (image_labels g)) as [ls st2] eqn:Hl.
    simpl. unfold lift, assign. simpl.
    destruct (make_groups ps (batch_size g)) as [gs|]; [|done]. simpl.
    destruct (make_groups ls (batch_size g)) as [lgs|]; [|done]. simpl.
    intros [= <-]. by exists gs, lgs.
  - unfold ret, lift, assign. simpl.
    destruct (make_groups (image_paths g) (batch_size g)) as [gs|]; [|done]. simpl.
    destruct (make_groups (image_labels g) (batch_size g)) as [lgs|]; [|done]. simpl.
    intros [= <-]. by exists gs, lgs.
Qed.

Lemma create_image_groups_run (w : world) :
  (1 ≤ w.(self).(batch_size))%Z →
  create_image_groups w
  = (Ok (), World (set_label_groups
                     (groups_of (reordered w.(self)).(image_labels) w.(self).(batch_size))
                     (set_image_groups
                        (groups_of (reordered w.(self)).(image_paths) w.(self).(batch_size))
                        (reordered w.(self))))
                  (rng_after w)).
Proof.
  intros HB. destruct w as [g st].
  unfold create_image_groups, bind, attr, rng_after, reordered. simpl.
  destruct (shuffle_images g) eqn:Hsh.
  - unfold bind, np_random_seed_call, np_random_shuffle. simpl.
    destruct (shuffled (np_random_seed 4321) (image_paths g)) as [ps st1] eqn:Hp.
    simpl.
    destruct (shuffled (np_random_seed 4321) (image_labels g)) as [ls st2] eqn:Hl.
    simpl. unfold lift, assign. simpl.
    rewrite !make_groups_spec by done. simpl. done.
  - unfold ret, lift, assign. simpl.
    rewrite !make_groups_spec by done. simpl. done.
Qed.

Lemma onehot_transform_length (cats column : list string) (rows : list (list spec_float)) :
  onehot_transform cats column = Ok rows → length rows = length column ∧ column ≠ [].
Proof.
  unfold onehot_transform. destruct column as [|c column]; [done|].
  intros Hrows. split; [|done]. by apply comprehension_length in Hrows.
Qed.

Lemma onehot_fit_Ok (names : list string) :
  names ≠ [] → onehot_fit names = Ok (np_unique names).
Proof. by destruct names. Qed.

Lemma load_image_paths_labels_Ok (fs : node) (p : list string) (w : world)
    (names : list string) (samples : list (list string * string))
    (rows : list (list spec_float)) :
  os_listdir fs p = Ok names → names ≠ [] →
  scan_classes fs p names = Ok samples →
  onehot_transform (np_unique names) samples.*2 = Ok rows →
  load_image_paths_labels fs p w
  = (Ok (), World (loaded names samples rows w.(self)) w.(np_random)).
Proof.
  intros Hls Hne Hscan Hrows.
  unfold load_image_paths_labels, load_image_paths_labels_with, bind, lift. rewrite Hls.
  rewrite onehot_fit_Ok by done.
  simpl. rewrite Hscan. simpl. rewrite Hrows. simpl.
  unfold assert_same_length, bind, attr. simpl.
  apply onehot_transform_length in Hrows as [Hlen _].
  rewrite length_fmap in Hlen. rewrite length_fmap.
  destruct (decide (length samples = length rows)); [done|congruence].
Qed.

Lemma load_image_paths_labels_inv (fs : node) (p : list string) (w w' : world) :
  load_image_paths_labels fs p w = (Ok (), w') →
  ∃ names samples rows,
    os_listdir fs p = Ok names ∧ names ≠ [] ∧
    scan_classes fs p names = Ok samples ∧
    onehot_transform (np_unique names) samples.*2 = Ok rows ∧
    w' = World (loaded names samples rows w.(self)) w.(np_random).
Proof.
  intros Hrun.
  destruct (os_listdir fs p) as [names|e] eqn:Hls;
    [|by unfold load_image_paths_labels, load_image_paths_labels_with, bind, lift in Hrun; rewrite Hls in Hrun].
  destruct (decide (names = [])) as [->|Hne];
    [by unfold load_image_paths_labels, load_image_paths_labels_with, bind, lift in Hrun; rewrite Hls in Hrun|].
  destruct (scan_classes fs p names) as [samples|e] eqn:Hscan;
    [|by unfold load_image_paths_labels, load_image_paths_labels_with, bind, lift in Hrun;
         rewrite Hls, onehot_fit_Ok in Hrun by done; simpl in Hrun;
         rewrite Hscan in Hrun].
  destruct (onehot_transform (np_unique names) samples.*2) as [rows|e] eqn:Hrows;
    [|by unfold load_image_paths_labels, load_image_paths_labels_with, bind, lift in Hrun;
         rewrite Hls, onehot_fit_Ok in Hrun by done; simpl in Hrun;
         rewrite Hscan in Hrun; simpl in Hrun; rewrite Hrows in Hrun].
  exists names, samples, rows.
  rewrite (load_image_paths_labels_Ok fs p w names samples rows) in Hrun by done.
  by injection Hrun as <-.
Qed.

(** The constructor, step by step. *)
Lemma Generator_new_inv (fs : node) (p : list string) (B : Z) (sh : bool) (ms : Z)
    (st st' : rng_state) (g' : Generator) :
  Generator_new fs p B sh ms st = (Ok g', st') →
  ∃ names samples rows gs lgs,
    os_listdir fs p = Ok names ∧ names ≠ [] ∧
    scan_classes fs p names = Ok samples ∧
    onehot_transform (np_unique names) samples.*2 = Ok rows ∧
    let g := reordered (loaded names samples rows (configured B sh ms)) in
    make_groups g.(image_paths) B = Ok gs ∧
    make_groups g.(image_labels) B = Ok lgs ∧
    g' = set_label_groups lgs (set_image_groups gs g).
Proof.
  intros Hnew.
  unfold Generator_new, __init__, bind, assign in Hnew. simpl in Hnew.
  destruct (load_image_paths_labels fs p _) as [[[]|e] w1] eqn:Hload; [|done].
  apply load_image_paths_labels_inv in Hload
    as (names & samples & rows & Hls & Hne & Hscan & Hrows & ->).
  destruct (create_image_groups _) as [[[]|e] w2] eqn:Hgroups; [|done].
  apply create_image_groups_inv in Hgroups as (gs & lgs & Hgs & Hlgs & ->).
  exists names, samples, rows, gs, lgs. repeat split; try done.
  by injection Hnew as <- _.
Qed.

Lemma Generator_new_Ok (fs : node) (p : list string) (B : Z) (sh : bool) (ms : Z)
    (st : rng_state) (names : list string) (samples : list (list string * string))
    (rows : list (list spec_float)) :
  (1 ≤ B)%Z →
  os_listdir fs p = Ok names → names ≠ [] →
  scan_classes fs p names = Ok samples →
  onehot_transform (np_unique names) samples.*2 = Ok rows →
  let g := reordered (loaded names samples rows (configured B sh ms)) in
  (Generator_new fs p B sh ms st).1
  = Ok (set_label_groups (groups_of g.(image_labels) B)
          (set_image_groups (groups_of g.(image_paths) B) g)).
Proof.
  intros HB Hls Hne Hscan Hrows g.
  unfold Generator_new, __init__, bind, assign. simpl.
  rewrite (load_image_paths_labels_Ok fs p _ names samples rows) by done.
  simpl. rewrite create_image_groups_run by done. done.
Qed.

End construction.

(** ** The categories: sorted, distinct, and a function of the set of names *)

Lemma name_lt_le_trans (a b c : string) : String.le a b → name_lt b c → name_lt a c.
Proof.
  intros Hab [Hbc Hcb]. split; [by etrans|].
  intros Hca. apply Hcb. by etrans.
Qed.

Lemma drop_repeats_spec (prev : string) (l : list string) :
  Sorted String.le (prev :: l) →
  StronglySorted name_lt (prev :: drop_repeats prev l) ∧
  ∀ x, x ∈ prev :: drop_repeats prev l ↔ x ∈ prev :: l.
Proof.
  revert prev. induction l as [|y l IH]; intros prev Hs; simpl.
  - split; [repeat constructor|done].
  - apply Sorted_inv in Hs as [Hs Hhd]. apply HdRel_inv in Hhd.
    destruct (IH y Hs) as [IHs IHe].
    destruct (decide (y = prev)) as [->|Hne].
    + split; [done|]. intros x. rewrite IHe, !elem_of_cons. tauto.
    + split.
      * constructor; [done|].
        assert (Hlt : name_lt prev y).
        { split; [done|]. intros Hyp. apply Hne. by apply (anti_symm String.le). }
        constructor; [done|].
        apply StronglySorted_inv in IHs as [_ Hall].
        eapply Forall_impl; [exact Hall|].
        intros z Hz. eapply name_lt_le_trans; [exact Hhd|done].
      * intros x. split; intros [->|Hx]%elem_of_cons;
          (by left) || (right; by apply IHe).
Qed.

Lemma np_unique_sorted (l : list string) : StronglySorted name_lt (np_unique l).
Proof.
  unfold np_unique.
  pose proof (Sorted_merge_sort String.le l) as Hs.
  destruct (merge_sort String.le l) as [|x l']; [constructor|].
  by apply drop_repeats_spec.
Qed.

Lemma np_unique_elem_of (l : list string) (c : string) : c ∈ np_unique l ↔ c ∈ l.
Proof.
  unfold np_unique.
  pose proof (Sorted_merge_sort String.le l) as Hs.
  pose proof (merge_sort_Permutation String.le l) as Hp.
  set (m := merge_sort String.le l) in *.
  trans (c ∈ m); [|by rewrite Hp].
  destruct m as [|x l']; [done|].
  by apply drop_repeats_spec.
Qed.

Lemma StronglySorted_name_lt_NoDup (l : list string) :
  StronglySorted name_lt l → NoDup l.
Proof.
  induction 1 as [|x l _ IH Hall]; constructor; [|done].
  intros Hx. rewrite Forall_forall in Hall.
  destruct (Hall x Hx) as [_ Hirr]. by apply Hirr.
Qed.

Lemma np_unique_NoDup (l : list string) : NoDup (np_unique l).
Proof. apply StronglySorted_name_lt_NoDup, np_unique_sorted. Qed.

Lemma name_lt_Sorted_le (l : list string) :
  StronglySorted name_lt l → Sorted String.le l.
Proof.
  induction 1 as [|x l _ IH Hall]; constructor; [done|].
  destruct Hall as [|y l [Hxy _] _]; by constructor.
Qed.

Lemma np_unique_same_set (l1 l2 : list string) :
  (∀ c, c ∈ l1 ↔ c ∈ l2) → np_unique l1 = np_unique l2.
Proof.
  intros Hset.
  apply (Sorted_unique String.le).
  - apply name_lt_Sorted_le, np_unique_sorted.
  - apply name_lt_Sorted_le, np_unique_sorted.
  - apply NoDup_Permutation; [apply np_unique_NoDup..|].
    intros c. by rewrite !np_unique_elem_of.
Qed.

(** ** One-hot rows *)

Lemma tabulate_length {A} (n : nat) (f : nat → A) : length (tabulate n f) = n.
Proof. unfold tabulate. by rewrite length_fmap, length_seq. Qed.

Lemma tabulate_lookup {A} (n : nat) (f : nat → A) (i : nat) :
  i < n → tabulate n f !! i = Some (f i).
Proof. intros Hi. unfold tabulate. by rewrite list_lookup_fmap, lookup_seq_lt. Qed.

Lemma one_hot_length (K k : nat) : length (one_hot K k) = K.
Proof. apply tabulate_length. Qed.

Lemma one_hot_lookup (K k j : nat) :
  j < K → one_hot K k !! j = Some (if decide (j = k) then F32.one else F32.zero).
Proof. intros Hj. unfold one_hot. by rewrite tabulate_lookup. Qed.

Lemma one_hot_inj (K k1 k2 : nat) :
  k1 < K → one_hot K k1 = one_hot K k2 → k1 = k2.
Proof.
  intros Hk Heq.
  assert (Hl : one_hot K k1 !! k1 = one_hot K k2 !! k1) by by rewrite Heq.
  rewrite !one_hot_lookup in Hl by done.
  destruct (decide (k1 = k1)); [|done].
  destruct (decide (k1 = k2)); [done|]. discriminate Hl.
Qed.

Lemma category_index_Some (cats : list string) (c : string) (k : nat) :
  category_index cats c = Some k → cats !! k = Some c.
Proof.
  unfold category_index. intros Hk.
  apply fmap_Some in Hk as ([k' x] & Hfind & ->).
  apply list_find_Some in Hfind as (Hx & -> & _). done.
Qed.

Lemma category_index_lookup (cats : list string) (c : string) (k : nat) :
  NoDup cats → cats !! k = Some c → category_index cats c = Some k.
Proof.
  intros Hnd Hk. unfold category_index.
  destruct (list_find_elem_of (fun x => x = c) cats c) as [[k' x] Hfind];
    [by eapply list_elem_of_lookup_2|done|].
  rewrite Hfind. simpl. f_equal.
  apply list_find_Some in Hfind as (Hx & -> & _).
  by eapply NoDup_lookup.
Qed.

Lemma category_index_elem_of (cats : list string) (c : string) :
  c ∈ cats → ∃ k, category_index cats c = Some k ∧ k < length cats.
Proof.
  intros Hc. unfold category_index.
  destruct (list_find_elem_of (fun x => x = c) cats c) as [[k x] Hfind]; [done..|].
  exists k. rewrite Hfind. split; [done|].
  apply list_find_Some in Hfind as (Hx & _). by eapply lookup_lt_Some.
Qed.

Lemma encode_label_Ok (cats : list string) (c : string) (row : list spec_float) :
  encode_label cats c = Ok row →
  ∃ k, category_index cats c = Some k ∧ k < length cats ∧ row = one_hot (length cats) k.
Proof.
  unfold encode_label. destruct (category_index cats c) as [k|] eqn:Hk; [|done].
  intros [= <-]. exists k. split; [done|]. split; [|done].
  apply category_index_Some in Hk. by eapply lookup_lt_Some.
Qed.

Lemma comprehension_Forall2 {A B} (f : A → result B) (l : list A) (ys : list B) :
  comprehension f l = Ok ys → Forall2 (fun x y => f x = Ok y) l ys.
Proof.
  revert ys. induction l as [|x l IH]; intros ys; simpl.
  - intros [= <-]. constructor.
  - destruct (f x) as [y|] eqn:Hy; [|done].
    destruct (comprehension f l) as [zs|]; [|done].
    intros [= <-]. constructor; [done|]. by apply IH.
Qed.

Lemma onehot_transform_Forall2 (cats column : list string) (rows : list (list spec_float)) :
  onehot_transform cats column = Ok rows →
  Forall2 (fun c row => encode_label cats c = Ok row) column rows.
Proof.
  unfold onehot_transform. destruct column; [done|]. apply comprehension_Forall2.
Qed.

(** ** The partition, on the object *)

Section partition.
Context `{NumpyRandom}.

Lemma reordered_lengths (g : Generator) :
  length (reordered g).(image_paths) = length g.(image_paths) ∧
  length (reordered g).(image_labels) = length g.(image_labels).
Proof.
  unfold reordered. destruct (shuffle_images g); [|done]. simpl.
  by rewrite !shuffled_Permutation.
Qed.

Lemma groups_of_lookup {A} (xs : list A) (B : Z) (k : nat) :
  (1 ≤ B)%Z → (Z.of_nat k < ceil_div (Z.of_nat (length xs)) B)%Z →
  groups_of xs B !! k = Some (group_at xs (Z.to_nat B) k) ∧ xs ≠ [].
Proof.
  intros HB Hk. split.
  - unfold groups_of. rewrite list_lookup_fmap, lookup_seq_lt by lia. done.
  - intros ->. simpl in Hk. unfold ceil_div in Hk.
    rewrite Z.div_small in Hk by lia. lia.
Qed.

Lemma groups_of_length {A} (xs : list A) (B : Z) :
  Z.of_nat (length (groups_of xs B)) = Z.max 0 (ceil_div (Z.of_nat (length xs)) B).
Proof. unfold groups_of. rewrite length_fmap, length_seq. lia. Qed.

(** C1. With a batch size [B >= 1] and [N] samples, [create_image_groups]
    succeeds and leaves [ceil(N / B)] groups ([__len__] returns that number);
    group [k] has exactly [B] paths and [B] label rows, and its entry [j] is
    the sample at position [(k * B + j) mod N] of the (possibly shuffled)
    sample set, so the last group wraps around to the first samples. *)
Theorem groups_wrap_around (w : world) :
  let B := w.(self).(batch_size) in
  (1 ≤ B)%Z →
  length w.(self).(image_paths) = length w.(self).(image_labels) →
  ∃ w', create_image_groups w = (Ok (), w') ∧
    let g := w'.(self) in
    let N := length g.(image_paths) in
    N = length w.(self).(image_paths) ∧
    length g.(image_labels) = N ∧
    ((ceil_div (Z.of_nat N) B - 1) * B < Z.of_nat N ≤ ceil_div (Z.of_nat N) B * B)%Z ∧
    __len__ w' = (Ok (ceil_div (Z.of_nat N) B), w') ∧
    ∀ k : nat, (Z.of_nat k < ceil_div (Z.of_nat N) B)%Z →
      ∃ ig lg,
        g.(image_groups) !! k = Some ig ∧ g.(label_groups) !! k = Some lg ∧
        length ig = Z.to_nat B ∧ length lg = Z.to_nat B ∧
        ∀ j, j < Z.to_nat B →
          is_Some (ig !! j) ∧
          ig !! j = g.(image_paths) !! ((k * Z.to_nat B + j) mod N) ∧
          lg !! j = g.(image_labels) !! ((k * Z.to_nat B + j) mod N).
Proof.
  intros B. subst B. intros HB Hlen.
  eexists. split; [by apply create_image_groups_run|].
  destruct (reordered_lengths w.(self)) as [Hp Hl].
  cbn [self]. 
  set (g := reordered (self w)) in *.
  assert (HN : length (image_labels g) = length (image_paths g)) by congruence.
  cbn [image_paths image_labels image_groups label_groups set_label_groups set_image_groups].
  split; [done|]. split; [done|]. split; [apply ceil_div_bounds; lia|].
  split.
  { unfold __len__, bind, attr, ret. cbn. f_equal. f_equal.
    rewrite groups_of_length.
    destruct (image_paths g) as [|x xs]; simpl.
    - unfold ceil_div. rewrite Z.div_small by lia. done.
    - pose proof (ceil_div_pos (Z.of_nat (S (length xs))) (batch_size (self w))).
      lia. }
  intros k Hk.
  destruct (groups_of_lookup (image_paths g) _ k HB Hk) as [Hig Hne].
  destruct (groups_of_lookup (image_labels g) _ k HB) as [Hlg Hnel];
    [by rewrite HN|].
  exists (group_at (image_paths g) (Z.to_nat (batch_size (self w))) k),
         (group_at (image_labels g) (Z.to_nat (batch_size (self w))) k).
  split; [done|]. split; [done|].
  split; [by apply group_at_length|]. split; [by apply group_at_length|].
  intros j Hj. rewrite !group_at_lookup by done. rewrite HN.
  split; [by apply wrap_is_Some|done].
Qed.

End partition.

(** ** The sample set after construction *)

Section samples.
Context `{NumpyRandom, ImageLib}.

Lemma shuffled_Forall2 {A B} (R : A → B → Prop) (st : rng_state)
    (x : list A) (y : list B) :
  Forall2 R x y → Forall2 R (shuffled st x).1 (shuffled st y).1.
Proof.
  intros HR.
  destruct (shuffled_zip st x y) as [-> ->]; [by eapply Forall2_length|].
  assert (Hall : Forall (fun q => R q.1 q.2) (zip x y)).
  { clear st. induction HR; simpl; by constructor. }
  rewrite <- (shuffled_Permutation st (zip x y)) in Hall.
  induction Hall; csimpl; by constructor.
Qed.

Lemma reordered_Forall2 (R : list string → list spec_float → Prop) (g : Generator) :
  Forall2 R g.(image_paths) g.(image_labels) →
  Forall2 R (reordered g).(image_paths) (reordered g).(image_labels).
Proof.
  intros HR. unfold reordered. destruct (shuffle_images g); [|done]. simpl.
  by apply shuffled_Forall2.
Qed.

Lemma shuffle_positions_lt (st : rng_state) (n i k : nat) :
  shuffle_positions st n !! i = Some k → k < n.
Proof.
  intros Hk. apply list_elem_of_lookup_2 in Hk.
  rewrite shuffle_positions_Permutation in Hk.
  apply elem_of_seq in Hk. lia.
Qed.

Lemma shuffled_lookup {A} (st : rng_state) (x : list A) (i k : nat) :
  shuffle_positions st (length x) !! i = Some k →
  (shuffled st x).1 !! i = x !! k.
Proof.
  intros Hk. rewrite shuffled_by_positions, omap_lookup_all.
  - by rewrite Hk.
  - intros j Hj. apply lookup_lt_is_Some_2.
    apply list_elem_of_lookup in Hj as [i' Hj]. by eapply shuffle_positions_lt.
Qed.

(** Every scanned sample is a file name under its class folder. *)
Lemma scan_classes_samples (fs : node) (p names : list string)
    (samples : list (list string * string)) :
  scan_classes fs p names = Ok samples →
  Forall (fun s => s.2 ∈ names ∧ s.1 !! length p = Some s.2) samples.
Proof.
  revert samples. induction names as [|c names IH]; intros samples; simpl.
  - intros [= <-]. constructor.
  - unfold scan_class. destruct (os_listdir fs (os_path_join p c)) as [files|]; [|done].
    simpl. destruct (scan_classes fs p names) as [more|]; [|done]. simpl.
    intros [= <-]. apply Forall_app. split.
    + apply Forall_fmap, Forall_forall. intros f _. simpl. split; [by constructor|].
      unfold os_path_join. rewrite <- (assoc_L (++)). simpl.
      by rewrite list_lookup_middle.
    + eapply Forall_impl; [by apply IH|]. intros s [Hs1 Hs2].
      split; [by constructor|done].
Qed.

(** The random state does not reach the object. *)
Lemma load_image_paths_labels_frame (fs : node) (p : list string) (g : Generator)
    (st1 st2 : rng_state) :
  (load_image_paths_labels fs p (World g st1)).1
  = (load_image_paths_labels fs p (World g st2)).1 ∧
  (load_image_paths_labels fs p (World g st1)).2.(self)
  = (load_image_paths_labels fs p (World g st2)).2.(self).
Proof.
  unfold load_image_paths_labels, load_image_paths_labels_with, assert_same_length, bind, lift, assign, attr, ret.
  simpl.
  destruct (os_listdir fs p) as [names|]; [|done].
  destruct (onehot_fit names) as [cats|]; [|done]. simpl.
  destruct (scan_classes fs p names) as [samples|]; [|done]. simpl.
  destruct (onehot_transform cats samples.*2) as [rows|]; [|done]. simpl.
  by repeat case_decide.
Qed.

Lemma create_image_groups_frame (g : Generator) (st1 st2 : rng_state) :
  (create_image_groups (World g st1)).1 = (create_image_groups (World g st2)).1 ∧
  (create_image_groups (World g st1)).2.(self)
  = (create_image_groups (World g st2)).2.(self).
Proof.
  unfold create_image_groups, bind, attr. simpl.
  destruct (shuffle_images g).
  - unfold bind, np_random_seed_call, np_random_shuffle. simpl.
    destruct (shuffled (np_random_seed 4321) (image_paths g)) as [ps st3]. simpl.
    destruct (shuffled (np_random_seed 4321) (image_labels g)) as [ls st4]. simpl.
    unfold lift, assign. simpl.
    destruct (make_groups ps (batch_size g)); [|done]. simpl.
    by destruct (make_groups ls (batch_size g)).
  - unfold ret, lift, assign. simpl.
    destruct (make_groups (image_paths g) (batch_size g)); [|done]. simpl.
    by destruct (make_groups (image_labels g) (batch_size g)).
Qed.

Lemma Generator_new_frame (fs : node) (p : list string) (B : Z) (sh : bool) (ms : Z)
    (st1 st2 : rng_state) :
  (Generator_new fs p B sh ms st1).1 = (Generator_new fs p B sh ms st2).1.
Proof.
  unfold Generator_new, __init__, bind, assign. simpl.
  destruct (load_image_paths_labels_frame fs p (configured B sh ms) st1 st2) as [Hr Hs].
  unfold configured in Hr, Hs.
  destruct (load_image_paths_labels fs p (World _ st1)) as [r1 [g1 s1]].
  destruct (load_image_paths_labels fs p (World _ st2)) as [r2 [g2 s2]].
  simpl in Hr, Hs. subst r2 g2.
  destruct r1 as [[]|e]; [|done].
  destruct (create_image_groups_frame g1 s1 s2) as [Hr Hs].
  destruct (create_image_groups (World g1 s1)) as [r3 [g3 s3]].
  destruct (create_image_groups (World g1 s2)) as [r4 [g4 s4]].
  simpl in Hr, Hs. subst r4 g4. by destruct r3.
Qed.

End samples.

Section claims_on_construction.
Context `{NumpyRandom, ImageLib}.

(** C5. A generator built with shuffling holds, at every position [i], the
    path and the label row that the scan had together at one position
    [sigma(i)], where [sigma] is the permutation drawn from the fixed seed
    4321; the object does not depend on the random state of the process, so a
    second construction on the same directory gives the same ordering; without
    shuffling the sample set is in scan order. *)
Theorem shuffle_is_one_fixed_permutation (fs : node) (p : list string) (B : Z)
    (sh : bool) (ms : Z) (st1 st2 st1' : rng_state) (g : Generator) :
  Generator_new fs p B sh ms st1 = (Ok g, st1') →
  (Generator_new fs p B sh ms st2).1 = Ok g ∧
  ∃ names samples rows,
    os_listdir fs p = Ok names ∧
    scan_classes fs p names = Ok samples ∧
    onehot_transform (np_unique names) samples.*2 = Ok rows ∧
    length rows = length samples ∧
    length g.(image_paths) = length samples ∧
    length g.(image_labels) = length samples ∧
    (sh = false → g.(image_paths) = samples.*1 ∧ g.(image_labels) = rows) ∧
    (sh = true →
       let sigma := shuffle_positions (np_random_seed 4321) (length samples) in
       sigma ≡ₚ seq 0 (length samples) ∧
       ∀ i k, sigma !! i = Some k →
         g.(image_paths) !! i = samples.*1 !! k ∧ g.(image_labels) !! i = rows !! k).
Proof.
  intros Hnew. split.
  { by rewrite (Generator_new_frame fs p B sh ms st2 st1), Hnew. }
  apply Generator_new_inv in Hnew
    as (names & samples & rows & gs & lgs & Hls & Hne & Hscan & Hrows & _ & _ & ->).
  exists names, samples, rows.
  pose proof (onehot_transform_length _ _ _ Hrows) as [Hlen _].
  rewrite length_fmap in Hlen.
  destruct (reordered_lengths (loaded names samples rows (configured B sh ms)))
    as [Hlp Hll].
  cbn [image_paths image_labels set_label_groups set_image_groups].
  cbn [loaded image_paths image_labels set_image_labels set_image_paths] in Hlp, Hll.
  rewrite length_fmap in Hlp.
  split; [done|]. split; [done|]. split; [done|]. split; [done|].
  split; [done|]. split; [congruence|]. split.
  - by intros ->.
  - intros ->. split; [apply shuffle_positions_Permutation|].
    intros i k Hk. unfold reordered. cbn. split.
    + apply shuffled_lookup. by rewrite length_fmap.
    + apply shuffled_lookup. by rewrite Hlen.
Qed.

(** C6. In a constructed generator with [K] classes, every class name has a
    position below [K] and a row of width [K] that is one at that position and
    zero elsewhere; distinct names have distinct positions and rows, every
    position below [K] belongs to a name; and the label row of every sample is
    the row of the class folder its path lies in. *)
Theorem label_encoding_bijective (fs : node) (p : list string) (B : Z)
    (sh : bool) (ms : Z) (st st' : rng_state) (g : Generator) :
  Generator_new fs p B sh ms st = (Ok g, st') →
  let K := length g.(classes) in
  (∃ names, os_listdir fs p = Ok names ∧ ∀ c, c ∈ g.(classes) ↔ c ∈ names) ∧
  (∀ c, c ∈ g.(classes) →
     ∃ k, k < K ∧ category_index g.(classes) c = Some k ∧
          encode_label g.(classes) c = Ok (one_hot K k) ∧
          length (one_hot K k) = K ∧
          ∀ j, j < K →
            one_hot K k !! j = Some (if decide (j = k) then F32.one else F32.zero)) ∧
  (∀ c1 c2 k, category_index g.(classes) c1 = Some k →
              category_index g.(classes) c2 = Some k → c1 = c2) ∧
  (∀ k, k < K → ∃ c, c ∈ g.(classes) ∧ category_index g.(classes) c = Some k) ∧
  (∀ c1 c2 row, encode_label g.(classes) c1 = Ok row →
                encode_label g.(classes) c2 = Ok row → c1 = c2) ∧
  (∀ i path, g.(image_paths) !! i = Some path →
     ∃ c row, path !! length p = Some c ∧ c ∈ g.(classes) ∧
              encode_label g.(classes) c = Ok row ∧
              g.(image_labels) !! i = Some row).
Proof.
  intros Hnew K.
  apply Generator_new_inv in Hnew
    as (names & samples & rows & gs & lgs & Hls & Hne & Hscan & Hrows & _ & _ & ->).
  assert (Hcls : ∀ g0, classes (set_label_groups lgs (set_image_groups gs
            (reordered (loaded names samples rows g0)))) = np_unique names).
  { intros g0. unfold reordered. by destruct (shuffle_images _). }
  subst K. rewrite !Hcls.
  pose proof (np_unique_NoDup names) as Hnd.
  split; [|split; [|split; [|split; [|split]]]].
  - exists names. split; [done|]. apply np_unique_elem_of.
  - intros c Hc.
    destruct (category_index_elem_of _ _ Hc) as (k & Hk & Hlt).
    exists k. split; [done|]. split; [done|].
    unfold encode_label. rewrite Hk. split; [done|].
    split; [apply one_hot_length|]. intros j Hj. by apply one_hot_lookup.
  - intros c1 c2 k H1%category_index_Some H2%category_index_Some. congruence.
  - intros k Hk. destruct (lookup_lt_is_Some_2 (np_unique names) k Hk) as [c Hc].
    exists c. split; [by eapply list_elem_of_lookup_2|].
    by apply category_index_lookup.
  - intros c1 c2 row (k1 & H1 & Hlt & ->)%encode_label_Ok (k2 & H2 & _ & Heq)%encode_label_Ok.
    apply one_hot_inj in Heq; [|done]. subst k2.
    apply category_index_Some in H1, H2. congruence.
  - intros i path Hpath.
    cbn [image_paths image_labels set_label_groups set_image_groups] in *.
    assert (HR : Forall2 (fun path row => ∃ c, path !! length p = Some c ∧
                   c ∈ np_unique names ∧ encode_label (np_unique names) c = Ok row)
                   (loaded names samples rows (configured B sh ms)).(image_paths)
                   (loaded names samples rows (configured B sh ms)).(image_labels)).
    { cbn. apply onehot_transform_Forall2 in Hrows.
      pose proof (scan_classes_samples _ _ _ _ Hscan) as Hs.
      clear Hscan Hpath Hcls. revert rows Hrows.
      induction Hs as [|[q c] samples [Hc Hq] _ IH]; intros rows Hrows; csimpl in *.
      - inversion Hrows. constructor.
      - inversion Hrows as [|? row ? rows' Hrow Hrest]; subst.
        constructor; [|by apply IH].
        exists c. split; [done|]. split; [by apply np_unique_elem_of|done]. }
    apply reordered_Forall2 in HR.
    destruct (Forall2_lookup_l _ _ _ _ _ HR Hpath) as (row & Hrow & c & Hc1 & Hc2 & Hc3).
    by exists c, row.
Qed.

(** C10. The categories stored by [load_image_paths_labels] are the class
    names in strictly increasing order, whatever the order in which the
    directory lists them: two listings with the same names give the same
    [classes], position [k] holds the [k]-th name in sorted order, and every
    class gets the same one-hot row from both. *)
Theorem categories_sorted_whatever_the_listing (fs1 fs2 : node) (p1 p2 : list string)
    (w1 w2 w1' w2' : world) (names1 names2 : list string) :
  os_listdir fs1 p1 = Ok names1 →
  os_listdir fs2 p2 = Ok names2 →
  (∀ c, c ∈ names1 ↔ c ∈ names2) →
  load_image_paths_labels fs1 p1 w1 = (Ok (), w1') →
  load_image_paths_labels fs2 p2 w2 = (Ok (), w2') →
  let cats := w1'.(self).(classes) in
  w2'.(self).(classes) = cats ∧
  StronglySorted name_lt cats ∧
  (∀ c, c ∈ cats ↔ c ∈ names1) ∧
  (∀ k c, cats !! k = Some c ↔ category_index cats c = Some k) ∧
  ∀ c, encode_label w1'.(self).(classes) c = encode_label w2'.(self).(classes) c.
Proof.
  intros Hls1 Hls2 Hset Hl1 Hl2.
  apply load_image_paths_labels_inv in Hl1 as (n1 & s1 & r1 & Hn1 & _ & _ & _ & ->).
  apply load_image_paths_labels_inv in Hl2 as (n2 & s2 & r2 & Hn2 & _ & _ & _ & ->).
  rewrite Hls1 in Hn1. rewrite Hls2 in Hn2.
  injection Hn1 as <-. injection Hn2 as <-. cbn.
  rewrite (np_unique_same_set names2 names1) by (intros c; by rewrite Hset).
  split; [done|]. split; [apply np_unique_sorted|].
  split; [apply np_unique_elem_of|]. split; [|done].
  intros k c. split.
  - apply category_index_lookup, np_unique_NoDup.
  - apply category_index_Some.
Qed.

End claims_on_construction.

(** ** Paths that cannot be walked *)

Section failures.
Context `{NumpyRandom, ImageLib}.

Lemma resolve_app (fs : node) (p q : list string) :
  resolve fs (p ++ q) = (x <- resolve fs p;; resolve x q).
Proof.
  revert fs. induction p as [|name p IH]; intros fs; simpl; [done|].
  destruct fs as [d|entries]; [done|].
  destruct (lookup_entry name entries); [apply IH|done].
Qed.

(** A component that its directory does not hold: ENOENT. *)
Lemma resolve_missing (fs : node) (pre : list string) (name : string)
    (post : list string) (entries : list (string * node)) :
  resolve fs pre = Ok (Dir entries) → lookup_entry name entries = None →
  resolve fs (pre ++ name :: post) = Raise FileNotFoundError.
Proof. intros Hpre Hname. rewrite resolve_app, Hpre. simpl. by rewrite Hname. Qed.

(** A component looked up in a regular file: ENOTDIR. *)
Lemma resolve_through_file (fs : node) (pre : list string) (name : string)
    (post : list string) (d : file_data) :
  resolve fs pre = Ok (File d) →
  resolve fs (pre ++ name :: post) = Raise NotADirectoryError.
Proof. intros Hpre. by rewrite resolve_app, Hpre. Qed.

(** The walk raises nothing else. *)
Lemma resolve_Raise (fs : node) (p : list string) (e : exn) :
  resolve fs p = Raise e → e = FileNotFoundError ∨ e = NotADirectoryError.
Proof.
  revert fs. induction p as [|name p IH]; intros fs; simpl; [done|].
  destruct fs as [d|entries]; [intros [= <-]; by right|].
  destruct (lookup_entry name entries) as [x|]; [apply IH|intros [= <-]; by left].
Qed.




End failures.

(** ** The batch tensor *)

Lemma flat_lt (a n b m : nat) : a < n → b < m → a * m + b < n * m.
Proof. intros. nia. Qed.

Lemma unravel_index (H W C i y x k : nat) :
  y < H → x < W → k < C →
  let idx := ((i * H + y) * W + x) * C + k in
  idx / (H * W * C) = i ∧ (idx / (W * C)) `mod` H = y ∧
  (idx / C) `mod` W = x ∧ idx `mod` C = k.
Proof.
  intros Hy Hx Hk idx.
  assert (E1 : idx / C = (i * H + y) * W + x).
  { symmetry. apply (Nat.div_unique _ _ _ k); [done|]. unfold idx. ring. }
  assert (E2 : idx / (W * C) = i * H + y).
  { symmetry. apply (Nat.div_unique _ _ _ (x * C + k)); [by apply flat_lt|]. unfold idx. ring. }
  assert (E3 : idx / (H * W * C) = i).
  { symmetry. apply (Nat.div_unique _ _ _ ((y * W + x) * C + k));
      [by apply flat_lt; [apply flat_lt|]|].
    unfold idx. ring. }
  rewrite E1, E2, E3. split; [done|]. split; [|split].
  - symmetry. apply (Nat.mod_unique _ _ i); [done|ring].
  - symmetry. apply (Nat.mod_unique _ _ (i * H + y)); [done|ring].
  - symmetry. apply (Nat.mod_unique _ _ ((i * H + y) * W + x)); [done|].
    unfold idx. ring.
Qed.

Lemma ravel_lt (B H W C i y x k : nat) :
  i < B → y < H → x < W → k < C →
  ((i * H + y) * W + x) * C + k < B * H * W * C.
Proof. intros. by repeat apply flat_lt. Qed.

Lemma get3_is_Some {A} (a : array3 A) (y x k : nat) :
  wf3 a → y < height a → x < width a → k < channels a → is_Some (get3 a y x k).
Proof.
  intros Hwf Hy Hx Hk. unfold get3.
  destruct (decide _) as [_|Hn]; [|tauto].
  apply lookup_lt_is_Some_2. rewrite Hwf. by repeat apply flat_lt.
Qed.

Lemma get3_outside {A} (a : array3 A) (y x k : nat) :
  ¬ (y < height a ∧ x < width a ∧ k < channels a) → get3 a y x k = None.
Proof. intros Hn. unfold get3. by destruct (decide _). Qed.

Lemma get4_np_zeros (b : Z) (h w c : nat) (batch : array4 spec_float) (i y x k : nat) :
  np_zeros b h w c = Ok batch →
  shape4 batch = (Z.to_nat b, h, w, c) ∧ wf4 batch ∧ (0 ≤ b)%Z ∧
  (i < Z.to_nat b → y < h → x < w → k < c → get4 batch i y x k = Some F32.zero).
Proof.
  unfold np_zeros. destruct (Z.ltb_spec b 0); [done|]. intros [= <-].
  split; [done|]. split; [by unfold wf4; simpl; rewrite length_replicate|].
  split; [done|]. intros Hi Hy Hx Hk. unfold get4. simpl.
  destruct (decide _) as [_|Hn]; [|tauto].
  apply lookup_replicate_2. by apply ravel_lt.
Qed.

Lemma slice_assign_spec {A} (batch : array4 A) (n : nat) (image : array3 A)
    (B H W C : nat) :
  shape4 batch = (B, H, W, C) → wf4 batch → n < B →
  height image ≤ H → width image ≤ W → channels image ≤ C →
  ∃ batch', slice_assign batch n image = Ok batch' ∧
    shape4 batch' = (B, H, W, C) ∧ wf4 batch' ∧
    ∀ i y x k, i < B → y < H → x < W → k < C →
      get4 batch' i y x k =
      if decide (i = n)
      then (match get3 image y x k with
            | Some v => Some v
            | None => get4 batch i y x k
            end)
      else get4 batch i y x k.
Proof.
  intros Hshape Hwf Hn Hh Hw Hc. unfold slice_assign. rewrite Hshape.
  destruct (decide (B ≤ n)); [lia|].
  destruct (decide _) as [_|Hfit]; [|tauto].
  eexists. split; [done|]. simpl. split; [done|]. split.
  { unfold wf4 in *. simpl. rewrite Hshape in *. by rewrite length_imap. }
  intros i y x k Hi Hy Hx Hk. unfold get4. simpl. rewrite Hshape.
  destruct (decide _) as [_|Hout]; [|tauto].
  rewrite list_lookup_imap.
  destruct (unravel_index H W C i y x k Hy Hx Hk) as (-> & -> & -> & ->).
  destruct (lookup_lt_is_Some_2 (data4 batch) (((i * H + y) * W + x) * C + k))
    as [old Hold].
  { unfold wf4 in Hwf. rewrite Hshape in Hwf. rewrite Hwf. by apply ravel_lt. }
  rewrite Hold. simpl.
  destruct (decide (i = n)); [|done].
  by destruct (get3 image y x k).
Qed.

Lemma copy_images_spec {A} (image_group : list (array3 A)) (batch : array4 A)
    (n B H W C : nat) :
  shape4 batch = (B, H, W, C) → wf4 batch → n + length image_group ≤ B →
  Forall (fun image => height image ≤ H ∧ width image ≤ W ∧ channels image ≤ C)
         image_group →
  ∃ batch', copy_images batch n image_group = Ok batch' ∧
    shape4 batch' = (B, H, W, C) ∧ wf4 batch' ∧
    ∀ i y x k, i < B → y < H → x < W → k < C →
      get4 batch' i y x k =
      match (if decide (n ≤ i) then image_group !! (i - n) else None)
            ≫= fun image => get3 image y x k with
      | Some v => Some v
      | None => get4 batch i y x k
      end.
Proof.
  revert batch n. induction image_group as [|image rest IH];
    intros batch n Hshape Hwf Hlen Hfit; simpl.
  - exists batch. split; [done|]. split; [done|]. split; [done|].
    intros i y x k _ _ _ _. by destruct (decide (n ≤ i)).
  - apply Forall_cons in Hfit as [(Hh & Hw & Hc) Hfit]. simpl in Hlen.
    destruct (slice_assign_spec batch n image B H W C)
      as (batch1 & -> & Hshape1 & Hwf1 & Hget1); [done|done|lia|done..|].
    simpl.
    destruct (IH batch1 (S n)) as (batch2 & -> & Hshape2 & Hwf2 & Hget2);
      [done|done|lia|done|].
    exists batch2. split; [done|]. split; [done|]. split; [done|].
    intros i y x k Hi Hy Hx Hk.
    rewrite Hget2, Hget1 by done.
    destruct (decide (S n ≤ i)) as [Hlt|Hge].
    + destruct (decide (n ≤ i)); [|lia]. destruct (decide (i = n)); [lia|].
      replace (i - n) with (S (i - S n)) by lia. done.
    + simpl. destruct (decide (i = n)) as [->|Hne].
      * destruct (decide (n ≤ n)); [|lia]. by rewrite Nat.sub_diag.
      * by destruct (decide (n ≤ i)); [lia|].
Qed.

Lemma py_max_max_list (l : list nat) : l ≠ [] → py_max l = Ok (max_list l).
Proof.
  destruct l as [|a l]; [done|]. intros _. simpl. f_equal.
  revert a. induction l as [|b l IH]; intros a; simpl; [lia|].
  rewrite IH. lia.
Qed.

Section batch.
Context `{NumpyRandom}.

(** What [construct_image_batch] computes for a group that fits the batch. *)
Lemma construct_image_batch_run (w : world) (image_group : list (array3 spec_float)) :
  image_group ≠ [] →
  (Z.of_nat (length image_group) ≤ w.(self).(batch_size))%Z →
  ∃ batch, construct_image_batch image_group w = (Ok batch, w) ∧
    shape4 batch = (Z.to_nat w.(self).(batch_size),
                    max_list (height <$> image_group),
                    max_list (width <$> image_group),
                    max_list (channels <$> image_group)) ∧
    wf4 batch ∧
    ∀ i y x k,
      i < Z.to_nat w.(self).(batch_size) →
      y < max_list (height <$> image_group) →
      x < max_list (width <$> image_group) →
      k < max_list (channels <$> image_group) →
      get4 batch i y x k =
      match image_group !! i ≫= fun image => get3 image y x k with
      | Some v => Some v
      | None => Some F32.zero
      end.
Proof.
  intros Hne Hlen.
  set (B := batch_size (self w)) in *.
  set (max_h := max_list (height <$> image_group)).
  set (max_w := max_list (width <$> image_group)).
  set (max_c := max_list (channels <$> image_group)).
  unfold construct_image_batch, bind, attr, lift. simpl.
  rewrite !py_max_max_list by (by destruct image_group).
  fold B max_h max_w max_c. simpl.
  destruct (np_zeros B max_h max_w max_c) as [zeros|] eqn:Hz;
    [|unfold np_zeros in Hz; destruct (Z.ltb_spec B 0); [lia|done]].
  simpl.
  destruct (get4_np_zeros B max_h max_w max_c zeros 0 0 0 0 Hz)
    as (Hshape & Hwfz & HB & _).
  destruct (copy_images_spec image_group zeros 0 (Z.to_nat B) max_h max_w max_c)
    as (batch & -> & Hshape' & Hwf' & Hget); [done|done|lia| |].
  { apply Forall_forall. intros image Hin.
    repeat split; apply max_list_elem_of_le; apply list_elem_of_fmap; by exists image. }
  exists batch. split; [done|]. split; [done|]. split; [done|].
  intros i y x k Hi Hy Hx Hk. rewrite Hget by done.
  destruct (decide (0 ≤ i)); [|lia]. rewrite Nat.sub_0_r.
  destruct (image_group !! i ≫= _); [done|].
  by apply (get4_np_zeros B max_h max_w max_c zeros i y x k Hz).
Qed.

(** C2. For a non-empty group of at most [batch_size] well-formed images,
    [construct_image_batch] returns a tensor of shape
    [(batch_size, max h_i, max w_i, max c_i)]; in slot [i] the cell [(y, x, k)]
    is the cell of image [i] when it lies inside the shape of that image, and
    zero everywhere else (also in the slots beyond the group); no image is
    cropped, and the object is left as it was. *)
Theorem batch_is_zero_padded_copy (w : world) (image_group : list (array3 spec_float)) :
  let B := w.(self).(batch_size) in
  let max_h := max_list (height <$> image_group) in
  let max_w := max_list (width <$> image_group) in
  let max_c := max_list (channels <$> image_group) in
  image_group ≠ [] →
  (Z.of_nat (length image_group) ≤ B)%Z →
  Forall wf3 image_group →
  ∃ batch, construct_image_batch image_group w = (Ok batch, w) ∧
    shape4 batch = (Z.to_nat B, max_h, max_w, max_c) ∧
    wf4 batch ∧
    (∀ image, image ∈ image_group →
       height image ≤ max_h ∧ width image ≤ max_w ∧ channels image ≤ max_c) ∧
    (∀ i image y x k, image_group !! i = Some image →
       y < height image → x < width image → k < channels image →
       is_Some (get3 image y x k) ∧ get4 batch i y x k = get3 image y x k) ∧
    (∀ i y x k, i < Z.to_nat B → y < max_h → x < max_w → k < max_c →
       (∀ image, image_group !! i = Some image →
          ¬ (y < height image ∧ x < width image ∧ k < channels image)) →
       get4 batch i y x k = Some F32.zero).
Proof.
  intros B max_h max_w max_c Hne Hlen Hwf.
  assert (Hfit : ∀ image, image ∈ image_group →
            height image ≤ max_h ∧ width image ≤ max_w ∧ channels image ≤ max_c).
  { intros image Hin. repeat split; apply max_list_elem_of_le;
      apply list_elem_of_fmap; by exists image. }
  destruct (construct_image_batch_run w image_group Hne Hlen)
    as (batch & Hrun & Hshape & Hwf' & Hget).
  exists batch. split; [done|]. split; [done|]. split; [done|]. split; [done|].
  split.
  - intros i image y x k Himg Hy Hx Hk.
    destruct (Hfit image) as (Hh & Hw & Hc); [by eapply list_elem_of_lookup_2|].
    destruct (get3_is_Some image y x k) as [v Hv]; [|done..|].
    { rewrite Forall_forall in Hwf. apply Hwf. by eapply list_elem_of_lookup_2. }
    split; [by rewrite Hv|].
    pose proof (lookup_lt_Some _ _ _ Himg).
    rewrite Hget by (fold B max_h max_w max_c; lia).
    rewrite Himg. simpl. by rewrite Hv.
  - intros i y x k Hi Hy Hx Hk Hout.
    rewrite Hget by done.
    destruct (image_group !! i) as [image|] eqn:Himg; simpl; [|done].
    by rewrite get3_outside by by apply Hout.
Qed.

End batch.

(** ** [__getitem__] *)

Section getitem.
Context `{NumpyRandom, ImageLib}.

Lemma reads_only_ret {A} (a : A) : reads_only (ret a).
Proof. by intros w. Qed.

Lemma reads_only_lift {A} (r : result A) : reads_only (lift r).
Proof. by intros w. Qed.

Lemma reads_only_attr {A} (field : Generator → A) : reads_only (attr field).
Proof. by intros w. Qed.

Lemma reads_only_bind {A B} (m : M A) (f : A → M B) :
  reads_only m → (∀ a, reads_only (f a)) → reads_only (bind m f).
Proof.
  intros Hm Hf w. unfold bind. specialize (Hm w).
  destruct (m w) as [[a|e] w1]; simpl in Hm; subst w1; [apply Hf|done].
Qed.

Lemma load_images_reads_only (fs : node) (image_group : list (list string)) :
  reads_only (load_images fs image_group).
Proof.
  apply reads_only_bind; [apply reads_only_attr|]. intros ms. apply reads_only_lift.
Qed.

Lemma construct_image_batch_reads_only (images : list (array3 spec_float)) :
  reads_only (construct_image_batch images).
Proof.
  apply reads_only_bind; [apply reads_only_attr|]. intros B. apply reads_only_lift.
Qed.

Lemma getitem_reads_only (fs : node) (index : Z) : reads_only (__getitem__ fs index).
Proof.
  unfold __getitem__.
  repeat (apply reads_only_bind; [|intros ?]);
    auto using reads_only_attr, reads_only_lift, reads_only_ret,
               load_images_reads_only, construct_image_batch_reads_only.
Qed.

Lemma py_getitem_IndexError {A} (l : list A) (k : Z) :
  let n := Z.of_nat (length l) in
  (py_getitem l k = Raise IndexError ↔ (k < - n ∨ n ≤ k)%Z) ∧
  ((- n ≤ k < n)%Z → ∃ x, l !! Z.to_nat (k mod n) = Some x ∧ py_getitem l k = Ok x).
Proof.
  intros n. unfold py_getitem. fold n.
  destruct (Z.ltb_spec k 0) as [Hneg|Hpos].
  - destruct (Z.leb_spec 0 (k + n)) as [Hlo|Hlo]; simpl.
    + destruct (Z.ltb_spec (k + n) n); [|lia].
      destruct (lookup_lt_is_Some_2 l (Z.to_nat (k + n))) as [x Hx]; [lia|].
      rewrite Hx. split; [split; [done|lia]|]. intros _. exists x. split; [|done].
      rewrite <- Hx. f_equal. f_equal.
      symmetry. apply (Z.mod_unique _ _ (-1)); lia.
    + split; [split; [lia|done]|lia].
  - destruct (Z.leb_spec 0 k); [|lia]. simpl.
    destruct (Z.ltb_spec k n) as [Hlt|Hge].
    + destruct (lookup_lt_is_Some_2 l (Z.to_nat k)) as [x Hx]; [lia|].
      rewrite Hx. split; [split; [done|lia]|]. intros _. exists x. split; [|done].
      by rewrite Z.mod_small by lia.
    + split; [split; [lia|done]|lia].
Qed.

Lemma load_image_not_IndexError (fs : node) (ms : Z) (image_path : list string) :
  load_image fs ms image_path ≠ Raise IndexError.
Proof.
  unfold load_image, image_open_rgb.
  destruct (resolve fs image_path) as [[d|]|e] eqn:Hres; [|done|].
  2:{ simpl. intros [= ->]. by destruct (resolve_Raise _ _ _ Hres). }
  destruct (pil_open_rgb d) as [raw| |]; [|done..]. simpl.
  set (img := preprocess_image _). unfold resize_image.
  destruct (im_scale_of _ _ ms) as [s|e] eqn:Hs; simpl.
  2:{ unfold im_scale_of in Hs. destruct (_ <? _)%Z; [|done].
      unfold py_float, py_truediv in Hs.
      repeat (match type of Hs with context [match ?x with _ => _ end] =>
                destruct x; simpl in Hs; try done end); congruence. }
  unfold scaled_side, py_float, py_int, py_int_truediv.
  repeat (match goal with |- context [match ?x with _ => _ end] =>
            destruct x; simpl; try done end).
Qed.

Lemma load_images_not_IndexError (fs : node) (image_group : list (list string))
    (w : world) :
  (load_images fs image_group w).1 ≠ Raise IndexError.
Proof.
  unfold load_images, bind, attr, lift. simpl.
  induction image_group as [|q rest IH]; simpl; [done|].
  pose proof (load_image_not_IndexError fs (image_min_side (self w)) q).
  destruct (load_image _ _ q); [|congruence].
  by destruct (comprehension _ rest).
Qed.

Lemma Generator_new_groups (fs : node) (p : list string) (B : Z) (sh : bool) (ms : Z)
    (st st' : rng_state) (g : Generator) :
  (1 ≤ B)%Z →
  Generator_new fs p B sh ms st = (Ok g, st') →
  g.(batch_size) = B ∧ g.(image_min_side) = ms ∧
  length g.(image_paths) = length g.(image_labels) ∧
  g.(image_groups) = groups_of g.(image_paths) B ∧
  g.(label_groups) = groups_of g.(image_labels) B.
Proof.
  intros HB Hnew.
  apply Generator_new_inv in Hnew
    as (names & samples & rows & gs & lgs & _ & _ & _ & Hrows & Hgs & Hlgs & ->).
  rewrite make_groups_spec in Hgs by done.
  rewrite make_groups_spec in Hlgs by done.
  injection Hgs as <-. injection Hlgs as <-.
  destruct (reordered_lengths (loaded names samples rows (configured B sh ms)))
    as [Hlp Hll].
  cbn [image_paths image_labels image_groups label_groups batch_size image_min_side
       set_label_groups set_image_groups].
  split; [|split; [|split; [|done]]].
  - unfold reordered. by destruct (shuffle_images _).
  - unfold reordered. by destruct (shuffle_images _).
  - rewrite Hlp, Hll. cbn. apply onehot_transform_length in Hrows as [-> _].
    by rewrite !length_fmap.
Qed.

(** C7 (as amended). On a constructed generator with [n] groups,
    [__getitem__] raises [IndexError] exactly when [index < -n] or
    [index >= n]; for [-n <= index < n] it addresses group [index mod n] (a
    negative index counts from the end), raises what loading an image of that
    group raises, and otherwise returns the batch built from the loaded
    images with the label rows of the group, in the order of its samples. *)
Theorem getitem_index_error_outside_wrapped_range (fs0 fs : node) (p : list string)
    (B : Z) (sh : bool) (ms : Z) (st st' st'' : rng_state) (g : Generator) (index : Z) :
  (1 ≤ B)%Z →
  Generator_new fs0 p B sh ms st = (Ok g, st') →
  let w := World g st'' in
  let n := Z.of_nat (length g.(image_groups)) in
  (__len__ w).1 = Ok n ∧
  ((__getitem__ fs index w).1 = Raise IndexError ↔ (index < - n ∨ n ≤ index)%Z) ∧
  ((- n ≤ index < n)%Z →
     let k := Z.to_nat (index mod n) in
     ∃ ig lg,
       g.(image_groups) !! k = Some ig ∧ g.(label_groups) !! k = Some lg ∧
       length lg = Z.to_nat B ∧
       (∀ j, j < Z.to_nat B →
          lg !! j = g.(image_labels) !! ((k * Z.to_nat B + j) mod length g.(image_labels))) ∧
       match comprehension (load_image fs ms) ig with
       | Ok images =>
           ∃ batch, __getitem__ fs index w = (Ok (batch, lg), w) ∧
                    construct_image_batch images w = (Ok batch, w)
       | Raise e => __getitem__ fs index w = (Raise e, w)
       end).
Proof.
  intros HB Hnew w n.
  destruct (Generator_new_groups _ _ _ _ _ _ _ _ HB Hnew)
    as (HBg & Hms & Hlen & Hig & Hlg).
  assert (Hn : Z.of_nat (length (label_groups g)) = n).
  { subst n. rewrite Hig, Hlg, !groups_of_length. by rewrite Hlen. }
  destruct (py_getitem_IndexError (image_groups g) index) as [Hout Hin].
  destruct (py_getitem_IndexError (label_groups g) index) as [_ Hlin].
  fold n in Hout, Hin. rewrite Hn in Hlin.
  assert (Hrange : (- n ≤ index < n)%Z →
    let k := Z.to_nat (index mod n) in
    ∃ ig lg,
      g.(image_groups) !! k = Some ig ∧ g.(label_groups) !! k = Some lg ∧
      length lg = Z.to_nat B ∧
      (∀ j, j < Z.to_nat B →
         lg !! j = g.(image_labels) !! ((k * Z.to_nat B + j) mod length g.(image_labels))) ∧
      match comprehension (load_image fs ms) ig with
      | Ok images =>
          ∃ batch, __getitem__ fs index w = (Ok (batch, lg), w) ∧
                   construct_image_batch images w = (Ok batch, w)
      | Raise e => __getitem__ fs index w = (Raise e, w)
      end).
  { intros Hr k.
    destruct (Hin Hr) as (ig & Higk & Hgi). destruct (Hlin Hr) as (lg & Hlgk & Hgl).
    fold k in Higk, Hlgk.
    exists ig, lg. split; [done|]. split; [done|].
    assert (Hk : (Z.of_nat k < ceil_div (Z.of_nat (length (image_paths g))) B)%Z).
    { apply lookup_lt_Some in Higk. rewrite Hig in Higk.
      pose proof (groups_of_length (image_paths g) B). lia. }
    destruct (groups_of_lookup (image_paths g) B k HB Hk) as [Higk' Hpne].
    destruct (groups_of_lookup (image_labels g) B k HB) as [Hlgk' Hlne];
      [by rewrite <- Hlen|].
    rewrite <- Hig, Higk in Higk'. rewrite <- Hlg, Hlgk in Hlgk'.
    injection Higk' as ->. injection Hlgk' as ->.
    split; [by apply group_at_length|].
    split; [intros j Hj; by apply group_at_lookup|].
    unfold __getitem__, bind, attr, lift. simpl. rewrite Hgi, Hgl.
    unfold load_images, bind, attr, lift. simpl. rewrite Hms.
    destruct (comprehension _ _) as [images|e] eqn:Himgs; [|done].
    destruct (construct_image_batch_run w images) as (batch & Hb & _).
    { apply comprehension_length in Himgs.
      rewrite group_at_length in Himgs by done.
      destruct images; [simpl in Himgs; lia|done]. }
    { apply comprehension_length in Himgs.
      rewrite group_at_length in Himgs by done. simpl. lia. }
    exists batch. split; [|done].
    unfold construct_image_batch, bind, attr, lift in Hb. simpl in Hb.
    injection Hb as ->. done. }
  split; [done|]. split; [|done]. split.
  - intros Herr.
    destruct (Z.lt_ge_cases index (- n)); [lia|].
    destruct (Z.lt_ge_cases index n); [|lia]. exfalso.
    destruct Hrange as (ig & lg & _ & _ & _ & _ & Hres); [lia|].
    pose proof (load_images_not_IndexError fs ig w) as Hload.
    unfold load_images, bind, attr, lift in Hload. simpl in Hload. rewrite Hms in Hload.
    destruct (comprehension _ ig) as [images|e].
    + destruct Hres as (batch & Hres & _). by rewrite Hres in Herr.
    + rewrite Hres in Herr. simpl in *. congruence.
  - intros Hr. destruct Hout as [_ Hout]. specialize (Hout Hr).
    unfold __getitem__, bind, attr, lift. simpl. by rewrite Hout.
Qed.

(** C9. [__getitem__] leaves the world as it found it, whatever the index and
    whether it returns or raises: every attribute of the generator and the
    random state are the ones before the call, so a second call with the same
    index (on the same files) gives the same result. *)
Theorem getitem_leaves_generator_unchanged (fs : node) (index : Z) (w : world) :
  (__getitem__ fs index w).2 = w ∧
  (__getitem__ fs index w).2.(self) = w.(self) ∧
  (__len__ (__getitem__ fs index w).2).1 = (__len__ w).1 ∧
  ∀ index', __getitem__ fs index' (__getitem__ fs index w).2 = __getitem__ fs index' w.
Proof.
  pose proof (getitem_reads_only fs index w) as Hw.
  rewrite Hw. done.
Qed.

End getitem.

(** ** Binary floating point: rounding after a right shift *)

Section rounding.
Local Open Scope Z_scope.

Lemma digits2_pos_bounds (m : positive) :
  2 ^ (Z.pos (digits2_pos m) - 1) ≤ Z.pos m < 2 ^ Z.pos (digits2_pos m).
Proof.
  induction m as [m IH|m IH|]; simpl digits2_pos; [| |simpl; lia].
  - rewrite Pos2Z.inj_succ.
    replace (Z.succ (Z.pos (digits2_pos m)) - 1) with (Z.succ (Z.pos (digits2_pos m) - 1))
      by lia.
    rewrite !Z.pow_succ_r by lia. lia.
  - rewrite Pos2Z.inj_succ.
    replace (Z.succ (Z.pos (digits2_pos m)) - 1) with (Z.succ (Z.pos (digits2_pos m) - 1))
      by lia.
    rewrite !Z.pow_succ_r by lia. lia.
Qed.

Lemma digits2_pos_unique (m : positive) (k : Z) :
  2 ^ (k - 1) ≤ Z.pos m < 2 ^ k → Z.pos (digits2_pos m) = k.
Proof.
  intros [Hlo Hhi]. pose proof (digits2_pos_bounds m) as [Hlo' Hhi'].
  assert (0 < k).
  { destruct (Z.lt_ge_cases 0 k); [done|].
    rewrite (Z.pow_neg_r 2 (k - 1)) in Hlo by lia.
    destruct (Z.eq_dec k 0) as [->|]; [simpl in Hhi; lia|].
    rewrite Z.pow_neg_r in Hhi by lia. lia. }
  destruct (Z.lt_trichotomy (Z.pos (digits2_pos m)) k) as [Hlt|[Heq|Hgt]]; [|done|].
  - assert (2 ^ Z.pos (digits2_pos m) ≤ 2 ^ (k - 1)) by (apply Z.pow_le_mono_r; lia).
    lia.
  - assert (2 ^ k ≤ 2 ^ (Z.pos (digits2_pos m) - 1)) by (apply Z.pow_le_mono_r; lia).
    lia.
Qed.

Lemma shr_1_m (mrs : shr_record) :
  0 ≤ shr_m mrs → shr_m (shr_1 mrs) = shr_m mrs / 2 ∧ 0 ≤ shr_m (shr_1 mrs).
Proof.
  destruct mrs as [m r s]. cbn [shr_m]. intros Hm.
  destruct m as [|[p|p|]|p]; cbn [shr_1 shr_m]; try lia.
  - done.
  - split; [|lia]. apply (Z.div_unique _ _ _ 1); lia.
  - split; [|lia]. apply (Z.div_unique _ _ _ 0); lia.
  - done.
Qed.

Lemma pow2_xO (p : positive) : 2 ^ Z.pos p~0 = 2 ^ Z.pos p * 2 ^ Z.pos p.
Proof. rewrite <- Z.pow_add_r by lia. f_equal. lia. Qed.

Lemma pow2_xI (p : positive) : 2 ^ Z.pos p~1 = 2 * (2 ^ Z.pos p * 2 ^ Z.pos p).
Proof.
  replace (Z.pos p~1) with (Z.succ (Z.pos p~0)) by lia.
  rewrite Z.pow_succ_r by lia. by rewrite pow2_xO.
Qed.

Lemma iter_pos_shr_1_m (p : positive) (mrs : shr_record) :
  0 ≤ shr_m mrs →
  shr_m (SpecFloat.iter_pos shr_1 p mrs) = shr_m mrs / 2 ^ Z.pos p ∧
  0 ≤ shr_m (SpecFloat.iter_pos shr_1 p mrs).
Proof.
  revert mrs. induction p as [p IH|p IH|]; intros mrs Hm; cbn [SpecFloat.iter_pos].
  - destruct (shr_1_m mrs Hm) as [E1 H1].
    destruct (IH _ H1) as [E2 H2]. destruct (IH _ H2) as [E3 H3].
    split; [|done]. rewrite E3, E2, E1.
    rewrite !Z.div_div by lia. by rewrite pow2_xI, Z.mul_assoc.
  - destruct (IH _ Hm) as [E2 H2]. destruct (IH _ H2) as [E3 H3].
    split; [|done]. rewrite E3, E2.
    rewrite !Z.div_div by lia. by rewrite pow2_xO.
  - destruct (shr_1_m mrs Hm) as [E1 H1]. split; [|done]. by rewrite E1.
Qed.

Lemma shr_1_exact (m : Z) :
  0 ≤ m → shr_1 (Build_shr_record (2 * m) false false) = Build_shr_record m false false.
Proof. intros Hm. destruct m; simpl; first [done|lia]. Qed.

Lemma iter_pos_shr_1_exact (p : positive) (m : Z) :
  0 ≤ m →
  SpecFloat.iter_pos shr_1 p (Build_shr_record (m * 2 ^ Z.pos p) false false)
  = Build_shr_record m false false.
Proof.
  revert m. induction p as [p IH|p IH|]; intros m Hm; cbn [SpecFloat.iter_pos].
  - rewrite pow2_xI.
    replace (m * (2 * (2 ^ Z.pos p * 2 ^ Z.pos p)))
      with (2 * ((m * 2 ^ Z.pos p) * 2 ^ Z.pos p)) by lia.
    rewrite shr_1_exact by nia. rewrite IH by nia. by apply IH.
  - rewrite pow2_xO, Z.mul_assoc.
    rewrite IH by nia. by apply IH.
  - replace (m * 2 ^ 1) with (2 * m) by lia. by apply shr_1_exact.
Qed.

Lemma round_nearest_even_range (m : Z) (l : location) :
  round_nearest_even m l = m ∨ round_nearest_even m l = m + 1.
Proof.
  destruct l as [|[]]; simpl; auto. destruct (Z.even m); auto.
Qed.

Lemma fexp_normal (e : Z) : -1021 ≤ e → fexp 53 1024 e = e - 53.
Proof. intros He. unfold fexp, emin. lia. Qed.

Lemma shr_m_of_loc (m : Z) (l : location) : shr_m (shr_record_of_loc m l) = m.
Proof. by destruct l as [|[]]. Qed.

(** Right shift by [n]: the mantissa is divided by [2^n]. *)
Lemma shr_m_shr (mrs : shr_record) (e n : Z) :
  0 ≤ shr_m mrs → 0 ≤ n →
  shr_m (shr mrs e n).1 = shr_m mrs / 2 ^ n ∧ (shr mrs e n).2 = e + n.
Proof.
  intros Hm Hn. unfold shr. destruct n as [|p|p]; [| |lia]; simpl.
  - rewrite Z.div_1_r. lia.
  - destruct (iter_pos_shr_1_m p mrs Hm) as [-> _]. done.
Qed.

Lemma div_pow2_bounds (m d n : Z) :
  0 ≤ n → 0 ≤ d → 2 ^ (d + n - 1) ≤ m < 2 ^ (d + n) → 1 ≤ d →
  2 ^ (d - 1) ≤ m / 2 ^ n < 2 ^ d ∧
  m / 2 ^ n * 2 ^ n ≤ m < (m / 2 ^ n + 1) * 2 ^ n.
Proof.
  intros Hn Hd [Hlo Hhi] Hd1.
  assert (Hpos : 0 < 2 ^ n) by (apply Z.pow_pos_nonneg; lia).
  rewrite Z.pow_add_r in Hhi by lia.
  replace (d + n - 1) with ((d - 1) + n) in Hlo by lia.
  rewrite Z.pow_add_r in Hlo by lia.
  pose proof (Z.div_mod m (2 ^ n) ltac:(lia)) as Hdm.
  pose proof (Z.mod_pos_bound m (2 ^ n) Hpos) as Hmod.
  split; [split|].
  - apply Z.div_le_lower_bound; lia.
  - apply Z.div_lt_upper_bound; lia.
  - lia.
Qed.

(** Rounding a positive mantissa of at least 53 digits, away from the
    exponent bounds: the result is normal and within one unit of its last
    place of the mantissa that was given. *)
Lemma binary_round_aux_bounds (mx : positive) (ex : Z) (lx : location) :
  let dx := Z.pos (digits2_pos mx) in
  53 ≤ dx → -1021 ≤ dx + ex → dx + ex ≤ 1023 →
  ∃ P d, binary_round_aux 53 1024 false (Z.pos mx) ex lx = S754_finite false P d ∧
    2 ^ 52 ≤ Z.pos P < 2 ^ 53 ∧
    dx - 53 ≤ d - ex ≤ dx - 52 ∧
    Z.pos mx - 2 ^ (d - ex) < Z.pos P * 2 ^ (d - ex) ≤ Z.pos mx + 2 ^ (d - ex).
Proof.
  intros dx Hdx Hlo Hhi.
  set (n := dx - 53).
  assert (Hn : 0 ≤ n) by (unfold n; lia).
  pose proof (digits2_pos_bounds mx) as Hdig. fold dx in Hdig.
  destruct (div_pow2_bounds (Z.pos mx) 53 n) as [[Hm1lo Hm1hi] [Hfl Hce]];
    [lia|lia| |lia|].
  { replace (53 + n - 1) with (dx - 1) by (unfold n; lia).
    replace (53 + n) with dx by (unfold n; lia). done. }
  set (m1 := Z.pos mx / 2 ^ n) in *.
  unfold binary_round_aux, shr_fexp.
  cbn [Zdigits2]. fold dx. rewrite fexp_normal by lia.
  replace (dx + ex - 53 - ex) with n by (unfold n; lia).
  destruct (shr_m_shr (shr_record_of_loc (Z.pos mx) lx) ex n) as [Hm He];
    [rewrite shr_m_of_loc; lia|done|].
  rewrite shr_m_of_loc in Hm. fold m1 in Hm.
  destruct (shr (shr_record_of_loc (Z.pos mx) lx) ex n) as [mrs1 e1].
  cbn [fst snd] in Hm, He. subst e1. rewrite Hm.
  set (q1 := round_nearest_even m1 (loc_of_shr_record mrs1)).
  assert (Hq1 : q1 = m1 ∨ q1 = m1 + 1) by apply round_nearest_even_range.
  change (2 ^ 52) with 4503599627370496 in *.
  change (2 ^ 53) with 9007199254740992 in *.
  assert (Hpn : 0 < 2 ^ n) by (apply Z.pow_pos_nonneg; lia).
  destruct q1 as [|pq|pq] eqn:Hpq; [lia| |lia].
  destruct (Z.eq_dec (Z.pos pq) 9007199254740992) as [Heq|Hne].
  - (* the rounded mantissa has 54 digits and is shifted once more *)
    injection Heq as ->. cbn [Zdigits2].
    change (Z.pos (digits2_pos 9007199254740992)) with 54.
    rewrite fexp_normal by lia.
    replace (54 + (ex + n) - 53 - (ex + n)) with 1 by lia.
    cbn [shr SpecFloat.iter_pos shr_record_of_loc shr_1 fst snd shr_m Z.add].
    destruct (Z.leb_spec (ex + n + 1) (1024 - 53)); [|unfold n in *; lia].
    eexists _, _. split; [done|].
    replace (ex + n + 1 - ex) with (n + 1) by lia.
    rewrite Z.pow_add_r by lia. change (2 ^ 1) with 2.
    unfold n in *. lia.
  - assert (Hd53 : Z.pos (digits2_pos pq) = 53).
    { apply digits2_pos_unique.
      change (2 ^ (53 - 1)) with 4503599627370496.
      change (2 ^ 53) with 9007199254740992. lia. }
    cbn [Zdigits2]. rewrite Hd53, fexp_normal by lia.
    replace (53 + (ex + n) - 53 - (ex + n)) with 0 by lia.
    cbn [shr shr_record_of_loc fst snd shr_m].
    destruct (Z.leb_spec (ex + n) (1024 - 53)); [|unfold n in *; lia].
    eexists _, _. split; [done|].
    replace (ex + n - ex) with n by lia.
    unfold n in *. nia.
Qed.

(** A mantissa of exactly 53 digits followed by [n] zero bits rounds to
    itself. *)
Lemma binary_round_aux_exact (M : positive) (ex n : Z) :
  Z.pos (digits2_pos M) = 53 → 0 ≤ n → -1074 ≤ ex → ex + n ≤ 971 →
  binary_round_aux 53 1024 false (Z.pos M * 2 ^ n) ex loc_Exact
  = S754_finite false M (ex + n).
Proof.
  intros HM Hn Hlo Hhi.
  pose proof (digits2_pos_bounds M) as HMb. rewrite HM in HMb.
  assert (Hpn : 0 < 2 ^ n) by (apply Z.pow_pos_nonneg; lia).
  destruct (Z.pos M * 2 ^ n) as [|mx|mx] eqn:Hmx; [lia| |lia].
  assert (Hdx : Z.pos (digits2_pos mx) = 53 + n).
  { apply digits2_pos_unique. rewrite <- Hmx.
    replace (53 + n - 1) with (52 + n) by lia.
    rewrite !Z.pow_add_r by lia. change (53 - 1) with 52 in HMb. nia. }
  unfold binary_round_aux, shr_fexp.
  cbn [Zdigits2]. rewrite Hdx, fexp_normal by lia.
  replace (53 + n + ex - 53 - ex) with n by lia.
  assert (Hshr : shr (shr_record_of_loc (Z.pos mx) loc_Exact) ex n
                 = (Build_shr_record (Z.pos M) false false, ex + n)).
  { cbn [shr_record_of_loc]. unfold shr. destruct n as [|p|p]; [| |lia].
    - f_equal; [|lia]. f_equal. rewrite <- Hmx. change (2 ^ 0) with 1. lia.
    - rewrite <- Hmx. by rewrite iter_pos_shr_1_exact. }
  rewrite Hshr. cbn [shr_m loc_of_shr_record round_nearest_even Zdigits2].
  rewrite HM, fexp_normal by lia.
  replace (53 + (ex + n) - 53 - (ex + n)) with 0 by lia.
  cbn [shr shr_record_of_loc fst snd shr_m].
  by destruct (Z.leb_spec (ex + n) (1024 - 53)); [|lia].
Qed.

Lemma binary_round_aux_exact' (M : positive) (ex : Z) :
  Z.pos (digits2_pos M) = 53 → -1074 ≤ ex ≤ 971 →
  binary_round_aux 53 1024 false (Z.pos M) ex loc_Exact = S754_finite false M ex.
Proof.
  intros HM Hex.
  pose proof (binary_round_aux_exact M ex 0 HM) as Hr.
  rewrite Z.add_0_r in Hr. change (2 ^ 0) with 1 in Hr. rewrite Z.mul_1_r in Hr.
  apply Hr; lia.
Qed.

(** *** Round to nearest: the location of the real number while shifting *)

Lemma loc_of_shr_record_of_loc (m : Z) (l : location) :
  loc_of_shr_record (shr_record_of_loc m l) = l.
Proof. by destruct l as [|[]]. Qed.

Lemma shr_1_located (mrs : shr_record) (N D : Z) :
  0 ≤ shr_m mrs → 0 < D →
  located (shr_m mrs) (loc_of_shr_record mrs) N D →
  located (shr_m (shr_1 mrs)) (loc_of_shr_record (shr_1 mrs)) N (2 * D).
Proof.
  destruct mrs as [m r s]. cbn [shr_m]. intros Hm HD.
  destruct m as [|[p|p|]|p]; [| | | |lia];
    destruct r, s; cbn [shr_1 shr_m loc_of_shr_record located orb];
    intros Hloc; lia.
Qed.

Lemma iter_pos_shr_1_located (p : positive) (mrs : shr_record) (N D : Z) :
  0 ≤ shr_m mrs → 0 < D →
  located (shr_m mrs) (loc_of_shr_record mrs) N D →
  located (shr_m (SpecFloat.iter_pos shr_1 p mrs))
          (loc_of_shr_record (SpecFloat.iter_pos shr_1 p mrs)) N (D * 2 ^ Z.pos p).
Proof.
  revert mrs D. induction p as [p IH|p IH|]; intros mrs D Hm HD Hloc;
    cbn [SpecFloat.iter_pos].
  - destruct (shr_1_m mrs Hm) as [_ H1].
    apply shr_1_located in Hloc; [|done..].
    assert (Hp : 0 < 2 ^ Z.pos p) by (apply Z.pow_pos_nonneg; lia).
    destruct (iter_pos_shr_1_m p _ H1) as [_ H2].
    apply (IH _ (2 * D)) in Hloc; [|done|lia].
    apply (IH _ (2 * D * 2 ^ Z.pos p)) in Hloc; [|done|nia].
    rewrite pow2_xI.
    replace (D * (2 * (2 ^ Z.pos p * 2 ^ Z.pos p)))
      with (2 * D * 2 ^ Z.pos p * 2 ^ Z.pos p) by lia.
    done.
  - assert (Hp : 0 < 2 ^ Z.pos p) by (apply Z.pow_pos_nonneg; lia).
    destruct (iter_pos_shr_1_m p _ Hm) as [_ H2].
    apply (IH _ D) in Hloc; [|done..].
    apply (IH _ (D * 2 ^ Z.pos p)) in Hloc; [|done|nia].
    rewrite pow2_xO. by rewrite Z.mul_assoc.
  - apply shr_1_located in Hloc; [|done..].
    change (2 ^ 1) with 2. by rewrite Z.mul_comm.
Qed.

Lemma shr_located (mrs : shr_record) (e n N D : Z) :
  0 ≤ shr_m mrs → 0 ≤ n → 0 < D →
  located (shr_m mrs) (loc_of_shr_record mrs) N D →
  located (shr_m (shr mrs e n).1) (loc_of_shr_record (shr mrs e n).1) N (D * 2 ^ n).
Proof.
  intros Hm Hn HD Hloc. unfold shr. destruct n as [|p|p]; [| |lia]; cbn [fst].
  - by rewrite Z.mul_1_r.
  - by apply iter_pos_shr_1_located.
Qed.

(** Rounding to nearest leaves at most half a unit. *)
Lemma round_nearest_even_located (m : Z) (l : location) (N D : Z) :
  0 < D → located m l N D →
  (2 * round_nearest_even m l - 1) * D ≤ 2 * N ∧
  2 * N ≤ (2 * round_nearest_even m l + 1) * D.
Proof.
  intros HD. destruct l as [|[]]; cbn [located round_nearest_even]; intros Hloc.
  - nia.
  - destruct (Z.even m); nia.
  - nia.
  - nia.
Qed.

(** Rounding a positive mantissa of at least 53 digits that stands for the
    real number [N / D] (in units of [2^ex]), away from the exponent bounds:
    the result is normal and within half a unit in its last place of that
    number. *)
Lemma binary_round_aux_nearest (mx : positive) (ex : Z) (lx : location) (N D : Z) :
  let dx := Z.pos (digits2_pos mx) in
  53 ≤ dx → -1021 ≤ dx + ex → dx + ex ≤ 1023 →
  0 < D → located (Z.pos mx) lx N D →
  ∃ P d, binary_round_aux 53 1024 false (Z.pos mx) ex lx = S754_finite false P d ∧
    2 ^ 52 ≤ Z.pos P < 2 ^ 53 ∧
    dx - 53 ≤ d - ex ≤ dx - 52 ∧
    (2 * Z.pos P - 1) * (D * 2 ^ (d - ex)) ≤ 2 * N ∧
    2 * N ≤ (2 * Z.pos P + 1) * (D * 2 ^ (d - ex)).
Proof.
  intros dx Hdx Hlo Hhi HD Hloc.
  set (n := dx - 53).
  assert (Hn : 0 ≤ n) by (unfold n; lia).
  pose proof (digits2_pos_bounds mx) as Hdig. fold dx in Hdig.
  destruct (div_pow2_bounds (Z.pos mx) 53 n) as [[Hm1lo Hm1hi] [Hfl Hce]];
    [lia|lia| |lia|].
  { replace (53 + n - 1) with (dx - 1) by (unfold n; lia).
    replace (53 + n) with dx by (unfold n; lia). done. }
  set (m1 := Z.pos mx / 2 ^ n) in *.
  unfold binary_round_aux, shr_fexp.
  cbn [Zdigits2]. fold dx. rewrite fexp_normal by lia.
  replace (dx + ex - 53 - ex) with n by (unfold n; lia).
  destruct (shr_m_shr (shr_record_of_loc (Z.pos mx) lx) ex n) as [Hm He];
    [rewrite shr_m_of_loc; lia|done|].
  pose proof (shr_located (shr_record_of_loc (Z.pos mx) lx) ex n N D) as Hloc1.
  rewrite shr_m_of_loc, loc_of_shr_record_of_loc in Hloc1.
  specialize (Hloc1 ltac:(lia) Hn HD Hloc).
  rewrite shr_m_of_loc in Hm. fold m1 in Hm.
  destruct (shr (shr_record_of_loc (Z.pos mx) lx) ex n) as [mrs1 e1].
  cbn [fst snd] in Hm, He, Hloc1. subst e1. rewrite Hm in *.
  assert (Hpn : 0 < 2 ^ n) by (apply Z.pow_pos_nonneg; lia).
  destruct (round_nearest_even_located m1 (loc_of_shr_record mrs1) N (D * 2 ^ n))
    as [Hnear1 Hnear2]; [nia|done|].
  set (q1 := round_nearest_even m1 (loc_of_shr_record mrs1)) in *.
  assert (Hq1 : q1 = m1 ∨ q1 = m1 + 1) by apply round_nearest_even_range.
  change (2 ^ 52) with 4503599627370496 in *.
  change (2 ^ 53) with 9007199254740992 in *.
  destruct q1 as [|pq|pq] eqn:Hpq; [lia| |lia].
  destruct (Z.eq_dec (Z.pos pq) 9007199254740992) as [Heq|Hne].
  - (* the rounded mantissa has 54 digits and is shifted once more *)
    injection Heq as ->. cbn [Zdigits2].
    change (Z.pos (digits2_pos 9007199254740992)) with 54.
    rewrite fexp_normal by lia.
    replace (54 + (ex + n) - 53 - (ex + n)) with 1 by lia.
    cbn [shr SpecFloat.iter_pos shr_record_of_loc shr_1 fst snd shr_m Z.add].
    destruct (Z.leb_spec (ex + n + 1) (1024 - 53)); [|unfold n in *; lia].
    eexists _, _. split; [done|].
    replace (ex + n + 1 - ex) with (n + 1) by lia.
    rewrite Z.pow_add_r by lia. change (2 ^ 1) with 2.
    split; [lia|]. split; [unfold n; lia|].
    assert (0 < D * 2 ^ n) by nia. split; nia.
  - assert (Hd53 : Z.pos (digits2_pos pq) = 53).
    { apply digits2_pos_unique.
      change (2 ^ (53 - 1)) with 4503599627370496.
      change (2 ^ 53) with 9007199254740992. lia. }
    cbn [Zdigits2]. rewrite Hd53, fexp_normal by lia.
    replace (53 + (ex + n) - 53 - (ex + n)) with 0 by lia.
    cbn [shr shr_record_of_loc fst snd shr_m].
    destruct (Z.leb_spec (ex + n) (1024 - 53)); [|unfold n in *; lia].
    eexists _, _. split; [done|].
    replace (ex + n - ex) with n by lia.
    split; [lia|]. split; [unfold n; lia|]. done.
Qed.

End rounding.

(** ** Binary64 conversions, products and quotients *)

Section binary64.
Local Open Scope Z_scope.

Lemma pos_iter_xO (m d : positive) : Z.pos (Pos.iter xO m d) = Z.pos m * 2 ^ Z.pos d.
Proof.
  induction d as [|d IH] using Pos.peano_ind.
  - simpl. lia.
  - rewrite Pos.iter_succ, Pos2Z.inj_xO, IH, Pos2Z.inj_succ, Z.pow_succ_r by lia. lia.
Qed.

(** [float(z)] is exact below [2^53]: the mantissa is [z] shifted to 53 digits. *)
Lemma py_float_exact (z : Z) :
  0 < z < 2 ^ 53 →
  ∃ M, py_float z = Ok (S754_finite false M (Zdigits2 z - 53)) ∧
       Z.pos M = z * 2 ^ (53 - Zdigits2 z) ∧
       Z.pos (digits2_pos M) = 53 ∧ 1 ≤ Zdigits2 z ≤ 53.
Proof.
  intros [Hlo Hhi]. destruct z as [|pz|pz]; [lia| |lia].
  cbn [Zdigits2]. pose proof (digits2_pos_bounds pz) as Hd.
  set (dz := Z.pos (digits2_pos pz)) in *.
  assert (Hdz : 1 ≤ dz ≤ 53).
  { split; [unfold dz; lia|].
    destruct (Z.le_gt_cases dz 53); [done|].
    assert (2 ^ 53 ≤ 2 ^ (dz - 1)) by (apply Z.pow_le_mono_r; lia). lia. }
  unfold py_float, F64.prec, F64.emax, binary_normalize, binary_round.
  fold dz. rewrite Z.add_0_r, fexp_normal by lia.
  unfold shl_align.
  destruct (dz - 53 - 0) as [|d|d] eqn:Hsh; [|lia|].
  - exists pz. assert (dz = 53) as Hdz53 by lia.
    rewrite (binary_round_aux_exact' pz 0) by (unfold dz in *; lia).
    rewrite Hdz53. split; [done|]. split; [simpl; lia|]. split; [done|lia].
  - exists (Pos.iter xO pz d).
    assert (Hd53 : Z.pos (digits2_pos (Pos.iter xO pz d)) = 53).
    { apply digits2_pos_unique. rewrite pos_iter_xO.
      replace (Z.pos d) with (53 - dz) by lia.
      replace (2 ^ (53 - 1)) with (2 ^ (dz - 1) * 2 ^ (53 - dz))
        by (rewrite <- Z.pow_add_r by lia; f_equal; lia).
      replace (2 ^ 53) with (2 ^ dz * 2 ^ (53 - dz))
        by (rewrite <- Z.pow_add_r by lia; f_equal; lia).
      assert (0 < 2 ^ (53 - dz)) by (apply Z.pow_pos_nonneg; lia). nia. }
    rewrite (binary_round_aux_exact' _ (dz - 53)) by lia.
    split; [done|]. split; [|split; [done|lia]].
    rewrite pos_iter_xO. f_equal. f_equal. lia.
Qed.

Lemma digits_mul_bounds (m1 m2 : positive) :
  Z.pos (digits2_pos m1) + Z.pos (digits2_pos m2) - 1 ≤ Z.pos (digits2_pos (m1 * m2))
  ≤ Z.pos (digits2_pos m1) + Z.pos (digits2_pos m2).
Proof.
  pose proof (digits2_pos_bounds m1) as [H1 H1'].
  pose proof (digits2_pos_bounds m2) as [H2 H2'].
  pose proof (digits2_pos_bounds (m1 * m2)) as [H3 H3'].
  set (d1 := Z.pos (digits2_pos m1)) in *. set (d2 := Z.pos (digits2_pos m2)) in *.
  set (d := Z.pos (digits2_pos (m1 * m2))) in *.
  assert (1 ≤ d1) by (unfold d1; lia). assert (1 ≤ d2) by (unfold d2; lia).
  assert (1 ≤ d) by (unfold d; lia).
  rewrite Pos2Z.inj_mul in H3, H3'.
  assert (Hlow : 2 ^ (d1 + d2 - 2) ≤ Z.pos m1 * Z.pos m2).
  { replace (d1 + d2 - 2) with ((d1 - 1) + (d2 - 1)) by lia.
    rewrite Z.pow_add_r by lia.
    assert (0 < 2 ^ (d1 - 1)) by (apply Z.pow_pos_nonneg; lia).
    assert (0 < 2 ^ (d2 - 1)) by (apply Z.pow_pos_nonneg; lia). nia. }
  assert (Hupp : Z.pos m1 * Z.pos m2 < 2 ^ (d1 + d2)).
  { rewrite Z.pow_add_r by lia. nia. }
  split.
  - destruct (Z.le_gt_cases (d1 + d2 - 1) d); [done|].
    assert (2 ^ d ≤ 2 ^ (d1 + d2 - 2)) by (apply Z.pow_le_mono_r; lia). lia.
  - destruct (Z.le_gt_cases d (d1 + d2)); [done|].
    assert (2 ^ (d1 + d2) ≤ 2 ^ (d - 1)) by (apply Z.pow_le_mono_r; lia). lia.
Qed.

(** The product of two positive normal numbers, away from the exponent
    bounds, is within one unit in the last place of the exact product. *)
Lemma F64_mul_bounds (m1 m2 : positive) (e1 e2 : Z) :
  Z.pos (digits2_pos m1) = 53 → Z.pos (digits2_pos m2) = 53 →
  -1100 ≤ e1 + e2 ≤ 900 →
  ∃ P d, F64.mul (S754_finite false m1 e1) (S754_finite false m2 e2)
         = S754_finite false P d ∧
    2 ^ 52 ≤ Z.pos P < 2 ^ 53 ∧
    52 ≤ d - (e1 + e2) ≤ 54 ∧
    Z.pos m1 * Z.pos m2 - 2 ^ (d - (e1 + e2)) < Z.pos P * 2 ^ (d - (e1 + e2))
    ≤ Z.pos m1 * Z.pos m2 + 2 ^ (d - (e1 + e2)).
Proof.
  intros H1 H2 He.
  pose proof (digits_mul_bounds m1 m2) as Hd. rewrite H1, H2 in Hd.
  unfold F64.mul, F64.prec, F64.emax, SFmul. cbn [xorb].
  destruct (binary_round_aux_bounds (m1 * m2) (e1 + e2) loc_Exact)
    as (P & d & Hr & HP & Hk & Hb); [lia..|].
  exists P, d. rewrite Pos2Z.inj_mul in Hb. split; [done|]. split; [done|].
  split; [lia|done].
Qed.

(** Multiplying a normal number by [1.] changes nothing. *)
Lemma F64_mul_one (M : positive) (e : Z) :
  Z.pos (digits2_pos M) = 53 → -1000 ≤ e ≤ 971 →
  F64.mul (S754_finite false M e) F64.one = S754_finite false M e.
Proof.
  intros HM He. unfold F64.mul, F64.one, F64.prec, F64.emax, SFmul. cbn [xorb].
  rewrite Pos2Z.inj_mul.
  change (Z.pos 4503599627370496) with (2 ^ 52).
  rewrite (binary_round_aux_exact M (e + -52) 52) by lia.
  f_equal. lia.
Qed.

(** [int(f)] of a positive number with a negative exponent. *)
Lemma py_int_finite (P : positive) (d : Z) :
  d < 0 → py_int (S754_finite false P d) = Ok (Z.pos P / 2 ^ (- d)).
Proof.
  intros Hd. unfold py_int. destruct d as [|p|p]; [lia|lia|].
  by rewrite Z.shiftr_div_pow2 by lia.
Qed.

Lemma py_int_finite_Ok (P : positive) (d : Z) :
  ∃ z, py_int (S754_finite false P d) = Ok z ∧ 0 ≤ z.
Proof.
  unfold py_int. destruct d as [|p|p]; eexists; (split; [done|]).
  - lia.
  - rewrite Z.shiftl_mul_pow2 by lia.
    assert (0 < 2 ^ Z.pos p) by (apply Z.pow_pos_nonneg; lia). nia.
  - rewrite Z.shiftr_div_pow2 by lia. apply Z.div_pos; [lia|].
    apply Z.pow_pos_nonneg; lia.
Qed.

(** The quotient of two positive numbers, away from the exponent bounds: the
    result is normal and within one unit in the last place of the integer
    quotient [q] that the division computes at exponent [e']. *)
Lemma F64_div_bounds (m1 m2 : positive) (e1 e2 : Z) :
  let d1 := Z.pos (digits2_pos m1) in
  let d2 := Z.pos (digits2_pos m2) in
  let e' := Z.min (d1 + e1 - d2 - e2 - 53) (e1 - e2) in
  let s := e1 - e2 - e' in
  let q := Z.pos m1 * 2 ^ s / Z.pos m2 in
  -1021 ≤ d1 + e1 - d2 - e2 ≤ 1021 →
  ∃ S c dq, F64.div (S754_finite false m1 e1) (S754_finite false m2 e2)
            = S754_finite false S c ∧
    2 ^ 52 ≤ Z.pos S < 2 ^ 53 ∧
    0 ≤ s ∧ 2 ^ (dq - 1) ≤ q < 2 ^ dq ∧
    d1 + s - d2 ≤ dq ≤ d1 + s - d2 + 1 ∧ 53 ≤ dq ∧
    dq - 53 ≤ c - e' ≤ dq - 52 ∧
    q - 2 ^ (c - e') < Z.pos S * 2 ^ (c - e') ≤ q + 2 ^ (c - e').
Proof.
  intros d1 d2 e' s q Hrange.
  pose proof (digits2_pos_bounds m1) as [H1 H1']. fold d1 in H1, H1'.
  pose proof (digits2_pos_bounds m2) as [H2 H2']. fold d2 in H2, H2'.
  assert (1 ≤ d1) by (unfold d1; lia). assert (1 ≤ d2) by (unfold d2; lia).
  assert (Hs : 0 ≤ s ∧ 53 - d1 + d2 ≤ s) by (unfold s, e'; lia).
  destruct Hs as [Hs0 Hs53].
  assert (Hps : 0 < 2 ^ s) by (apply Z.pow_pos_nonneg; lia).
  (* the integer quotient has between [d1 + s - d2] and [d1 + s - d2 + 1] digits *)
  assert (Hqlo : 2 ^ (d1 + s - d2 - 1) ≤ q).
  { unfold q. apply Z.div_le_lower_bound; [lia|].
    assert (Z.pos m2 * 2 ^ (d1 + s - d2 - 1) ≤ 2 ^ d2 * 2 ^ (d1 + s - d2 - 1)).
    { apply Z.mul_le_mono_nonneg_r; [apply Z.pow_nonneg; lia|lia]. }
    assert (2 ^ d2 * 2 ^ (d1 + s - d2 - 1) = 2 ^ (d1 - 1) * 2 ^ s).
    { rewrite <- !Z.pow_add_r by lia. f_equal. lia. }
    nia. }
  assert (Hqhi : q < 2 ^ (d1 + s - d2 + 1)).
  { unfold q. apply Z.div_lt_upper_bound; [lia|].
    assert (2 ^ (d2 - 1) * 2 ^ (d1 + s - d2 + 1) = 2 ^ d1 * 2 ^ s).
    { rewrite <- !Z.pow_add_r by lia. f_equal. lia. }
    assert (0 < 2 ^ (d1 + s - d2 + 1)) by (apply Z.pow_pos_nonneg; lia).
    nia. }
  assert (H52 : 2 ^ 52 ≤ q).
  { etrans; [|exact Hqlo]. apply Z.pow_le_mono_r; lia. }
  unfold F64.div, F64.prec, F64.emax, SFdiv, SFdiv_core_binary.
  cbn [Zdigits2 xorb]. fold d1 d2.
  replace (d1 + e1 - (d2 + e2)) with (d1 + e1 - d2 - e2) by lia.
  rewrite fexp_normal by lia. fold e'. fold s.
  replace (match s with | 0 => Z.pos m1 | Z.pos _ => Z.shiftl (Z.pos m1) s | Z.neg _ => 0 end)
    with (Z.pos m1 * 2 ^ s).
  2:{ destruct s as [|ps|ps] eqn:Hsv; [simpl; lia| |lia].
      by rewrite Z.shiftl_mul_pow2. }
  assert (Hq : (Z.div_eucl (Z.pos m1 * 2 ^ s) (Z.pos m2)).1 = q) by done.
  destruct (Z.div_eucl (Z.pos m1 * 2 ^ s) (Z.pos m2)) as [q0 r]. simpl in Hq. subst q0.
  change (2 ^ 52) with 4503599627370496 in H52.
  destruct q as [|pq|pq] eqn:Hpq; [lia| |lia].
  pose proof (digits2_pos_bounds pq) as [Hd Hd'].
  set (dq := Z.pos (digits2_pos pq)) in *.
  assert (Hdq : d1 + s - d2 ≤ dq ≤ d1 + s - d2 + 1).
  { split.
    - destruct (Z.le_gt_cases (d1 + s - d2) dq); [done|].
      assert (2 ^ dq ≤ 2 ^ (d1 + s - d2 - 1)) by (apply Z.pow_le_mono_r; unfold dq; lia).
      lia.
    - destruct (Z.le_gt_cases dq (d1 + s - d2 + 1)); [done|].
      assert (2 ^ (d1 + s - d2 + 1) ≤ 2 ^ (dq - 1)) by (apply Z.pow_le_mono_r; lia).
      lia. }
  destruct (binary_round_aux_bounds pq e' (new_location (Z.pos m2) r))
    as (S & c & Hr & HS & Hk & Hb); fold dq; [lia| |  |].
  { unfold s in Hdq. lia. }
  { unfold s in Hdq. lia. }
  exists S, c, dq. fold dq in Hk. split; [done|]. split; [done|]. split; [done|].
  split; [done|]. split; [done|]. split; [lia|]. split; [lia|done].
Qed.

(** *** Round to nearest: products and quotients *)

(** The product of two positive normal numbers, away from the exponent
    bounds, is within half a unit in the last place of the exact product. *)
Lemma F64_mul_nearest (m1 m2 : positive) (e1 e2 : Z) :
  Z.pos (digits2_pos m1) = 53 → Z.pos (digits2_pos m2) = 53 →
  -1100 ≤ e1 + e2 ≤ 900 →
  ∃ P d, F64.mul (S754_finite false m1 e1) (S754_finite false m2 e2)
         = S754_finite false P d ∧
    2 ^ 52 ≤ Z.pos P < 2 ^ 53 ∧
    52 ≤ d - (e1 + e2) ≤ 54 ∧
    (2 * Z.pos P - 1) * 2 ^ (d - (e1 + e2)) ≤ 2 * (Z.pos m1 * Z.pos m2) ∧
    2 * (Z.pos m1 * Z.pos m2) ≤ (2 * Z.pos P + 1) * 2 ^ (d - (e1 + e2)).
Proof.
  intros H1 H2 He.
  pose proof (digits_mul_bounds m1 m2) as Hd. rewrite H1, H2 in Hd.
  unfold F64.mul, F64.prec, F64.emax, SFmul. cbn [xorb].
  destruct (binary_round_aux_nearest (m1 * m2) (e1 + e2) loc_Exact
              (Z.pos m1 * Z.pos m2) 1)
    as (P & d & Hr & HP & Hk & Hb1 & Hb2); [lia..|cbn [located]; lia|].
  exists P, d. rewrite !Z.mul_1_l in Hb1, Hb2. split; [done|]. split; [done|].
  split; [lia|done].
Qed.

(** The location that the division records for its remainder. *)
Lemma new_location_located (m2 q r : Z) :
  0 < m2 → 0 ≤ r < m2 → located q (new_location m2 r) (q * m2 + r) m2.
Proof.
  intros Hm2 Hr. unfold new_location, new_location_even, new_location_odd.
  destruct (Z.even m2) eqn:Heven.
  - destruct (Z.eqb_spec r 0) as [->|Hr0]; cbn [located]; [lia|].
    destruct (Z.compare_spec (2 * r) m2); cbn [located]; nia.
  - destruct (Z.eqb_spec r 0) as [->|Hr0]; cbn [located]; [lia|].
    assert (Hodd : Z.odd m2 = true) by (rewrite <- Z.negb_even, Heven; done).
    apply Z.odd_spec in Hodd as [k Hk].
    destruct (Z.compare_spec (2 * r + 1) m2); cbn [located]; nia.
Qed.

(** The quotient of two positive numbers, away from the exponent bounds: the
    result is normal and within half a unit in its last place of the exact
    quotient [m1 * 2^s / m2] (in units of [2^e']). *)
Lemma F64_div_nearest (m1 m2 : positive) (e1 e2 : Z) :
  let d1 := Z.pos (digits2_pos m1) in
  let d2 := Z.pos (digits2_pos m2) in
  let e' := Z.min (d1 + e1 - d2 - e2 - 53) (e1 - e2) in
  let s := e1 - e2 - e' in
  -1021 ≤ d1 + e1 - d2 - e2 ≤ 1021 →
  ∃ S c, F64.div (S754_finite false m1 e1) (S754_finite false m2 e2)
         = S754_finite false S c ∧
    2 ^ 52 ≤ Z.pos S < 2 ^ 53 ∧
    0 ≤ s ∧
    d1 + s - d2 - 53 ≤ c - e' ≤ d1 + s - d2 - 51 ∧ 0 ≤ c - e' ∧
    (2 * Z.pos S - 1) * (Z.pos m2 * 2 ^ (c - e')) ≤ 2 * (Z.pos m1 * 2 ^ s) ∧
    2 * (Z.pos m1 * 2 ^ s) ≤ (2 * Z.pos S + 1) * (Z.pos m2 * 2 ^ (c - e')).
Proof.
  intros d1 d2 e' s Hrange.
  set (q := Z.pos m1 * 2 ^ s / Z.pos m2).
  pose proof (digits2_pos_bounds m1) as [H1 H1']. fold d1 in H1, H1'.
  pose proof (digits2_pos_bounds m2) as [H2 H2']. fold d2 in H2, H2'.
  assert (1 ≤ d1) by (unfold d1; lia). assert (1 ≤ d2) by (unfold d2; lia).
  assert (Hs : 0 ≤ s ∧ 53 - d1 + d2 ≤ s) by (unfold s, e'; lia).
  destruct Hs as [Hs0 Hs53].
  assert (Hps : 0 < 2 ^ s) by (apply Z.pow_pos_nonneg; lia).
  assert (Hqlo : 2 ^ (d1 + s - d2 - 1) ≤ q).
  { unfold q. apply Z.div_le_lower_bound; [lia|].
    assert (Z.pos m2 * 2 ^ (d1 + s - d2 - 1) ≤ 2 ^ d2 * 2 ^ (d1 + s - d2 - 1)).
    { apply Z.mul_le_mono_nonneg_r; [apply Z.pow_nonneg; lia|lia]. }
    assert (2 ^ d2 * 2 ^ (d1 + s - d2 - 1) = 2 ^ (d1 - 1) * 2 ^ s).
    { rewrite <- !Z.pow_add_r by lia. f_equal. lia. }
    nia. }
  assert (Hqhi : q < 2 ^ (d1 + s - d2 + 1)).
  { unfold q. apply Z.div_lt_upper_bound; [lia|].
    assert (2 ^ (d2 - 1) * 2 ^ (d1 + s - d2 + 1) = 2 ^ d1 * 2 ^ s).
    { rewrite <- !Z.pow_add_r by lia. f_equal. lia. }
    assert (0 < 2 ^ (d1 + s - d2 + 1)) by (apply Z.pow_pos_nonneg; lia).
    nia. }
  assert (H52 : 2 ^ 52 ≤ q).
  { etrans; [|exact Hqlo]. apply Z.pow_le_mono_r; lia. }
  unfold F64.div, F64.prec, F64.emax, SFdiv, SFdiv_core_binary.
  cbn [Zdigits2 xorb]. fold d1 d2.
  replace (d1 + e1 - (d2 + e2)) with (d1 + e1 - d2 - e2) by lia.
  rewrite fexp_normal by lia. fold e'. fold s.
  replace (match s with | 0 => Z.pos m1 | Z.pos _ => Z.shiftl (Z.pos m1) s | Z.neg _ => 0 end)
    with (Z.pos m1 * 2 ^ s).
  2:{ destruct s as [|ps|ps] eqn:Hsv; [simpl; lia| |lia].
      by rewrite Z.shiftl_mul_pow2. }
  assert (Hq : (Z.div_eucl (Z.pos m1 * 2 ^ s) (Z.pos m2)).1 = q) by done.
  pose proof (Z_div_mod (Z.pos m1 * 2 ^ s) (Z.pos m2) ltac:(lia)) as Hqr.
  destruct (Z.div_eucl (Z.pos m1 * 2 ^ s) (Z.pos m2)) as [q0 r]. simpl in Hq. subst q0.
  destruct Hqr as [Hqr Hr].
  change (2 ^ 52) with 4503599627370496 in H52.
  destruct q as [|pq|pq] eqn:Hpq; [lia| |lia].
  pose proof (digits2_pos_bounds pq) as [Hd Hd'].
  set (dq := Z.pos (digits2_pos pq)) in *.
  assert (Hdq : d1 + s - d2 ≤ dq ≤ d1 + s - d2 + 1).
  { split.
    - destruct (Z.le_gt_cases (d1 + s - d2) dq); [done|].
      assert (2 ^ dq ≤ 2 ^ (d1 + s - d2 - 1)) by (apply Z.pow_le_mono_r; unfold dq; lia).
      lia.
    - destruct (Z.le_gt_cases dq (d1 + s - d2 + 1)); [done|].
      assert (2 ^ (d1 + s - d2 + 1) ≤ 2 ^ (dq - 1)) by (apply Z.pow_le_mono_r; lia).
      lia. }
  pose proof (new_location_located (Z.pos m2) (Z.pos pq) r ltac:(lia) Hr) as Hloc.
  replace (Z.pos pq * Z.pos m2 + r) with (Z.pos m1 * 2 ^ s) in Hloc by lia.
  destruct (binary_round_aux_nearest pq e' (new_location (Z.pos m2) r)
              (Z.pos m1 * 2 ^ s) (Z.pos m2))
    as (S & c & Hres & HS & Hk & Hb1 & Hb2); fold dq; [lia| | |lia|done|].
  { unfold s in Hdq. lia. }
  { unfold s in Hdq. lia. }
  exists S, c. fold dq in Hk. split; [done|]. split; [done|]. split; [done|].
  split; [lia|]. split; [lia|]. done.
Qed.

End binary64.

(** ** The scale factor and the scaled sides *)

Section resize.
Local Open Scope Z_scope.

Lemma digits_53_of_bounds (P : positive) :
  2 ^ 52 ≤ Z.pos P < 2 ^ 53 → Z.pos (digits2_pos P) = 53.
Proof. intros HP. by apply digits2_pos_unique. Qed.

(** [int(n * s)] for an integer below [2^53] and a normal [s] returns. *)
Lemma scaled_side_Ok (n : Z) (S : positive) (c : Z) :
  1 ≤ n < 2 ^ 53 → Z.pos (digits2_pos S) = 53 → -200 ≤ c ≤ 10 →
  ∃ z, scaled_side n (S754_finite false S c) = Ok z ∧ 0 ≤ z < 2 ^ 120.
Proof.
  intros Hn HS Hc.
  destruct (py_float_exact n) as (M & HM & HMv & HMd & Hdn); [lia|].
  unfold scaled_side. rewrite HM. cbn [rbind].
  destruct (F64_mul_bounds M S (Zdigits2 n - 53) c HMd HS) as (P & d & -> & HP & Hk & _);
    [lia|].
  unfold py_int. destruct d as [|p|p].
  - eexists. split; [done|].
    assert (2 ^ 53 ≤ 2 ^ 120) by (apply Z.pow_le_mono_r; lia). lia.
  - eexists. split; [done|]. rewrite Z.shiftl_mul_pow2 by lia.
    assert (0 < 2 ^ Z.pos p) by (apply Z.pow_pos_nonneg; lia).
    assert (2 ^ Z.pos p ≤ 2 ^ 64) by (apply Z.pow_le_mono_r; lia).
    replace (2 ^ 120) with (2 ^ 53 * 2 ^ 67) by (rewrite <- Z.pow_add_r by lia; done).
    assert (2 ^ 64 < 2 ^ 67) by (apply Z.pow_lt_mono_r; lia).
    nia.
  - eexists. split; [done|]. rewrite Z.shiftr_div_pow2 by lia.
    assert (0 < 2 ^ Z.pos p) by (apply Z.pow_pos_nonneg; lia).
    split; [apply Z.div_pos; lia|].
    apply Z.div_lt_upper_bound; [lia|].
    assert (2 ^ 53 ≤ 2 ^ 120) by (apply Z.pow_le_mono_r; lia). nia.
Qed.

(** [int(n * 1.)] is [n]. *)
Lemma scaled_side_one (n : Z) : 1 ≤ n < 2 ^ 53 → scaled_side n F64.one = Ok n.
Proof.
  intros Hn.
  destruct (py_float_exact n) as (M & HM & HMv & HMd & Hdn); [lia|].
  unfold scaled_side. rewrite HM. cbn [rbind].
  rewrite F64_mul_one by (done || lia).
  destruct (Z.eq_dec (Zdigits2 n) 53) as [Heq|Hne].
  - rewrite Heq in *. change (53 - 53) with 0 in *. simpl. f_equal.
    change (2 ^ 0) with 1 in HMv. lia.
  - rewrite py_int_finite by lia. f_equal.
    replace (- (Zdigits2 n - 53)) with (53 - Zdigits2 n) by lia.
    rewrite HMv. apply Z.div_mul.
    assert (0 < 2 ^ (53 - Zdigits2 n)) by (apply Z.pow_pos_nonneg; lia). lia.
Qed.

(** [a / b] on integers returns for operands of moderate size. *)
Lemma py_int_truediv_Ok (a b : Z) :
  0 ≤ a < 2 ^ 120 → 1 ≤ b < 2 ^ 53 → ∃ f, py_int_truediv a b = Ok f.
Proof.
  intros Ha Hb. unfold py_int_truediv.
  destruct (Z.eqb_spec b 0); [lia|].
  destruct b as [|pb|pb]; [lia| |lia].
  destruct a as [|pa|pa]; [by eexists| |lia].
  cbn [int_as_float].
  pose proof (digits2_pos_bounds pa) as [Ha1 Ha2].
  pose proof (digits2_pos_bounds pb) as [Hb1 Hb2].
  assert (Z.pos (digits2_pos pa) ≤ 120).
  { destruct (Z.le_gt_cases (Z.pos (digits2_pos pa)) 120); [done|].
    assert (2 ^ 120 ≤ 2 ^ (Z.pos (digits2_pos pa) - 1)) by (apply Z.pow_le_mono_r; lia).
    lia. }
  assert (Z.pos (digits2_pos pb) ≤ 53).
  { destruct (Z.le_gt_cases (Z.pos (digits2_pos pb)) 53); [done|].
    assert (2 ^ 53 ≤ 2 ^ (Z.pos (digits2_pos pb) - 1)) by (apply Z.pow_le_mono_r; lia).
    lia. }
  destruct (F64_div_bounds pa pb 0 0) as (S & c & dq & -> & _); [lia|].
  by eexists.
Qed.

Lemma Zdigits2_bounds (z : Z) : 0 < z → 2 ^ (Zdigits2 z - 1) ≤ z < 2 ^ Zdigits2 z.
Proof. intros Hz. destruct z; [lia| |lia]. apply digits2_pos_bounds. Qed.

(** The arithmetic behind the short side: [A = ms * E] is the mantissa of
    [float(ms)], [q] the integer quotient, [S] and [P] the two rounded
    mantissas, [K1] and [K2] the units of the two roundings. *)
Lemma short_side_arith (ms A Bt q Sz Pz K1 K2 X E : Z) :
  0 < Bt < 2 ^ 53 → 1 ≤ K1 ≤ 4 → 0 < K2 ≤ 2 ^ 54 → 0 < X → 16 ≤ E →
  X * (K1 * K2) = 2 ^ 53 * E → A = ms * E →
  Bt * q ≤ A * 2 ^ 53 < Bt * q + Bt →
  q - K1 < Sz * K1 ≤ q + K1 →
  Bt * Sz - K2 < Pz * K2 ≤ Bt * Sz + K2 →
  ms - 1 ≤ Pz / X ≤ ms.
Proof.
  change (2 ^ 53) with 9007199254740992. change (2 ^ 54) with 18014398509481984.
  intros HBt HK1 HK2 HX HE HXK HA Hq HS HP.
  assert (HK : 0 < K1 * K2) by nia.
  assert (Hup : Pz * (K1 * K2) < (ms + 1) * X * (K1 * K2)).
  { assert (Pz * (K1 * K2) ≤ Bt * Sz * K1 + K1 * K2) by nia.
    assert (Bt * Sz * K1 ≤ Bt * q + Bt * K1) by nia.
    assert (Bt * K1 + K1 * K2 < 9007199254740992 * E) by nia.
    assert (ms * X * (K1 * K2) = A * 9007199254740992) by nia.
    nia. }
  assert (Hdn : (ms - 1) * X * (K1 * K2) < Pz * (K1 * K2)).
  { assert (Bt * Sz * K1 - K1 * K2 < Pz * (K1 * K2)) by nia.
    assert (Bt * q - Bt * K1 < Bt * Sz * K1) by nia.
    assert (Bt + Bt * K1 + K1 * K2 < 9007199254740992 * E) by nia.
    assert (ms * X * (K1 * K2) = A * 9007199254740992) by nia.
    nia. }
  split.
  - apply Z.div_le_lower_bound; [done|]. nia.
  - assert (Pz / X < ms + 1); [|lia].
    apply Z.div_lt_upper_bound; [done|]. nia.
Qed.

(** The short side: [int(t * (float(ms) / t))] is [ms] or [ms - 1]. *)
Lemma short_side_within_one (t ms : Z) :
  1 ≤ t → t < ms → ms < 2 ^ 49 →
  ∃ F G S c z,
    py_float ms = Ok F ∧ py_float t = Ok G ∧
    py_truediv F G = Ok (S754_finite false S c) ∧
    F64.div F G = S754_finite false S c ∧
    Z.pos (digits2_pos S) = 53 ∧ -200 ≤ c ≤ 10 ∧
    scaled_side t (S754_finite false S c) = Ok z ∧
    ms - 1 ≤ z ≤ ms.
Proof.
  intros Ht Hlt Hms.
  assert (H4953 : 2 ^ 49 < 2 ^ 53) by (apply Z.pow_lt_mono_r; lia).
  destruct (py_float_exact ms) as (Mm & HFm & HMm & HMmd & Hdm); [lia|].
  destruct (py_float_exact t) as (Mt & HFt & HMt & HMtd & Hdt); [lia|].
  pose proof (Zdigits2_bounds ms ltac:(lia)) as Hmsb.
  set (dm := Zdigits2 ms) in *. set (dt := Zdigits2 t) in *.
  assert (Hdm49 : dm ≤ 49).
  { destruct (Z.le_gt_cases dm 49); [done|].
    assert (2 ^ 49 ≤ 2 ^ (dm - 1)) by (apply Z.pow_le_mono_r; lia). lia. }
  pose proof (F64_div_bounds Mm Mt (dm - 53) (dt - 53)) as Hdiv.
  cbv zeta in Hdiv. rewrite HMmd, HMtd in Hdiv.
  replace (Z.min (53 + (dm - 53) - 53 - (dt - 53) - 53) (dm - 53 - (dt - 53)))
    with (dm - dt - 53) in Hdiv by lia.
  replace (dm - 53 - (dt - 53) - (dm - dt - 53)) with 53 in Hdiv by lia.
  destruct Hdiv as (S & c & dq & Hdivr & HS & _ & Hqd & Hdq & _ & Hk1 & HSb); [lia|].
  set (q := Z.pos Mm * 2 ^ 53 / Z.pos Mt) in *.
  set (k1 := c - (dm - dt - 53)) in *.
  pose proof (digits_53_of_bounds S HS) as HSd.
  destruct (F64_mul_bounds Mt S (dt - 53) c HMtd HSd) as (P & d & Hmul & HP & Hk2 & HPb);
    [unfold k1 in *; lia|].
  set (k2 := d - (dt - 53 + c)) in *.
  assert (Hd : d < 0) by (unfold k1, k2 in *; lia).
  exists (S754_finite false Mm (dm - 53)), (S754_finite false Mt (dt - 53)), S, c,
         (Z.pos P / 2 ^ (- d)).
  split; [done|]. split; [done|]. split; [by rewrite <- Hdivr|]. split; [done|].
  split; [done|]. split; [unfold k1 in *; lia|]. split.
  { unfold scaled_side. rewrite HFt. cbn [rbind]. rewrite Hmul. by apply py_int_finite. }
  pose proof (digits2_pos_bounds Mt) as HMtb. rewrite HMtd in HMtb.
  pose proof (Z.div_mod (Z.pos Mm * 2 ^ 53) (Z.pos Mt) ltac:(lia)) as Hdm'.
  pose proof (Z.mod_pos_bound (Z.pos Mm * 2 ^ 53) (Z.pos Mt) ltac:(lia)) as Hmod.
  fold q in Hdm'.
  apply (short_side_arith ms (Z.pos Mm) (Z.pos Mt) q (Z.pos S) (Z.pos P)
           (2 ^ k1) (2 ^ k2) (2 ^ (- d)) (2 ^ (53 - dm))).
  - lia.
  - assert (2 ^ 0 ≤ 2 ^ k1) by (apply Z.pow_le_mono_r; lia).
    assert (2 ^ k1 ≤ 2 ^ 2) by (apply Z.pow_le_mono_r; lia).
    change (2 ^ 0) with 1 in *. change (2 ^ 2) with 4 in *. lia.
  - split; [apply Z.pow_pos_nonneg; lia|apply Z.pow_le_mono_r; lia].
  - apply Z.pow_pos_nonneg; lia.
  - change 16 with (2 ^ 4). apply Z.pow_le_mono_r; lia.
  - rewrite <- !Z.pow_add_r by lia. f_equal. unfold k1, k2. lia.
  - done.
  - lia.
  - done.
  - done.
Qed.

End resize.

(** ** The scale factor, the scaled sides and the ratios, to the last bit *)

Section resize_more.
Local Open Scope Z_scope.

(** [n / n] is [1.] *)
Lemma py_int_truediv_self (n : Z) : 1 ≤ n → py_int_truediv n n = Ok F64.one.
Proof.
  intros Hn. unfold py_int_truediv.
  destruct (Z.eqb_spec n 0); [lia|].
  destruct n as [|p|p]; [lia| |lia]. cbn [int_as_float].
  unfold F64.div, F64.prec, F64.emax, SFdiv, SFdiv_core_binary.
  cbn [Zdigits2 xorb].
  replace (Z.pos (digits2_pos p) + 0 - (Z.pos (digits2_pos p) + 0)) with 0 by lia.
  change (fexp 53 1024 0) with (-53).
  change (Z.min (-53) (0 - 0)) with (-53).
  change (0 - 0 - -53) with 53.
  cbv iota beta.
  rewrite Z.shiftl_mul_pow2 by lia.
  assert (Hq : Z.div_eucl (Z.pos p * 2 ^ 53) (Z.pos p) = (2 ^ 53, 0)).
  { assert (Hd : (Z.pos p * 2 ^ 53) / Z.pos p = 2 ^ 53)
      by (rewrite Z.mul_comm; apply Z.div_mul; lia).
    assert (Hm : (Z.pos p * 2 ^ 53) mod Z.pos p = 0)
      by (rewrite Z.mul_comm; apply Z.mod_mul; lia).
    unfold Z.div, Z.modulo in Hd, Hm.
    destruct (Z.div_eucl (Z.pos p * 2 ^ 53) (Z.pos p)) as [q r]. congruence. }
  rewrite Hq.
  assert (Hloc : new_location (Z.pos p) 0 = loc_Exact).
  { unfold new_location, new_location_even, new_location_odd.
    by destruct (Z.even (Z.pos p)). }
  rewrite Hloc. vm_compute. reflexivity.
Qed.

(** With an empty side the scale is a division by zero. *)
Lemma im_scale_of_empty_side (h w ms : Z) :
  0 ≤ h → 0 ≤ w → h = 0 ∨ w = 0 → 0 < ms →
  im_scale_of h w ms
  = match py_float ms with
    | Ok _ => Raise ZeroDivisionError
    | Raise e => Raise e
    end.
Proof.
  intros Hh Hw Hempty Hms. unfold im_scale_of.
  destruct (Z.ltb_spec (Z.min h w) ms); [|lia].
  destruct (py_float ms); [|done]. cbn [rbind].
  assert ((if h <? w then h else w) = 0) as -> by (destruct (Z.ltb_spec h w); lia).
  done.
Qed.

(** The scale factor for a short side [t] below the target [ms] is at least
    one plus eight units in the last place. *)
Lemma scale_above_one (t ms : Z) :
  1 ≤ t → t < ms → ms < 2 ^ 49 →
  ∃ F G S c,
    py_float ms = Ok F ∧ py_float t = Ok G ∧
    py_truediv F G = Ok (S754_finite false S c) ∧
    Z.pos (digits2_pos S) = 53 ∧ -52 ≤ c ≤ 10 ∧
    (c = -52 → 2 ^ 52 + 8 ≤ Z.pos S).
Proof.
  intros Ht Hlt Hms.
  assert (H4953 : 2 ^ 49 < 2 ^ 53) by (apply Z.pow_lt_mono_r; lia).
  destruct (py_float_exact ms) as (Mm & HFm & HMm & HMmd & Hdm); [lia|].
  destruct (py_float_exact t) as (Mt & HFt & HMt & HMtd & Hdt); [lia|].
  pose proof (Zdigits2_bounds ms ltac:(lia)) as Hmsb.
  pose proof (Zdigits2_bounds t ltac:(lia)) as Htb.
  set (dm := Zdigits2 ms) in *. set (dt := Zdigits2 t) in *.
  assert (Hdm49 : dm ≤ 49).
  { destruct (Z.le_gt_cases dm 49); [done|].
    assert (2 ^ 49 ≤ 2 ^ (dm - 1)) by (apply Z.pow_le_mono_r; lia). lia. }
  assert (Hdtm : dt ≤ dm).
  { destruct (Z.le_gt_cases dt dm); [done|].
    assert (2 ^ dm ≤ 2 ^ (dt - 1)) by (apply Z.pow_le_mono_r; lia). lia. }
  pose proof (F64_div_bounds Mm Mt (dm - 53) (dt - 53)) as Hdiv.
  cbv zeta in Hdiv. rewrite HMmd, HMtd in Hdiv.
  replace (Z.min (53 + (dm - 53) - 53 - (dt - 53) - 53) (dm - 53 - (dt - 53)))
    with (dm - dt - 53) in Hdiv by lia.
  replace (dm - 53 - (dt - 53) - (dm - dt - 53)) with 53 in Hdiv by lia.
  destruct Hdiv as (S & c & dq & Hdivr & HS & _ & Hqd & Hdq & _ & Hk1 & HSb); [lia|].
  set (q := Z.pos Mm * 2 ^ 53 / Z.pos Mt) in *.
  set (k1 := c - (dm - dt - 53)) in *.
  pose proof (digits_53_of_bounds S HS) as HSd.
  pose proof (Z.div_mod (Z.pos Mm * 2 ^ 53) (Z.pos Mt) ltac:(lia)) as Hdm'.
  pose proof (Z.mod_pos_bound (Z.pos Mm * 2 ^ 53) (Z.pos Mt) ltac:(lia)) as Hmod.
  fold q in Hdm'.
  assert (Hquot : Z.pos Mt * q ≤ Z.pos Mm * 2 ^ 53 < Z.pos Mt * q + Z.pos Mt) by lia.
  clear Hdm' Hmod.
  assert (HK1 : 0 < 2 ^ k1) by (apply Z.pow_pos_nonneg; lia).
  assert (Hclo : -52 ≤ c).
  { destruct (Z.le_gt_cases (-52) c) as [|Hc53]; [done|]. exfalso.
    assert (k1 = 0 ∧ dm = dt ∧ dq = 53) as (Hk0 & Hdd & Hdq53) by (unfold k1 in *; lia).
    rewrite Hdq53 in Hqd. rewrite Hdd in HMm.
    assert (0 < 2 ^ (53 - dt)) by (apply Z.pow_pos_nonneg; lia).
    assert (Z.pos Mm < Z.pos Mt); [|nia].
    change (2 ^ 53) with 9007199254740992 in *. nia. }
  exists (S754_finite false Mm (dm - 53)), (S754_finite false Mt (dt - 53)), S, c.
  split; [done|]. split; [done|]. split; [by rewrite <- Hdivr|]. split; [done|].
  split; [unfold k1 in *; lia|].
  intros Hc52.
  assert (Hkd : k1 + dm - dt = 1) by (unfold k1; lia).
  set (E := 2 ^ (54 - dm)).
  assert (HE : 0 < E) by (apply Z.pow_pos_nonneg; lia).
  assert (HMmE : Z.pos Mm * 2 ^ 53 = ms * E * 2 ^ 52).
  { rewrite HMm. unfold E. rewrite <- !Z.mul_assoc, <- !Z.pow_add_r by lia.
    f_equal. f_equal. lia. }
  assert (HMtE : Z.pos Mt * 2 ^ k1 = t * E).
  { rewrite HMt. unfold E. rewrite <- !Z.mul_assoc, <- !Z.pow_add_r by lia.
    f_equal. f_equal. lia. }
  change (2 ^ 53) with 9007199254740992 in *.
  change (2 ^ 52) with 4503599627370496 in *.
  change (2 ^ 49) with 562949953421312 in *.
  assert (H1 : Z.pos Mm * 9007199254740992 < Z.pos Mt * 2 ^ k1 * Z.pos S + Z.pos Mt * 2 ^ k1)
    by nia.
  rewrite HMmE, HMtE in H1.
  assert (H2 : ms * 4503599627370496 < t * Z.pos S + t) by nia.
  nia.
Qed.

(** A side scaled by a factor of at least one plus four units in the last
    place does not come out shorter, in spite of the two roundings. *)
Lemma scaled_side_grows (L : Z) (S : positive) (c : Z) :
  1 ≤ L < 2 ^ 53 → Z.pos (digits2_pos S) = 53 → -52 ≤ c ≤ 10 →
  (c = -52 → 2 ^ 52 + 4 ≤ Z.pos S) →
  ∃ z, scaled_side L (S754_finite false S c) = Ok z ∧ L ≤ z.
Proof.
  intros HL HS Hc Hmargin.
  destruct (py_float_exact L) as (M & HM & HMv & HMd & HdL); [lia|].
  pose proof (Zdigits2_bounds L ltac:(lia)) as HLb.
  set (dL := Zdigits2 L) in *.
  destruct (F64_mul_bounds M S (dL - 53) c HMd HS) as (P & d & Hmul & HP & Hk & HPb);
    [lia|].
  set (k2 := d - (dL - 53 + c)) in *.
  assert (HK2 : 0 < 2 ^ k2) by (apply Z.pow_pos_nonneg; lia).
  assert (Hkey : (d < 0 → L * 2 ^ (- d) ≤ Z.pos P) ∧ (0 ≤ d → L ≤ Z.pos P * 2 ^ d)).
  { destruct (Z.eq_dec c (-52)) as [Hc52|Hc51].
    - specialize (Hmargin Hc52).
      set (X := 2 ^ (105 - dL)).
      assert (HX : 0 < X) by (apply Z.pow_pos_nonneg; lia).
      assert (HMX : Z.pos M * 2 ^ 52 = L * X).
      { rewrite HMv. unfold X. rewrite <- !Z.mul_assoc, <- !Z.pow_add_r by lia.
        f_equal. f_equal. lia. }
      pose proof (digits2_pos_bounds M) as HMb. rewrite HMd in HMb.
      assert (H254 : 2 ^ k2 ≤ 2 ^ 54) by (apply Z.pow_le_mono_r; lia).
      change (2 ^ (53 - 1)) with 4503599627370496 in *.
      change (2 ^ 52) with 4503599627370496 in *.
      change (2 ^ 54) with 18014398509481984 in *.
      assert (Hmain : L * X < Z.pos P * 2 ^ k2) by nia.
      split; intros Hd.
      + assert (2 ^ (- d) * 2 ^ k2 = X).
        { unfold X. rewrite <- Z.pow_add_r by lia. f_equal. unfold k2. lia. }
        assert (0 < 2 ^ (- d)) by (apply Z.pow_pos_nonneg; lia).
        assert (L * 2 ^ (- d) * 2 ^ k2 < Z.pos P * 2 ^ k2) by nia.
        nia.
      + assert (2 ^ d * X = 2 ^ k2).
        { unfold X. rewrite <- Z.pow_add_r by lia. f_equal. unfold k2. lia. }
        assert (0 < 2 ^ d) by (apply Z.pow_pos_nonneg; lia).
        assert (L * X < Z.pos P * 2 ^ d * X) by nia.
        nia.
    - assert (Hd : dL - 52 ≤ d) by (unfold k2 in *; lia).
      split; intros Hd0.
      + assert (2 ^ dL * 2 ^ (- d) = 2 ^ (dL - d))
          by (rewrite <- Z.pow_add_r by lia; f_equal; lia).
        assert (2 ^ (dL - d) ≤ 2 ^ 52) by (apply Z.pow_le_mono_r; lia).
        assert (0 < 2 ^ (- d)) by (apply Z.pow_pos_nonneg; lia).
        nia.
      + assert (2 ^ 52 * 2 ^ d = 2 ^ (52 + d))
          by (rewrite <- Z.pow_add_r by lia; done).
        assert (2 ^ dL ≤ 2 ^ (52 + d)) by (apply Z.pow_le_mono_r; lia).
        assert (0 < 2 ^ d) by (apply Z.pow_pos_nonneg; lia).
        nia. }
  destruct Hkey as [Hneg Hpos].
  unfold scaled_side. rewrite HM. cbn [rbind]. rewrite Hmul.
  unfold py_int. destruct d as [|p|p].
  - eexists. split; [done|]. specialize (Hpos ltac:(lia)). simpl in Hpos. lia.
  - eexists. split; [done|]. rewrite Z.shiftl_mul_pow2 by lia. apply Hpos. lia.
  - eexists. split; [done|]. rewrite Z.shiftr_div_pow2 by lia.
    apply Z.div_le_lower_bound; [apply Z.pow_pos_nonneg; lia|].
    specialize (Hneg ltac:(lia)). change (- Z.neg p) with (Z.pos p) in Hneg. lia.
Qed.


(** *** Correctly rounded quotients *)

(** From the quotient in the units of the division to the quotient itself. *)
Lemma rounds_quotient_intro (S : positive) (c num den u v : Z) :
  0 ≤ u → 0 ≤ v → c = u - v → 2 ^ 52 ≤ Z.pos S < 2 ^ 53 →
  (2 * Z.pos S - 1) * (den * 2 ^ u) ≤ 2 * (num * 2 ^ v) →
  2 * (num * 2 ^ v) ≤ (2 * Z.pos S + 1) * (den * 2 ^ u) →
  rounds_quotient (S754_finite false S c) num den.
Proof.
  intros Hu Hv Hc HS H1 H2. cbn [rounds_quotient]. split; [done|].
  set (w := Z.min u v).
  assert (Hw : 0 ≤ w) by (unfold w; lia).
  assert (Eu : 2 ^ u = 2 ^ Z.max 0 c * 2 ^ w)
    by (rewrite <- Z.pow_add_r by lia; f_equal; unfold w; lia).
  assert (Ev : 2 ^ v = 2 ^ Z.max 0 (- c) * 2 ^ w)
    by (rewrite <- Z.pow_add_r by lia; f_equal; unfold w; lia).
  rewrite Eu, Ev in H1, H2.
  assert (Hpw : 0 < 2 ^ w) by (apply Z.pow_pos_nonneg; lia).
  split.
  - apply (Z.mul_le_mono_pos_r _ _ (2 ^ w)); [done|]. lia.
  - apply (Z.mul_le_mono_pos_r _ _ (2 ^ w)); [done|]. lia.
Qed.

(** [a / b] on two integers is the correctly rounded quotient. *)
Lemma py_int_truediv_nearest (a b : Z) :
  1 ≤ a < 2 ^ 120 → 1 ≤ b < 2 ^ 53 →
  ∃ f, py_int_truediv a b = Ok f ∧ rounds_quotient f a b.
Proof.
  intros Ha Hb. unfold py_int_truediv.
  destruct (Z.eqb_spec b 0); [lia|].
  destruct b as [|pb|pb]; [lia| |lia].
  destruct a as [|pa|pa]; [lia| |lia].
  cbn [int_as_float].
  pose proof (digits2_pos_bounds pa) as [Ha1 Ha2].
  pose proof (digits2_pos_bounds pb) as [Hb1 Hb2].
  assert (Z.pos (digits2_pos pa) ≤ 120).
  { destruct (Z.le_gt_cases (Z.pos (digits2_pos pa)) 120); [done|].
    assert (2 ^ 120 ≤ 2 ^ (Z.pos (digits2_pos pa) - 1)) by (apply Z.pow_le_mono_r; lia).
    lia. }
  assert (Z.pos (digits2_pos pb) ≤ 53).
  { destruct (Z.le_gt_cases (Z.pos (digits2_pos pb)) 53); [done|].
    assert (2 ^ 53 ≤ 2 ^ (Z.pos (digits2_pos pb) - 1)) by (apply Z.pow_le_mono_r; lia).
    lia. }
  pose proof (F64_div_nearest pa pb 0 0) as Hdiv. cbv zeta in Hdiv.
  destruct Hdiv as (S & c & -> & HS & Hs & _ & Hk & H1 & H2); [lia|].
  eexists. split; [done|].
  set (e' := Z.min (Z.pos (digits2_pos pa) + 0 - Z.pos (digits2_pos pb) - 0 - 53) (0 - 0))
    in *.
  apply (rounds_quotient_intro S c (Z.pos pa) (Z.pos pb) (c - e') (0 - 0 - e'));
    [lia|lia|lia|done|done|done].
Qed.

(** The scale factor [float(ms) / t] is the correctly rounded quotient. *)
Lemma scale_nearest (t ms : Z) :
  1 ≤ t → t < ms → ms < 2 ^ 49 →
  ∃ F G S c,
    py_float ms = Ok F ∧ py_float t = Ok G ∧
    F64.div F G = S754_finite false S c ∧
    -53 ≤ c ≤ 10 ∧
    rounds_quotient (S754_finite false S c) ms t.
Proof.
  intros Ht Hlt Hms.
  assert (H4953 : 2 ^ 49 < 2 ^ 53) by (apply Z.pow_lt_mono_r; lia).
  destruct (py_float_exact ms) as (Mm & HFm & HMm & HMmd & Hdm); [lia|].
  destruct (py_float_exact t) as (Mt & HFt & HMt & HMtd & Hdt); [lia|].
  pose proof (Zdigits2_bounds ms ltac:(lia)) as Hmsb.
  pose proof (Zdigits2_bounds t ltac:(lia)) as Htb.
  set (dm := Zdigits2 ms) in *. set (dt := Zdigits2 t) in *.
  assert (Hdm49 : dm ≤ 49).
  { destruct (Z.le_gt_cases dm 49); [done|].
    assert (2 ^ 49 ≤ 2 ^ (dm - 1)) by (apply Z.pow_le_mono_r; lia). lia. }
  assert (Hdtm : dt ≤ dm).
  { destruct (Z.le_gt_cases dt dm); [done|].
    assert (2 ^ dm ≤ 2 ^ (dt - 1)) by (apply Z.pow_le_mono_r; lia). lia. }
  pose proof (F64_div_nearest Mm Mt (dm - 53) (dt - 53)) as Hdiv.
  cbv zeta in Hdiv. rewrite HMmd, HMtd in Hdiv.
  replace (Z.min (53 + (dm - 53) - 53 - (dt - 53) - 53) (dm - 53 - (dt - 53)))
    with (dm - dt - 53) in Hdiv by lia.
  replace (dm - 53 - (dt - 53) - (dm - dt - 53)) with 53 in Hdiv by lia.
  destruct Hdiv as (S & c & Hdivr & HS & _ & Hk & Hk0 & H1 & H2); [lia|].
  exists (S754_finite false Mm (dm - 53)), (S754_finite false Mt (dt - 53)), S, c.
  split; [done|]. split; [done|]. split; [done|]. split; [lia|].
  apply (rounds_quotient_intro S c ms t (53 - dt + (c - (dm - dt - 53))) (106 - dm));
    [lia|lia|lia|done| |].
  - rewrite HMm, HMt in H1.
    replace (t * 2 ^ (53 - dt + (c - (dm - dt - 53))))
      with (t * 2 ^ (53 - dt) * 2 ^ (c - (dm - dt - 53)))
      by (rewrite <- Z.mul_assoc, <- Z.pow_add_r by lia; done).
    replace (ms * 2 ^ (106 - dm)) with (ms * 2 ^ (53 - dm) * 2 ^ 53)
      by (rewrite <- Z.mul_assoc, <- Z.pow_add_r by lia; f_equal; f_equal; lia).
    done.
  - rewrite HMm, HMt in H2.
    replace (t * 2 ^ (53 - dt + (c - (dm - dt - 53))))
      with (t * 2 ^ (53 - dt) * 2 ^ (c - (dm - dt - 53)))
      by (rewrite <- Z.mul_assoc, <- Z.pow_add_r by lia; done).
    replace (ms * 2 ^ (106 - dm)) with (ms * 2 ^ (53 - dm) * 2 ^ 53)
      by (rewrite <- Z.mul_assoc, <- Z.pow_add_r by lia; f_equal; f_equal; lia).
    done.
Qed.

(** *** Two roundings in a row *)

Lemma two_roundings_poly (S P : Z) :
  2 ^ 52 ≤ S → 2 ^ 52 ≤ P →
  4 * 2 ^ 51 * (S * P) ≤ (2 ^ 51 + 1) * ((2 * S - 1) * (2 * P - 1)) ∧
  (2 ^ 51 - 1) * ((2 * S + 1) * (2 * P + 1)) ≤ 4 * 2 ^ 51 * (S * P).
Proof.
  change (2 ^ 52) with 4503599627370496. change (2 ^ 51) with 2251799813685248.
  intros HS HP.
  set (a := S - 4503599627370496). set (b := P - 4503599627370496).
  assert (Ha : 0 ≤ a) by (unfold a; lia). assert (Hb : 0 ≤ b) by (unfold b; lia).
  replace S with (4503599627370496 + a) by (unfold a; lia).
  replace P with (4503599627370496 + b) by (unfold b; lia).
  assert (Hab : 0 ≤ a * b) by nia.
  split; lia.
Qed.

(** The quotient is rounded, the product with it is rounded again: together
    they move the product by less than one part in [2^51]. *)
Lemma two_roundings (S P U K2 V ML : Z) :
  2 ^ 52 ≤ S → 2 ^ 52 ≤ P → 0 < U → 0 < K2 → 0 ≤ V → 0 ≤ ML →
  (2 * S - 1) * U ≤ 2 * V → 2 * V ≤ (2 * S + 1) * U →
  (2 * P - 1) * K2 ≤ 2 * (ML * S) → 2 * (ML * S) ≤ (2 * P + 1) * K2 →
  2 ^ 51 * (P * (U * K2)) ≤ (2 ^ 51 + 1) * (V * ML) ∧
  (2 ^ 51 - 1) * (V * ML) ≤ 2 ^ 51 * (P * (U * K2)).
Proof.
  intros HS HP HU HK2 HV HML H1 H2 H3 H4.
  destruct (two_roundings_poly S P HS HP) as [G1 G2].
  change (2 ^ 52) with 4503599627370496 in *. change (2 ^ 51) with 2251799813685248 in *.
  set (A := U * K2). assert (HA : 0 < A) by (unfold A; nia).
  assert (F1 : (2 * S - 1) * (2 * P - 1) * A ≤ 4 * S * (V * ML)).
  { assert (((2 * S - 1) * U) * ((2 * P - 1) * K2) ≤ (2 * V) * (2 * (ML * S))).
    { apply Z.mul_le_mono_nonneg; nia. }
    unfold A. lia. }
  assert (F2 : 4 * S * (V * ML) ≤ (2 * S + 1) * (2 * P + 1) * A).
  { assert ((2 * V) * (2 * (ML * S)) ≤ ((2 * S + 1) * U) * ((2 * P + 1) * K2)).
    { apply Z.mul_le_mono_nonneg; nia. }
    unfold A. lia. }
  assert (HS4 : 0 < 4 * S) by lia.
  split.
  - apply (Z.mul_le_mono_pos_l _ _ (4 * S)); [done|].
    assert (4 * 2251799813685248 * (S * P) * A
            ≤ (2251799813685248 + 1) * ((2 * S - 1) * (2 * P - 1)) * A).
    { apply Z.mul_le_mono_nonneg_r; lia. }
    assert ((2251799813685248 + 1) * ((2 * S - 1) * (2 * P - 1) * A)
            ≤ (2251799813685248 + 1) * (4 * S * (V * ML))).
    { apply Z.mul_le_mono_nonneg_l; lia. }
    lia.
  - apply (Z.mul_le_mono_pos_l _ _ (4 * S)); [done|].
    assert ((2251799813685248 - 1) * ((2 * S + 1) * (2 * P + 1)) * A
            ≤ 4 * 2251799813685248 * (S * P) * A).
    { apply Z.mul_le_mono_nonneg_r; lia. }
    assert ((2251799813685248 - 1) * (4 * S * (V * ML))
            ≤ (2251799813685248 - 1) * ((2 * S + 1) * (2 * P + 1) * A)).
    { apply Z.mul_le_mono_nonneg_l; lia. }
    lia.
Qed.

(** A side [L] scaled by the rounded quotient of [ms] and [t]: [int(L * s)]
    is [L * ms / t] up to one part in [2^51] and the truncation. *)
Lemma scaled_side_near (L ms t : Z) (S : positive) (c : Z) :
  1 ≤ L < 2 ^ 53 → 0 < t → 0 < ms → -200 ≤ c ≤ 10 →
  rounds_quotient (S754_finite false S c) ms t →
  ∃ z, scaled_side L (S754_finite false S c) = Ok z ∧
    2 ^ 51 * (t * z) ≤ (2 ^ 51 + 1) * (L * ms) ∧
    (2 ^ 51 - 1) * (L * ms) < 2 ^ 51 * (t * (z + 1)).
Proof.
  intros HL Ht Hms Hc (HS & HQ1 & HQ2).
  pose proof (digits_53_of_bounds S HS) as HSd.
  destruct (py_float_exact L) as (M & HM & HMv & HMd & HdL); [lia|].
  set (g := 53 - Zdigits2 L) in *.
  assert (Hg : 0 ≤ g) by (unfold g; lia).
  replace (Zdigits2 L - 53) with (- g) in HM by (unfold g; lia).
  destruct (F64_mul_nearest M S (- g) c HMd HSd) as (P & d & Hmul & HP & Hk & HP1 & HP2);
    [lia|].
  set (k2 := d - (- g + c)) in *.
  set (cp := Z.max 0 c) in *. set (cn := Z.max 0 (- c)) in *.
  assert (Hpcp : 0 < 2 ^ cp) by (apply Z.pow_pos_nonneg; unfold cp; lia).
  assert (Hpcn : 0 < 2 ^ cn) by (apply Z.pow_pos_nonneg; unfold cn; lia).
  assert (Hpk2 : 0 < 2 ^ k2) by (apply Z.pow_pos_nonneg; lia).
  assert (Hpg : 0 < 2 ^ g) by (apply Z.pow_pos_nonneg; lia).
  destruct (two_roundings (Z.pos S) (Z.pos P) (t * 2 ^ cp) (2 ^ k2) (ms * 2 ^ cn) (Z.pos M))
    as [Hup Hdn]; [lia|lia|nia|done|nia|lia|done|done| | |].
  { exact HP1. }
  { exact HP2. }
  rewrite HMv in Hup, Hdn.
  set (Z0 := 2 ^ g * 2 ^ cn). assert (HZ0 : 0 < Z0) by (unfold Z0; nia).
  unfold scaled_side. rewrite HM. cbn [rbind]. rewrite Hmul.
  change (2 ^ 51) with 2251799813685248 in *.
  destruct (Z.lt_ge_cases d 0) as [Hd|Hd].
  - rewrite py_int_finite by done. eexists. split; [done|].
    set (X := 2 ^ (- d)). assert (HX : 0 < X) by (apply Z.pow_pos_nonneg; lia).
    assert (HXZ : X * (2 ^ cp * 2 ^ k2) = Z0).
    { unfold X, Z0. rewrite <- !Z.pow_add_r by (unfold cp, cn; lia).
      f_equal. unfold k2, cp, cn. lia. }
    pose proof (Z.div_mod (Z.pos P) X ltac:(lia)) as Hdm.
    pose proof (Z.mod_pos_bound (Z.pos P) X HX) as Hmod.
    set (z := Z.pos P / X) in *.
    assert (Hz1 : z * X ≤ Z.pos P) by lia.
    assert (Hz2 : Z.pos P < (z + 1) * X) by lia.
    assert (E1 : X * (Z.pos P * (t * 2 ^ cp * 2 ^ k2)) = Z.pos P * t * Z0)
      by (rewrite <- HXZ; lia).
    assert (E2 : X * (ms * 2 ^ cn * (L * 2 ^ g)) = L * ms * (Z0 * X))
      by (unfold Z0; lia).
    assert (HZX : 0 < Z0 * X) by nia.
    split.
    + apply (Z.mul_le_mono_pos_r _ _ (Z0 * X)); [done|].
      assert (2251799813685248 * (t * z) * (Z0 * X)
              ≤ 2251799813685248 * (Z.pos P * t * Z0)) by nia.
      assert (X * (2251799813685248 * (Z.pos P * (t * 2 ^ cp * 2 ^ k2)))
              ≤ X * ((2251799813685248 + 1) * (ms * 2 ^ cn * (L * 2 ^ g))))
        by (apply Z.mul_le_mono_nonneg_l; lia).
      lia.
    + apply (Z.mul_lt_mono_pos_r (Z0 * X)); [done|].
      assert (2251799813685248 * (Z.pos P * t * Z0)
              < 2251799813685248 * (t * (z + 1)) * (Z0 * X)) by nia.
      assert (X * ((2251799813685248 - 1) * (ms * 2 ^ cn * (L * 2 ^ g)))
              ≤ X * (2251799813685248 * (Z.pos P * (t * 2 ^ cp * 2 ^ k2))))
        by (apply Z.mul_le_mono_nonneg_l; lia).
      lia.
  - set (Y := 2 ^ d). assert (HY : 0 < Y) by (apply Z.pow_pos_nonneg; lia).
    assert (HYZ : 2 ^ cp * 2 ^ k2 = Y * Z0).
    { unfold Y, Z0. rewrite <- !Z.pow_add_r by (unfold cp, cn; lia).
      f_equal. unfold k2, cp, cn. lia. }
    assert (Hz : py_int (S754_finite false P d) = Ok (Z.pos P * Y)).
    { unfold py_int, Y. destruct d as [|pd|pd]; [f_equal; simpl; lia| |lia].
      by rewrite Z.shiftl_mul_pow2. }
    exists (Z.pos P * Y). split; [exact Hz|].
    assert (E1 : Z.pos P * (t * 2 ^ cp * 2 ^ k2) = t * (Z.pos P * Y) * Z0)
      by (replace (t * 2 ^ cp * 2 ^ k2) with (t * (2 ^ cp * 2 ^ k2)) by lia;
          rewrite HYZ; lia).
    assert (E2 : ms * 2 ^ cn * (L * 2 ^ g) = L * ms * Z0) by (unfold Z0; lia).
    rewrite E1, E2 in Hup, Hdn.
    split.
    + apply (Z.mul_le_mono_pos_r _ _ Z0); [done|]. lia.
    + apply (Z.mul_lt_mono_pos_r Z0); [done|].
      assert (t * (Z.pos P * Y) * Z0 < t * (Z.pos P * Y + 1) * Z0) by nia.
      lia.
Qed.

End resize_more.

Section resize_claim.
Context `{ImageLib}.
Local Open Scope Z_scope.

(** C3. For an image of height [h] and width [w] (both below [2^53]) and a
    target below [2^49], [resize_image] computes a scale, the new height
    [int(h * scale)] and the new width [int(w * scale)], neither below the
    side it comes from, passes them to the resampler, and returns its image
    with the two ratios, which are the quotients [new_h / h] and [new_w / w]
    of the sizes that were applied, correctly rounded to binary64; with a
    resampler that honours the requested size (on images of three channels)
    the returned image has height [new_h] and width [new_w].  When
    [min(h, w) < min_side_len] the scale is [float(min_side_len) / min(h, w)]
    correctly rounded, both sides are scaled by it, which puts each new side
    within one part in [2^51], and the truncation, of the side times
    [min_side_len / min(h, w)], and the new shorter side is [min_side_len]
    or, by truncation of the rounded product, [min_side_len - 1]; when
    [min(h, w) >= min_side_len] the scale is [1.], both sides are unchanged
    and both ratios are [1.]. *)
Theorem resize_reaches_min_side (img : array3 spec_float) (min_side_len : Z) :
  let h := Z.of_nat (height img) in
  let w := Z.of_nat (width img) in
  1 ≤ h < 2 ^ 53 → 1 ≤ w < 2 ^ 53 → min_side_len < 2 ^ 49 →
  ∃ im_scale new_h new_w rh rw,
    im_scale_of h w min_side_len = Ok im_scale ∧
    scaled_side h im_scale = Ok new_h ∧
    scaled_side w im_scale = Ok new_w ∧
    py_int_truediv new_h h = Ok rh ∧
    py_int_truediv new_w w = Ok rw ∧
    resize_image img min_side_len
    = match cv2_resize img new_w new_h with
      | Some re_im => Ok (re_im, rh, rw)
      | None => Raise cv2_error
      end ∧
    h ≤ new_h ∧ w ≤ new_w ∧
    rounds_quotient rh new_h h ∧
    rounds_quotient rw new_w w ∧
    (cv2_resize_law → channels img = 3%nat →
       ∀ re_im rh' rw', resize_image img min_side_len = Ok (re_im, rh', rw') →
         shape3 re_im = (Z.to_nat new_h, Z.to_nat new_w, 3%nat) ∧
         rh' = rh ∧ rw' = rw) ∧
    (Z.min h w < min_side_len →
       (∃ F G, py_float min_side_len = Ok F ∧ py_float (Z.min h w) = Ok G ∧
               im_scale = F64.div F G) ∧
       rounds_quotient im_scale min_side_len (Z.min h w) ∧
       min_side_len - 1 ≤ (if h <? w then new_h else new_w) ≤ min_side_len ∧
       2 ^ 51 * (Z.min h w * new_h) ≤ (2 ^ 51 + 1) * (h * min_side_len) ∧
       (2 ^ 51 - 1) * (h * min_side_len) < 2 ^ 51 * (Z.min h w * (new_h + 1)) ∧
       2 ^ 51 * (Z.min h w * new_w) ≤ (2 ^ 51 + 1) * (w * min_side_len) ∧
       (2 ^ 51 - 1) * (w * min_side_len) < 2 ^ 51 * (Z.min h w * (new_w + 1))) ∧
    (min_side_len ≤ Z.min h w →
       im_scale = F64.one ∧ new_h = h ∧ new_w = w ∧ rh = F64.one ∧ rw = F64.one).
Proof.
  intros h w Hh Hw Hms.
  assert (Hfinish : ∀ im_scale new_h new_w,
    im_scale_of h w min_side_len = Ok im_scale →
    scaled_side h im_scale = Ok new_h → h ≤ new_h < 2 ^ 120 →
    scaled_side w im_scale = Ok new_w → w ≤ new_w < 2 ^ 120 →
    ∃ rh rw, py_int_truediv new_h h = Ok rh ∧ py_int_truediv new_w w = Ok rw ∧
      resize_image img min_side_len
      = match cv2_resize img new_w new_h with
        | Some re_im => Ok (re_im, rh, rw)
        | None => Raise cv2_error
        end ∧
      rounds_quotient rh new_h h ∧ rounds_quotient rw new_w w ∧
      (cv2_resize_law → channels img = 3%nat →
         ∀ re_im rh' rw', resize_image img min_side_len = Ok (re_im, rh', rw') →
           shape3 re_im = (Z.to_nat new_h, Z.to_nat new_w, 3%nat) ∧
           rh' = rh ∧ rw' = rw)).
  { intros s nh nw Hs Hnh Hnhb Hnw Hnwb.
    destruct (py_int_truediv_nearest nh h ltac:(lia) Hh) as (rh & Hrh & Hrhq).
    destruct (py_int_truediv_nearest nw w ltac:(lia) Hw) as (rw & Hrw & Hrwq).
    exists rh, rw. split; [done|]. split; [done|].
    assert (Hrun : resize_image img min_side_len
                   = match cv2_resize img nw nh with
                     | Some re_im => Ok (re_im, rh, rw)
                     | None => Raise cv2_error
                     end).
    { unfold resize_image. fold h w. rewrite Hs. cbn [rbind]. rewrite Hnh, Hnw.
      cbn [rbind]. destruct (cv2_resize img nw nh); [|done]. cbn [rbind].
      by rewrite Hrh, Hrw. }
    split; [done|]. split; [done|]. split; [done|].
    intros Hlaw Hc3 re_im rh' rw'. rewrite Hrun.
    destruct (cv2_resize img nw nh) as [re|] eqn:Hcv; [|done].
    intros [= <- <- <-]. split; [|done]. by apply (Hlaw img). }
  assert (H253 : 2 ^ 53 < 2 ^ 120) by (apply Z.pow_lt_mono_r; lia).
  destruct (Z.lt_ge_cases (Z.min h w) min_side_len) as [Hsmall|Hlarge].
  - (* the shorter side is below the target *)
    set (t := if h <? w then h else w).
    assert (Ht : t = Z.min h w) by (unfold t; destruct (Z.ltb_spec h w); lia).
    destruct (short_side_within_one t min_side_len) as
      (F & G & S & c & z & HF & HG & Hdiv & Hdiv' & HSd & Hc & Hz & Hzb); [lia..|].
    destruct (scale_nearest t min_side_len) as
      (F1 & G1 & S1 & c1 & HF1 & HG1 & Hdiv1 & _ & Hquot); [lia..|].
    rewrite HF in HF1. injection HF1 as <-.
    rewrite HG in HG1. injection HG1 as <-.
    rewrite Hdiv' in Hdiv1. injection Hdiv1 as <- <-.
    destruct (scale_above_one t min_side_len) as
      (F2 & G2 & S2 & c2 & HF2 & HG2 & Hdiv2 & _ & Hc2 & Hmargin); [lia..|].
    rewrite HF in HF2. injection HF2 as <-.
    rewrite HG in HG2. injection HG2 as <-.
    rewrite Hdiv in Hdiv2. injection Hdiv2 as <- <-.
    assert (Hscale : im_scale_of h w min_side_len = Ok (S754_finite false S c)).
    { unfold im_scale_of. destruct (Z.ltb_spec (Z.min h w) min_side_len); [|lia].
      rewrite HF. cbn [rbind]. fold t. rewrite HG. cbn [rbind]. done. }
    destruct (scaled_side_Ok h S c Hh HSd Hc) as (nh & Hnh & Hnhb).
    destruct (scaled_side_Ok w S c Hw HSd Hc) as (nw & Hnw & Hnwb).
    destruct (scaled_side_grows h S c Hh HSd Hc2) as (nh' & Hnh' & Hnhg); [lia|].
    destruct (scaled_side_grows w S c Hw HSd Hc2) as (nw' & Hnw' & Hnwg); [lia|].
    rewrite Hnh in Hnh'. injection Hnh' as <-.
    rewrite Hnw in Hnw'. injection Hnw' as <-.
    destruct (scaled_side_near h min_side_len t S c Hh) as (nh' & Hnh' & Hh1 & Hh2);
      [lia|lia|done|done|].
    destruct (scaled_side_near w min_side_len t S c Hw) as (nw' & Hnw' & Hw1 & Hw2);
      [lia|lia|done|done|].
    rewrite Hnh in Hnh'. injection Hnh' as <-.
    rewrite Hnw in Hnw'. injection Hnw' as <-.
    destruct (Hfinish _ nh nw Hscale Hnh ltac:(lia) Hnw ltac:(lia))
      as (rh & rw & Hrh & Hrw & Hres & Hrhq & Hrwq & Hshape).
    exists (S754_finite false S c), nh, nw, rh, rw.
    split; [done|]. split; [done|]. split; [done|]. split; [done|]. split; [done|].
    split; [done|]. split; [done|]. split; [done|]. split; [done|]. split; [done|].
    split; [done|]. split; [|lia]. intros _. rewrite <- Ht.
    split; [exists F, G; by rewrite Hdiv'|]. split; [done|]. split.
    { unfold t in Hz. destruct (Z.ltb_spec h w); congruence. }
    done.
  - (* both sides reach the target: the scale is one *)
    assert (Hscale : im_scale_of h w min_side_len = Ok F64.one).
    { unfold im_scale_of. by destruct (Z.ltb_spec (Z.min h w) min_side_len); [lia|]. }
    pose proof (scaled_side_one h Hh) as Hnh. pose proof (scaled_side_one w Hw) as Hnw.
    destruct (Hfinish _ h w Hscale Hnh ltac:(lia) Hnw ltac:(lia))
      as (rh & rw & Hrh & Hrw & Hres & Hrhq & Hrwq & Hshape).
    exists F64.one, h, w, rh, rw.
    split; [done|]. split; [done|]. split; [done|]. split; [done|]. split; [done|].
    split; [done|]. split; [lia|]. split; [lia|]. split; [done|]. split; [done|].
    split; [done|]. split; [lia|]. intros _.
    rewrite py_int_truediv_self in Hrh, Hrw by lia.
    split; [done|]. split; [done|]. split; [done|]. split; congruence.
Qed.

End resize_claim.

(** ** Normalisation of the pixels *)

Lemma all_bytes_normalised_as_expected :
  forallb normalised_as_expected (Z.of_nat <$> seq 0 256) = true.
Proof. vm_compute. reflexivity. Qed.

(** C4 (as amended). Every byte [v] in [0, 255] is mapped to the binary32
    number [(float32(v) / 127.5) - 1.], which is within [2^-23] of
    [v / 127.5 - 1]; 0 is mapped to exactly [-1.] and 255 to exactly [1.];
    every result lies in the closed range [-1, 1], and is below [1.] for every
    byte but 255. *)
Theorem normalization_range_is_closed (v : Z) :
  (0 ≤ v ≤ 255)%Z →
  let r := preprocess_pixel v in
  r = F32.sub (F32.div (F32.of_Z v) F32.c127_5) F32.one ∧
  (∃ r40, scaled40 r = Some r40 ∧
          (Z.abs (255 * r40 - (2 * v - 255) * 2 ^ 40) ≤ 255 * 2 ^ 17)%Z) ∧
  SFleb f32_minus_one r = true ∧
  SFleb r F32.one = true ∧
  (v = 0%Z → r = f32_minus_one) ∧
  (v = 255%Z → r = F32.one) ∧
  ((v < 255)%Z → SFltb r F32.one = true).
Proof.
  intros Hv r.
  pose proof all_bytes_normalised_as_expected as Hall.
  rewrite forallb_forall in Hall.
  specialize (Hall v). unfold normalised_as_expected in Hall. fold r in Hall.
  assert (Hin : In v (Z.of_nat <$> seq 0 256)).
  { apply list_elem_of_In, list_elem_of_fmap. exists (Z.to_nat v).
    split; [lia|]. apply elem_of_seq. lia. }
  specialize (Hall Hin).
  apply andb_prop in Hall as [Hall H255]. apply andb_prop in Hall as [Hall H0].
  apply andb_prop in Hall as [Hall Hle1]. apply andb_prop in Hall as [Hclose Hge].
  split; [done|]. split.
  { destruct (scaled40 r) as [r40|]; [|done]. exists r40. split; [done|].
    by apply Z.leb_le. }
  split; [done|]. split; [done|]. split; [|split].
  - intros Hv0. destruct (Z.eqb_spec v 0); [|lia]. by apply bool_decide_eq_true in H0.
  - intros Hv255. destruct (Z.eqb_spec v 255); [|lia].
    by apply bool_decide_eq_true in H255.
  - intros Hlt. by destruct (Z.eqb_spec v 255); [lia|].
Qed.

(** The byte 255 is mapped to [1.], which is not below [1.]: the range of the
    normalised values is not half-open. *)
Lemma white_pixel_is_not_below_one :
  preprocess_pixel 255 = F32.one ∧ SFltb (preprocess_pixel 255) F32.one = false.
Proof. split; vm_compute; reflexivity. Qed.

(** ** Further properties of the grouping *)

Lemma make_groups_zero {A} (xs : list A) : make_groups xs 0 = Raise ValueError.
Proof. done. Qed.

Lemma make_groups_negative {A} (xs : list A) (B : Z) :
  (B < 0)%Z → make_groups xs B = Ok [].
Proof.
  intros HB. unfold make_groups, py_range.
  destruct (Z.eqb_spec B 0); [lia|]. destruct (Z.ltb_spec 0 B); [lia|].
  replace (Z.to_nat (0 - Z.of_nat (length xs))) with 0 by lia. done.
Qed.

Lemma group_at_elem_of {A} (xs : list A) (B k : nat) (x : A) :
  x ∈ group_at xs B k → x ∈ xs.
Proof.
  unfold group_at. rewrite list_elem_of_omap. intros (j & _ & Hx).
  by eapply list_elem_of_lookup_2.
Qed.

Lemma groups_of_elem_of {A} (xs : list A) (B : Z) (grp : list A) (x : A) :
  grp ∈ groups_of xs B → x ∈ grp → x ∈ xs.
Proof.
  unfold groups_of. rewrite list_elem_of_fmap. intros (k & -> & _).
  apply group_at_elem_of.
Qed.

(** Position [i] of the list lies in group [i / B], at slot [i mod B]. *)
Lemma groups_of_slot {A} (xs : list A) (B : Z) (i : nat) (x : A) :
  (1 ≤ B)%Z → xs !! i = Some x →
  ∃ grp, groups_of xs B !! (i / Z.to_nat B) = Some grp ∧
         grp !! (i mod Z.to_nat B) = Some x.
Proof.
  intros HB Hx.
  pose proof (lookup_lt_Some _ _ _ Hx) as Hi.
  set (b := Z.to_nat B). assert (Hb : 0 < b) by (unfold b; lia).
  pose proof (Nat.div_mod_eq i b) as Hdm.
  pose proof (Nat.mod_upper_bound i b ltac:(lia)) as Hmod.
  pose proof (ceil_div_bounds (Z.of_nat (length xs)) B ltac:(lia)) as [_ Hceil].
  destruct (groups_of_lookup xs B (i / b)) as [Hgrp Hne]; [done| |].
  { assert (Z.of_nat (i / b) * B < ceil_div (Z.of_nat (length xs)) B * B)%Z; [|nia].
    replace B with (Z.of_nat b) at 1 by (unfold b; lia). nia. }
  exists (group_at xs b (i / b)). split; [done|].
  rewrite group_at_lookup by done.
  replace (i / b * b + i `mod` b) with i by lia.
  by rewrite Nat.mod_small.
Qed.

Section grouping.
Context `{NumpyRandom}.

(** The random state after a shuffle depends on the number of draws only. *)
Lemma shuffle_from_state {A B} (i : nat) (st : rng_state) (x : list A) (y : list B) :
  (shuffle_from i st x).2 = (shuffle_from i st y).2.
Proof.
  revert st x y. induction i as [|i IH]; intros st x y; simpl; [done|].
  destruct (random_interval st (S i)) as [j st']. apply IH.
Qed.

Lemma shuffled_state {A B} (st : rng_state) (x : list A) (y : list B) :
  length x = length y → (shuffled st x).2 = (shuffled st y).2.
Proof. intros Hlen. unfold shuffled. rewrite Hlen. apply shuffle_from_state. Qed.

(** What [create_image_groups] does to the world when cutting the groups
    succeeds, and the random state it leaves in any case. *)
Lemma create_image_groups_Ok (w : world) (gs : list (list (list string)))
    (lgs : list (list (list spec_float))) :
  make_groups (reordered w.(self)).(image_paths) w.(self).(batch_size) = Ok gs →
  make_groups (reordered w.(self)).(image_labels) w.(self).(batch_size) = Ok lgs →
  create_image_groups w
  = (Ok (), World (set_label_groups lgs (set_image_groups gs (reordered w.(self))))
                  (rng_after w)).
Proof.
  destruct w as [g st].
  unfold create_image_groups, bind, attr, rng_after, reordered. simpl.
  destruct (shuffle_images g) eqn:Hsh.
  - unfold bind, np_random_seed_call, np_random_shuffle. simpl.
    destruct (shuffled (np_random_seed 4321) (image_paths g)) as [ps st1] eqn:Hp.
    simpl.
    destruct (shuffled (np_random_seed 4321) (image_labels g)) as [ls st2] eqn:Hl.
    simpl. unfold lift, assign. simpl.
    intros -> ->. done.
  - unfold ret, lift, assign. simpl. intros -> ->. done.
Qed.

Lemma create_image_groups_Raise (w : world) (e : exn) :
  make_groups (reordered w.(self)).(image_paths) w.(self).(batch_size) = Raise e →
  (create_image_groups w).1 = Raise e.
Proof.
  destruct w as [g st].
  unfold create_image_groups, bind, attr, reordered. simpl.
  destruct (shuffle_images g) eqn:Hsh.
  - unfold bind, np_random_seed_call, np_random_shuffle. simpl.
    destruct (shuffled (np_random_seed 4321) (image_paths g)) as [ps st1] eqn:Hp.
    simpl.
    destruct (shuffled (np_random_seed 4321) (image_labels g)) as [ls st2] eqn:Hl.
    simpl. unfold lift, assign. simpl.
    by intros ->.
  - unfold ret, lift, assign. simpl. by intros ->.
Qed.

Lemma create_image_groups_state (w : world) :
  (create_image_groups w).2.(np_random) = rng_after w.
Proof.
  destruct w as [g st].
  unfold create_image_groups, bind, attr, rng_after. simpl.
  destruct (shuffle_images g) eqn:Hsh.
  - unfold bind, np_random_seed_call, np_random_shuffle. simpl.
    destruct (shuffled (np_random_seed 4321) (image_paths g)) as [ps st1] eqn:Hp.
    simpl.
    destruct (shuffled (np_random_seed 4321) (image_labels g)) as [ls st2] eqn:Hl.
    simpl. unfold lift, assign. simpl.
    destruct (make_groups ps (batch_size g)); [|done]. simpl.
    by destruct (make_groups ls (batch_size g)).
  - unfold ret, lift, assign. simpl.
    destruct (make_groups (image_paths g) (batch_size g)); [|done]. simpl.
    by destruct (make_groups (image_labels g) (batch_size g)).
Qed.

(** X1. After [create_image_groups] with a batch size [B >= 1], the sample at
    position [i] sits in group [i / B] at slot [i mod B], with its label row
    at the same place of the label groups: an epoch visits every sample.  The
    groups hold nothing but samples. *)
Theorem every_sample_has_its_slot (w w' : world) :
  let B := Z.to_nat w.(self).(batch_size) in
  (1 ≤ w.(self).(batch_size))%Z →
  create_image_groups w = (Ok (), w') →
  let g := w'.(self) in
  (∀ i path, g.(image_paths) !! i = Some path →
     ∃ ig, g.(image_groups) !! (i / B) = Some ig ∧ ig !! (i mod B) = Some path) ∧
  (∀ i row, g.(image_labels) !! i = Some row →
     ∃ lg, g.(label_groups) !! (i / B) = Some lg ∧ lg !! (i mod B) = Some row) ∧
  (∀ ig path, ig ∈ g.(image_groups) → path ∈ ig → path ∈ g.(image_paths)) ∧
  (∀ lg row, lg ∈ g.(label_groups) → row ∈ lg → row ∈ g.(image_labels)).
Proof.
  intros B HB Hrun. rewrite create_image_groups_run in Hrun by done.
  injection Hrun as <-.
  cbn [self image_paths image_labels image_groups label_groups
       set_label_groups set_image_groups].
  split; [|split; [|split]].
  - intros i path Hi. by apply groups_of_slot.
  - intros i row Hi. by apply groups_of_slot.
  - intros ig path. apply groups_of_elem_of.
  - intros lg row. apply groups_of_elem_of.
Qed.

End grouping.

Section batch_size.
Context `{NumpyRandom, ImageLib}.

Lemma create_image_groups_negative (w : world) :
  (w.(self).(batch_size) < 0)%Z →
  create_image_groups w
  = (Ok (), World (set_label_groups [] (set_image_groups [] (reordered w.(self))))
                  (rng_after w)).
Proof.
  intros HB. apply create_image_groups_Ok; by apply make_groups_negative.
Qed.

(** X2. A batch size below one gives no batches: with [batch_size = 0]
    [create_image_groups] raises [ValueError] (the step of [range] is zero);
    with a negative batch size it returns, but leaves no group at all, so
    [__len__] is 0 and [__getitem__] raises [IndexError] for every index. *)
Theorem batch_size_below_one (w : world) :
  (w.(self).(batch_size) = 0%Z → (create_image_groups w).1 = Raise ValueError) ∧
  ((w.(self).(batch_size) < 0)%Z →
     ∃ w', create_image_groups w = (Ok (), w') ∧
       w'.(self).(image_groups) = [] ∧ w'.(self).(label_groups) = [] ∧
       __len__ w' = (Ok 0%Z, w') ∧
       ∀ fs index, __getitem__ fs index w' = (Raise IndexError, w')).
Proof.
  split.
  - intros HB. apply create_image_groups_Raise. rewrite HB. apply make_groups_zero.
  - intros HB. eexists. split; [by apply create_image_groups_negative|].
    split; [done|]. split; [done|]. split; [done|].
    intros fs index. unfold __getitem__, bind, attr, lift. simpl.
    destruct (py_getitem_IndexError (@nil (list (list string))) index) as [[_ Herr] _].
    rewrite Herr by (simpl; lia). done.
Qed.

Lemma load_image_paths_labels_state (fs : node) (p : list string) (w : world) :
  (load_image_paths_labels fs p w).2.(np_random) = w.(np_random).
Proof.
  unfold load_image_paths_labels, load_image_paths_labels_with, assert_same_length, bind, lift, assign, attr, ret.
  simpl.
  destruct (os_listdir fs p) as [names|]; [|done].
  destruct (onehot_fit names) as [cats|]; [|done]. simpl.
  destruct (scan_classes fs p names) as [samples|]; [|done]. simpl.
  destruct (onehot_transform cats samples.*2) as [rows|]; [|done]. simpl.
  by repeat case_decide.
Qed.

(** The random state that the constructor leaves behind. *)
Lemma Generator_new_state (fs : node) (p : list string) (B : Z) (sh : bool) (ms : Z)
    (st : rng_state) :
  (Generator_new fs p B sh ms st).2
  = match load_image_paths_labels fs p (World (configured B sh ms) st) with
    | (Ok _, w) => rng_after w
    | (Raise _, _) => st
    end.
Proof.
  unfold Generator_new, __init__, bind, assign. simpl.
  pose proof (load_image_paths_labels_state fs p (World (configured B sh ms) st)) as Hst.
  unfold configured in *.
  destruct (load_image_paths_labels fs p _) as [[[]|e] w1]; simpl in *; [|done].
  pose proof (create_image_groups_state w1) as Hst1.
  by destruct (create_image_groups w1) as [[[]|e] w2].
Qed.

(** X3. The constructor and the process-wide random state: without shuffling
    it leaves the state as it found it; with shuffling, a construction that
    succeeds leaves the state reached by seeding with 4321 and shuffling as
    many items as there are samples, whatever the state was before, so the
    earlier state of the process is lost. *)
Theorem construction_and_the_global_random_state (fs : node) (p : list string)
    (B : Z) (ms : Z) (st : rng_state) :
  (Generator_new fs p B false ms st).2 = st ∧
  ∀ g st', Generator_new fs p B true ms st = (Ok g, st') →
    st' = (shuffled (np_random_seed 4321) (seq 0 (length g.(image_paths)))).2 ∧
    ∀ st2, Generator_new fs p B true ms st2 = (Ok g, st').
Proof.
  split.
  - rewrite Generator_new_state.
    pose proof (load_image_paths_labels_state fs p (World (configured B false ms) st)) as Hst.
    destruct (load_image_paths_labels fs p _) as [[[]|e] w1] eqn:Hload; [|done].
    apply load_image_paths_labels_inv in Hload as (names & samples & rows & _ & _ & _ & _ & ->).
    done.
  - intros g st' Hnew.
    assert (Hstate : ∀ st0, (Generator_new fs p B true ms st0).2
              = (shuffled (np_random_seed 4321) (seq 0 (length g.(image_paths)))).2).
    { intros st0.
      pose proof (Generator_new_frame fs p B true ms st0 st) as Hframe.
      rewrite Hnew in Hframe. simpl in Hframe.
      destruct (Generator_new fs p B true ms st0) as [r0 st0'] eqn:Hnew0.
      simpl in Hframe. subst r0.
      pose proof (Generator_new_state fs p B true ms st0) as Hst0.
      rewrite Hnew0 in Hst0. simpl in Hst0. simpl. rewrite Hst0.
      apply Generator_new_inv in Hnew0
        as (names & samples & rows & gs & lgs & Hls & Hne & Hscan & Hrows & _ & _ & ->).
      rewrite (load_image_paths_labels_Ok fs p _ names samples rows) by done.
      unfold rng_after. cbn.
      apply shuffled_state.
      rewrite length_seq, shuffle_from_Permutation.
      apply onehot_transform_length in Hrows as [-> _]. by rewrite !length_fmap. }
    split.
    + rewrite <- (Hstate st). by rewrite Hnew.
    + intros st2.
      pose proof (Generator_new_frame fs p B true ms st2 st) as Hframe.
      pose proof (Hstate st2) as H2. pose proof (Hstate st) as H1.
      rewrite Hnew in Hframe, H1. simpl in Hframe, H1.
      destruct (Generator_new fs p B true ms st2) as [r2 st2']. simpl in *.
      congruence.
Qed.

End batch_size.

(** ** Further properties of the constructor *)

Lemma comprehension_is_Ok {A B} (f : A → result B) (l : list A) :
  (∀ x, x ∈ l → is_Ok (f x)) → is_Ok (comprehension f l).
Proof.
  induction l as [|x l IH]; intros Hall; simpl; [done|].
  pose proof (Hall x ltac:(by constructor)) as Hx.
  destruct (f x) as [y|]; [|done].
  destruct (comprehension f l) as [ys|] eqn:Hl; [done|].
  apply IH. intros x' Hx'. apply Hall. by constructor.
Qed.

(** Every encoded row is as wide as the list of categories, and one-hot. *)
Lemma onehot_transform_rows (cats column : list string) (rows : list (list spec_float)) :
  onehot_transform cats column = Ok rows →
  Forall (fun row => ∃ k, k < length cats ∧ row = one_hot (length cats) k) rows.
Proof.
  intros Hrows. apply onehot_transform_Forall2 in Hrows.
  induction Hrows as [|c row cs rs Hrow _ IH]; constructor; [|done].
  apply encode_label_Ok in Hrow as (k & _ & Hk & ->). by exists k.
Qed.

Section scanning.
Context `{NumpyRandom, ImageLib}.

Lemma scan_class_as_listed (fs : node) (p : list string) (c : string) :
  is_Ok (os_listdir fs (os_path_join p c)) →
  scan_class fs p c = Ok (class_samples fs p c).
Proof.
  unfold scan_class, class_samples.
  by destruct (os_listdir fs (os_path_join p c)).
Qed.

Lemma scan_classes_Ok (fs : node) (p names : list string) :
  Forall (fun c => is_Ok (os_listdir fs (os_path_join p c))) names →
  scan_classes fs p names = Ok (names ≫= class_samples fs p).
Proof.
  induction 1 as [|c names Hc _ IH]; simpl; [done|].
  by rewrite scan_class_as_listed, IH.
Qed.

Lemma scan_classes_inv (fs : node) (p names : list string)
    (samples : list (list string * string)) :
  scan_classes fs p names = Ok samples →
  Forall (fun c => is_Ok (os_listdir fs (os_path_join p c))) names ∧
  samples = names ≫= class_samples fs p.
Proof.
  revert samples. induction names as [|c names IH]; intros samples; simpl.
  - by intros [= <-].
  - destruct (scan_class fs p c) as [here|] eqn:Hc; [|done]. simpl.
    destruct (scan_classes fs p names) as [more|]; [|done]. simpl.
    intros [= <-]. destruct (IH more eq_refl) as [Hall ->].
    assert (Hok : is_Ok (os_listdir fs (os_path_join p c))).
    { unfold scan_class in Hc. by destruct (os_listdir fs (os_path_join p c)). }
    rewrite scan_class_as_listed in Hc by done. injection Hc as <-.
    split; [by constructor|done].
Qed.

Lemma scan_classes_Raise (fs : node) (p pre : list string) (c : string)
    (post : list string) (e : exn) :
  Forall (fun c => is_Ok (os_listdir fs (os_path_join p c))) pre →
  os_listdir fs (os_path_join p c) = Raise e →
  scan_classes fs p (pre ++ c :: post) = Raise e.
Proof.
  intros Hpre Hc. induction Hpre as [|c' pre Hc' _ IH]; simpl.
  - unfold scan_class. by rewrite Hc.
  - by rewrite scan_class_as_listed, IH.
Qed.

(** The labels of scanned samples are known to the encoder. *)
Lemma onehot_transform_scanned (fs : node) (p names : list string)
    (samples : list (list string * string)) :
  scan_classes fs p names = Ok samples → samples ≠ [] →
  ∃ rows, onehot_transform (np_unique names) samples.*2 = Ok rows.
Proof.
  intros Hscan Hne.
  assert (Hok : is_Ok (onehot_transform (np_unique names) samples.*2)).
  { unfold onehot_transform.
    destruct (samples.*2) as [|c cs] eqn:Hcol; [by destruct samples|].
    rewrite <- Hcol. apply comprehension_is_Ok. intros c' Hc'.
    apply list_elem_of_fmap in Hc' as (s & -> & Hs).
    apply scan_classes_samples in Hscan. rewrite Forall_forall in Hscan.
    destruct (Hscan s Hs) as [Hin _].
    apply np_unique_elem_of in Hin.
    apply category_index_elem_of in Hin as (k & Hk & _).
    unfold encode_label. by rewrite Hk. }
  destruct (onehot_transform _ _) as [rows|]; [by exists rows|done].
Qed.

Lemma Generator_new_load_Raise (fs : node) (p : list string) (B : Z) (sh : bool)
    (ms : Z) (st : rng_state) (e : exn) :
  (load_image_paths_labels fs p (World (configured B sh ms) st)).1 = Raise e →
  Generator_new fs p B sh ms st = (Raise e, st).
Proof.
  intros Hload.
  pose proof (load_image_paths_labels_state fs p (World (configured B sh ms) st)) as Hst.
  unfold Generator_new, __init__, bind, assign. simpl. unfold configured in *.
  destruct (load_image_paths_labels fs p _) as [[[]|e'] w1]; simpl in *; [done|].
  congruence.
Qed.

Lemma load_image_paths_labels_scan_Raise (fs : node) (p names : list string)
    (w : world) (e : exn) :
  os_listdir fs p = Ok names → scan_classes fs p names = Raise e →
  (load_image_paths_labels fs p w).1 = Raise e.
Proof.
  intros Hls Hscan. unfold load_image_paths_labels, load_image_paths_labels_with, bind, lift. rewrite Hls.
  destruct names as [|c names]; [done|].
  rewrite onehot_fit_Ok by done. simpl assign. cbv iota beta.
  by rewrite Hscan.
Qed.

Lemma load_image_paths_labels_no_samples (fs : node) (p names : list string)
    (w : world) :
  os_listdir fs p = Ok names → scan_classes fs p names = Ok [] →
  (load_image_paths_labels fs p w).1 = Raise ValueError.
Proof.
  intros Hls Hscan. unfold load_image_paths_labels, load_image_paths_labels_with, bind, lift. rewrite Hls.
  destruct names as [|c names]; [done|].
  rewrite onehot_fit_Ok by done. simpl assign. cbv iota beta.
  by rewrite Hscan.
Qed.

(** X4. A data set without a single sample cannot be constructed: when the
    root lists and every class folder lists as empty, the constructor raises
    [ValueError] (the encoder rejects an empty column), and the random state
    is left alone. *)
Theorem dataset_without_samples_is_rejected (fs : node) (p : list string) (B : Z)
    (sh : bool) (ms : Z) (st : rng_state) (names : list string) :
  os_listdir fs p = Ok names →
  Forall (fun c => os_listdir fs (os_path_join p c) = Ok []) names →
  Generator_new fs p B sh ms st = (Raise ValueError, st).
Proof.
  intros Hls Hempty. apply Generator_new_load_Raise.
  apply (load_image_paths_labels_no_samples fs p names); [done|].
  rewrite scan_classes_Ok.
  - f_equal. clear Hls. induction Hempty as [|c names Hc _ IH]; [done|].
    csimpl. rewrite IH. unfold class_samples. by rewrite Hc.
  - eapply Forall_impl; [done|]. by intros c ->.
Qed.

(** X5. The constructor raises what the first class folder that cannot be
    listed raises: a regular file among the entries of the root, after
    entries that are directories, gives [NotADirectoryError].  Nothing was
    shuffled by then: the random state is the one before the call. *)
Theorem first_unlistable_class_folder_raises (fs : node) (p : list string) (B : Z)
    (sh : bool) (ms : Z) (st : rng_state) (pre : list string) (c : string)
    (post : list string) (e : exn) :
  os_listdir fs p = Ok (pre ++ c :: post) →
  Forall (fun c' => is_Ok (os_listdir fs (os_path_join p c'))) pre →
  os_listdir fs (os_path_join p c) = Raise e →
  Generator_new fs p B sh ms st = (Raise e, st) ∧
  (∀ d, resolve fs (os_path_join p c) = Ok (File d) → e = NotADirectoryError).
Proof.
  intros Hls Hpre Hc. split.
  - apply Generator_new_load_Raise.
    apply (load_image_paths_labels_scan_Raise fs p (pre ++ c :: post)); [done|].
    by apply scan_classes_Raise.
  - intros d Hd. unfold os_listdir in Hc. rewrite Hd in Hc. congruence.
Qed.

(** X6. The constructor succeeds exactly when the batch size is not zero, the
    root and every entry of the root can be listed, and at least one of these
    listings has an entry. *)
Theorem construction_succeeds_iff (fs : node) (p : list string) (B : Z)
    (sh : bool) (ms : Z) (st : rng_state) :
  is_Ok (Generator_new fs p B sh ms st).1 ↔
  B ≠ 0%Z ∧
  ∃ names, os_listdir fs p = Ok names ∧
    Forall (fun c => is_Ok (os_listdir fs (os_path_join p c))) names ∧
    ∃ c f files, c ∈ names ∧ os_listdir fs (os_path_join p c) = Ok (f :: files).
Proof.
  split.
  - destruct (Generator_new fs p B sh ms st) as [[g|e] st'] eqn:Hnew; [|done].
    intros _.
    apply Generator_new_inv in Hnew
      as (names & samples & rows & gs & lgs & Hls & Hne & Hscan & Hrows & Hgs & _ & _).
    split.
    { intros ->. by rewrite make_groups_zero in Hgs. }
    exists names. split; [done|].
    apply onehot_transform_length in Hrows as [_ Hcol].
    apply scan_classes_inv in Hscan as [Hall ->]. split; [done|].
    destruct (names ≫= class_samples fs p) as [|s rest] eqn:Hsamples; [done|].
    assert (Hs : s ∈ names ≫= class_samples fs p) by (rewrite Hsamples; constructor).
    apply list_elem_of_bind in Hs as (c & Hs & Hc).
    unfold class_samples in Hs.
    destruct (os_listdir fs (os_path_join p c)) as [[|f files]|] eqn:Hfiles;
      [by apply elem_of_nil in Hs| |by apply elem_of_nil in Hs].
    by exists c, f, files.
  - intros (HB & names & Hls & Hall & c & f & files & Hc & Hfiles).
    assert (Hne : names ≠ []) by (intros ->; by apply elem_of_nil in Hc).
    pose proof (scan_classes_Ok fs p names Hall) as Hscan.
    assert (Hsamples : names ≫= class_samples fs p ≠ []).
    { intros Hnil.
      assert (Hin : (os_path_join (os_path_join p c) f, c) ∈ names ≫= class_samples fs p).
      { apply list_elem_of_bind. exists c. split; [|done].
        unfold class_samples. rewrite Hfiles. csimpl. constructor. }
      rewrite Hnil in Hin. by apply elem_of_nil in Hin. }
    destruct (onehot_transform_scanned fs p names _ Hscan Hsamples) as [rows Hrows].
    unfold Generator_new, __init__, bind, assign. simpl.
    rewrite (load_image_paths_labels_Ok fs p _ names _ rows) by done. simpl.
    destruct (Z.lt_trichotomy B 0) as [Hneg|[->|Hpos]]; [|done|].
    + by rewrite create_image_groups_negative.
    + by rewrite create_image_groups_run by (simpl; lia).
Qed.

(** X7. The sample set is the content of the class folders, unfiltered: the
    paths of a constructed generator are a rearrangement of the paths
    [root/class/entry] of all entries of all class folders, and without
    shuffling they are exactly these paths, class folder by class folder in
    the order in which the root lists them, entries in the order of each
    listing. *)
Theorem samples_are_the_listed_entries (fs : node) (p : list string) (B : Z)
    (sh : bool) (ms : Z) (st st' : rng_state) (g : Generator) :
  Generator_new fs p B sh ms st = (Ok g, st') →
  ∃ names, os_listdir fs p = Ok names ∧
    let listed := (names ≫= class_samples fs p).*1 in
    g.(image_paths) ≡ₚ listed ∧
    (sh = false → g.(image_paths) = listed) ∧
    length g.(image_paths)
    = sum_list ((fun c => length (class_samples fs p c)) <$> names) ∧
    ∀ path, path ∈ g.(image_paths) →
      ∃ c f files, c ∈ names ∧ os_listdir fs (os_path_join p c) = Ok files ∧
                   f ∈ files ∧ path = p ++ [c; f].
Proof.
  intros Hnew.
  apply Generator_new_inv in Hnew
    as (names & samples & rows & gs & lgs & Hls & Hne & Hscan & Hrows & _ & _ & ->).
  apply scan_classes_inv in Hscan as [Hall ->].
  exists names. split; [done|]. intros listed.
  cbn [image_paths set_label_groups set_image_groups].
  assert (Hperm : image_paths (reordered (loaded names (names ≫= class_samples fs p)
                                            rows (configured B sh ms))) ≡ₚ listed).
  { unfold reordered. destruct sh; cbn; [apply shuffled_Permutation|done]. }
  split; [done|]. split; [by intros ->|]. split.
  - rewrite Hperm. unfold listed. rewrite length_fmap.
    clear. induction names as [|c names IH]; [done|].
    csimpl. by rewrite length_app, IH.
  - intros path Hpath. rewrite Hperm in Hpath.
    apply list_elem_of_fmap in Hpath as ([q c] & -> & Hs).
    apply list_elem_of_bind in Hs as (c' & Hs & Hc').
    unfold class_samples in Hs.
    destruct (os_listdir fs (os_path_join p c')) as [files|] eqn:Hfiles;
      [|by apply elem_of_nil in Hs].
    apply list_elem_of_fmap in Hs as (f & [= -> ->] & Hf).
    exists c', f, files. repeat split; try done.
    unfold os_path_join. by rewrite <- (assoc_L (++)).
Qed.

(** The label rows of a constructed generator are one-hot rows over its
    classes. *)
Lemma Generator_new_label_rows (fs : node) (p : list string) (B : Z) (sh : bool)
    (ms : Z) (st st' : rng_state) (g : Generator) :
  Generator_new fs p B sh ms st = (Ok g, st') →
  Forall (fun row => ∃ k, k < length g.(classes) ∧ row = one_hot (length g.(classes)) k)
         g.(image_labels).
Proof.
  intros Hnew.
  apply Generator_new_inv in Hnew
    as (names & samples & rows & gs & lgs & _ & _ & _ & Hrows & _ & _ & ->).
  apply onehot_transform_rows in Hrows.
  cbn [classes image_labels set_label_groups set_image_groups].
  unfold reordered. destruct (shuffle_images _); cbn; [|done].
  by rewrite shuffle_from_Permutation.
Qed.

(** X8. A constructed generator keeps its three settings and is never empty:
    it has at least one class and one sample, every label row is as wide as
    the list of classes, there are as many label groups as image groups, and
    with a batch size of at least one there is at least one group and at most
    one group per sample. *)
Theorem constructed_generator_is_not_empty (fs : node) (p : list string) (B : Z)
    (sh : bool) (ms : Z) (st st' : rng_state) (g : Generator) :
  Generator_new fs p B sh ms st = (Ok g, st') →
  g.(batch_size) = B ∧ g.(shuffle_images) = sh ∧ g.(image_min_side) = ms ∧
  1 ≤ length g.(classes) ∧
  1 ≤ length g.(image_paths) ∧
  Forall (fun row => length row = length g.(classes)) g.(image_labels) ∧
  length g.(label_groups) = length g.(image_groups) ∧
  ((1 ≤ B)%Z → 1 ≤ length g.(image_groups) ≤ length g.(image_paths)).
Proof.
  intros Hnew.
  pose proof Hnew as Hinv.
  apply Generator_new_inv in Hinv
    as (names & samples & rows & gs & lgs & Hls & Hne & Hscan & Hrows & Hgs & Hlgs & Hg).
  pose proof (onehot_transform_length _ _ _ Hrows) as [Hlen Hcol].
  rewrite length_fmap in Hlen.
  assert (Hsamples : 1 ≤ length samples).
  { destruct samples; [done|simpl; lia]. }
  set (g0 := loaded names samples rows (configured B sh ms)) in *.
  destruct (reordered_lengths g0) as [Hlp Hll].
  assert (Hcfg : batch_size (reordered g0) = B ∧ shuffle_images (reordered g0) = sh ∧
                 image_min_side (reordered g0) = ms ∧
                 classes (reordered g0) = np_unique names).
  { unfold reordered. by destruct (shuffle_images g0) eqn:Hsh; cbn in *. }
  destruct Hcfg as (HcB & Hcsh & Hcms & Hccl).
  subst g. cbn [batch_size shuffle_images image_min_side classes image_paths
                image_labels image_groups label_groups set_label_groups set_image_groups].
  split; [done|]. split; [done|]. split; [done|]. rewrite Hccl.
  split.
  { destruct names as [|c names]; [done|].
    assert (Hc : c ∈ np_unique (c :: names)) by (apply np_unique_elem_of; constructor).
    destruct (np_unique (c :: names)); [by apply elem_of_nil in Hc|simpl; lia]. }
  split.
  { rewrite Hlp. cbn. by rewrite length_fmap. }
  split.
  { rewrite <- Hccl. eapply Forall_impl; [exact (Generator_new_label_rows _ _ _ _ _ _ _ _ Hnew)|].
    cbn [classes image_labels set_label_groups set_image_groups].
    intros row (k & _ & ->). apply one_hot_length. }
  destruct (Z.lt_trichotomy B 0) as [Hneg|[->|Hpos]].
  - rewrite make_groups_negative in Hgs by done. rewrite make_groups_negative in Hlgs by done.
    injection Hgs as <-. injection Hlgs as <-. split; [done|lia].
  - by rewrite make_groups_zero in Hgs.
  - rewrite make_groups_spec in Hgs by lia. rewrite make_groups_spec in Hlgs by lia.
    injection Hgs as <-. injection Hlgs as <-.
    rewrite !length_fmap, !length_seq, Hlp, Hll. cbn. rewrite length_fmap, Hlen.
    split; [done|]. intros _.
    pose proof (ceil_div_bounds (Z.of_nat (length samples)) B ltac:(lia)) as [Hlo Hhi].
    pose proof (ceil_div_pos (Z.of_nat (length samples)) B ltac:(lia) ltac:(lia)).
    nia.
Qed.

End scanning.

(** ** Construction failures *)


Section failures_of_the_constructor.
Context `{NumpyRandom, ImageLib}.








End failures_of_the_constructor.

(** ** Further properties of the image pipeline *)

(** *** [[:, :, ::-1]] *)

Lemma mirror_index_lt (n c idx : nat) :
  idx < n * c → idx / c * c + (c - 1 - idx mod c) < n * c.
Proof.
  intros Hidx. assert (Hc : 0 < c) by nia.
  pose proof (Nat.div_mod_eq idx c) as Hdm.
  pose proof (Nat.mod_upper_bound idx c ltac:(lia)) as Hmod.
  assert (idx / c < n) by (apply Nat.Div0.div_lt_upper_bound; lia).
  nia.
Qed.

Lemma mirror_index_split (c q r : nat) :
  r < c → (q * c + r) / c = q ∧ (q * c + r) mod c = r.
Proof.
  intros Hr. split.
  - symmetry. apply (Nat.div_unique _ _ _ r); [done|lia].
  - symmetry. apply (Nat.mod_unique _ _ q); [done|lia].
Qed.

Lemma reverse_channels_data {A} (a : array3 A) (idx : nat) :
  wf3 a →
  length (data3 (reverse_channels a)) = length (data3 a) ∧
  (idx < length (data3 a) →
   data3 (reverse_channels a) !! idx
   = data3 a !! (idx / channels a * channels a + (channels a - 1 - idx mod channels a))).
Proof.
  intros Hwf. unfold reverse_channels. cbn [data3].
  assert (Hall : ∀ i, i ∈ seq 0 (length (data3 a)) →
            is_Some (data3 a !! (i / channels a * channels a
                                 + (channels a - 1 - i mod channels a)))).
  { intros i Hi. apply elem_of_seq in Hi. apply lookup_lt_is_Some_2.
    rewrite Hwf in *. apply mirror_index_lt. lia. }
  split.
  - by rewrite omap_length_all, length_seq.
  - intros Hidx. rewrite omap_lookup_all by done.
    by rewrite lookup_seq_lt.
Qed.

(** X9. [img[:, :, ::-1].copy()] keeps the shape and puts at channel [k] of
    every pixel what the source has at channel [c - 1 - k] (RGB becomes BGR);
    doing it twice gives the source back. *)
Theorem reverse_channels_mirrors_the_last_axis {A} (a : array3 A) :
  wf3 a →
  shape3 (reverse_channels a) = shape3 a ∧
  wf3 (reverse_channels a) ∧
  (∀ y x k, y < height a → x < width a → k < channels a →
     get3 (reverse_channels a) y x k = get3 a y x (channels a - 1 - k)) ∧
  reverse_channels (reverse_channels a) = a.
Proof.
  intros Hwf.
  assert (Hwf' : wf3 (reverse_channels a)).
  { unfold wf3. destruct (reverse_channels_data a 0 Hwf) as [-> _]. exact Hwf. }
  split; [done|]. split; [done|]. split.
  - intros y x k Hy Hx Hk. unfold get3.
    change (height (reverse_channels a)) with (height a).
    change (width (reverse_channels a)) with (width a).
    change (channels (reverse_channels a)) with (channels a).
    destruct (decide _) as [_|Hn]; [|tauto].
    destruct (decide _) as [_|Hn]; [|lia].
    destruct (reverse_channels_data a ((y * width a + x) * channels a + k) Hwf)
      as [_ ->].
    + destruct (mirror_index_split (channels a) (y * width a + x) k Hk) as [-> ->].
      done.
    + rewrite Hwf. by repeat apply flat_lt.
  - set (b := reverse_channels a) in *.
    assert (Hext : ∀ x y : array3 A, shape3 x = shape3 y → data3 x = data3 y → x = y)
      by (intros [] []; simpl; congruence).
    apply Hext; [done|]. apply list_eq. intros i.
    destruct (reverse_channels_data b i Hwf') as [Hlen2 Hlook2].
    destruct (reverse_channels_data a i Hwf) as [Hlen1 _]. fold b in Hlen1.
    destruct (decide (i < length (data3 a))) as [Hi|Hi].
    + rewrite Hlook2 by lia. change (channels b) with (channels a).
      set (c := channels a).
      assert (Hc : 0 < c) by (unfold wf3 in Hwf; fold c in Hwf; nia).
      pose proof (Nat.mod_upper_bound i c ltac:(lia)) as Hmod.
      pose proof (Nat.div_mod_eq i c) as Hdm.
      destruct (reverse_channels_data a (i / c * c + (c - 1 - i mod c)) Hwf) as [_ Hlook1].
      fold b in Hlook1. rewrite Hlook1.
      * fold c. destruct (mirror_index_split c (i / c) (c - 1 - i mod c)) as [-> ->];
          [lia|].
        f_equal. lia.
      * rewrite Hwf. apply mirror_index_lt. rewrite <- Hwf. done.
    + rewrite !lookup_ge_None_2; [done|lia|lia].
Qed.

(** *** Normalisation *)

Lemma byte_normalised_as_expected (v : Z) :
  (0 ≤ v ≤ 255)%Z → normalised_as_expected v = true.
Proof.
  intros Hv. pose proof all_bytes_normalised_as_expected as Hall.
  rewrite forallb_forall in Hall. apply Hall.
  apply list_elem_of_In, list_elem_of_fmap. exists (Z.to_nat v).
  split; [lia|]. apply elem_of_seq. lia.
Qed.

Lemma byte_within_unit_range (v : Z) :
  (0 ≤ v ≤ 255)%Z →
  SFleb f32_minus_one (preprocess_pixel v) = true ∧
  SFleb (preprocess_pixel v) F32.one = true.
Proof.
  intros Hv. pose proof (byte_normalised_as_expected v Hv) as Hall.
  unfold normalised_as_expected in Hall.
  apply andb_prop in Hall as [Hall _]. apply andb_prop in Hall as [Hall _].
  apply andb_prop in Hall as [Hall Hle1]. apply andb_prop in Hall as [_ Hge].
  done.
Qed.

(** X10. [preprocess_image] keeps the shape and normalises cell by cell: the
    cell at an index is the normalised cell of the source at that index, and
    for an image of bytes every cell of the result lies between [-1.] and
    [1.]. *)
Theorem preprocess_image_is_cellwise (x : array3 Z) :
  Forall (fun v => 0 ≤ v ≤ 255)%Z (data3 x) →
  shape3 (preprocess_image x) = shape3 x ∧
  (wf3 x → wf3 (preprocess_image x)) ∧
  (∀ i j k, get3 (preprocess_image x) i j k = preprocess_pixel <$> get3 x i j k) ∧
  Forall (fun r => SFleb f32_minus_one r = true ∧ SFleb r F32.one = true)
         (data3 (preprocess_image x)).
Proof.
  intros Hbytes. split; [done|]. split; [|split].
  - unfold wf3, preprocess_image, height, width, channels. cbn.
    by rewrite length_fmap.
  - intros i j k. unfold get3, preprocess_image, height, width, channels. cbn.
    destruct (decide _); [|done]. by rewrite list_lookup_fmap.
  - unfold preprocess_image. cbn. apply Forall_fmap.
    eapply Forall_impl; [done|]. intros v Hv. by apply byte_within_unit_range.
Qed.

Lemma byte_table_increasing : pairwise_increasing byte_table = true.
Proof. vm_compute. reflexivity. Qed.

Lemma pairwise_increasing_lookup (l : list spec_float) (i j : nat) (x y : spec_float) :
  pairwise_increasing l = true → i < j → l !! i = Some x → l !! j = Some y →
  SFltb x y = true.
Proof.
  revert i j. induction l as [|x0 l IH]; intros i j Hinc Hij Hx Hy; [done|].
  simpl in Hinc. apply andb_prop in Hinc as [Hhead Htail].
  destruct j as [|j]; [lia|]. simpl in Hy.
  destruct i as [|i]; simpl in Hx.
  - injection Hx as <-. rewrite forallb_forall in Hhead. apply Hhead.
    apply list_elem_of_In. by eapply list_elem_of_lookup_2.
  - apply (IH i j); [done|lia|done|done].
Qed.

Lemma byte_table_lookup (v : Z) :
  (0 ≤ v ≤ 255)%Z → byte_table !! Z.to_nat v = Some (preprocess_pixel v).
Proof.
  intros Hv. unfold byte_table.
  rewrite !list_lookup_fmap, lookup_seq_lt by lia. simpl. f_equal. f_equal. lia.
Qed.

Lemma SFltb_irrefl (x : spec_float) : SFltb x x = false.
Proof.
  unfold SFltb, SFcompare. destruct x as [[]|[]| |[] m e]; try done.
  - by rewrite Z.compare_refl, Pos.compare_cont_refl.
  - by rewrite Z.compare_refl, Pos.compare_cont_refl.
Qed.

(** X11. The normalisation keeps the order of the intensities: a larger byte
    gives a strictly larger float, so no two bytes are mapped to the same
    value. *)
Theorem normalisation_is_strictly_increasing (u v : Z) :
  (0 ≤ u)%Z → (v ≤ 255)%Z →
  ((u < v)%Z → SFltb (preprocess_pixel u) (preprocess_pixel v) = true) ∧
  ((0 ≤ v)%Z → (u ≤ 255)%Z → preprocess_pixel u = preprocess_pixel v → u = v).
Proof.
  intros Hu Hv.
  assert (Hlt : ∀ a b, (0 ≤ a)%Z → (a < b)%Z → (b ≤ 255)%Z →
            SFltb (preprocess_pixel a) (preprocess_pixel b) = true).
  { intros a b Ha Hab Hb.
    apply (pairwise_increasing_lookup byte_table (Z.to_nat a) (Z.to_nat b)).
    - apply byte_table_increasing.
    - lia.
    - apply byte_table_lookup. lia.
    - apply byte_table_lookup. lia. }
  split; [intros Huv; by apply Hlt|].
  intros Hv0 Hu255 Heq.
  destruct (Z.lt_trichotomy u v) as [Huv|[->|Hvu]]; [|done|].
  - pose proof (Hlt u v Hu Huv Hv) as Hs. rewrite Heq, SFltb_irrefl in Hs. done.
  - pose proof (Hlt v u Hv0 Hvu Hu255) as Hs. rewrite Heq, SFltb_irrefl in Hs. done.
Qed.

(** *** [load_images] *)

Lemma comprehension_Raise {A B} (f : A → result B) (l : list A) (e : exn) :
  comprehension f l = Raise e →
  ∃ i x, l !! i = Some x ∧ f x = Raise e ∧
         ∀ j y, j < i → l !! j = Some y → is_Ok (f y).
Proof.
  induction l as [|x l IH]; simpl; [done|].
  destruct (f x) as [y|e'] eqn:Hx.
  - destruct (comprehension f l) as [ys|e'] eqn:Hl; [done|].
    intros [= ->]. destruct (IH eq_refl) as (i & x' & Hi & Hx' & Hbefore).
    exists (S i), x'. split; [done|]. split; [done|].
    intros [|j] y' Hj Hy'; simpl in Hy'.
    + injection Hy' as <-. by rewrite Hx.
    + apply (Hbefore j); [lia|done].
  - intros [= ->]. exists 0, x. split; [done|]. split; [done|]. intros j y Hj. lia.
Qed.

Section pipeline.
Context `{NumpyRandom, ImageLib}.

(** X12. [load_images] returns one image per path, in the order of the
    paths, each the result of decoding, normalising and resizing its file;
    it raises as soon as one image fails, with the exception of the first
    path that fails (the paths before it had loaded), and no partial list is
    returned.  The world is not touched. *)
Theorem load_images_all_or_first_failure (fs : node) (image_group : list (list string))
    (w : world) :
  let min_side := w.(self).(image_min_side) in
  (load_images fs image_group w).2 = w ∧
  match (load_images fs image_group w).1 with
  | Ok images =>
      length images = length image_group ∧
      Forall2 (fun image_path img => load_image fs min_side image_path = Ok img)
              image_group images
  | Raise e =>
      ∃ i image_path, image_group !! i = Some image_path ∧
        load_image fs min_side image_path = Raise e ∧
        ∀ j q, j < i → image_group !! j = Some q → is_Ok (load_image fs min_side q)
  end.
Proof.
  intros min_side. split; [apply load_images_reads_only|].
  unfold load_images, bind, attr, lift. simpl. fold min_side.
  destruct (comprehension (load_image fs min_side) image_group) as [images|e] eqn:Hc.
  - split; [by eapply comprehension_length|by apply comprehension_Forall2].
  - by apply comprehension_Raise.
Qed.

End pipeline.

(** *** [construct_image_batch] *)

Lemma copy_images_overflow {A} (image_group : list (array3 A)) (batch : array4 A)
    (n B H W C : nat) :
  shape4 batch = (B, H, W, C) → wf4 batch → n ≤ B → B < n + length image_group →
  Forall (fun image => height image ≤ H ∧ width image ≤ W ∧ channels image ≤ C)
         image_group →
  copy_images batch n image_group = Raise IndexError.
Proof.
  revert batch n. induction image_group as [|image rest IH];
    intros batch n Hshape Hwf Hn Hlen Hfit; simpl in *; [lia|].
  apply Forall_cons in Hfit as [(Hh & Hw & Hc) Hfit].
  destruct (decide (n = B)) as [->|Hne].
  - unfold slice_assign. rewrite Hshape. by destruct (decide (B ≤ B)); [|lia].
  - destruct (slice_assign_spec batch n image B H W C)
      as (batch1 & -> & Hshape1 & Hwf1 & _); [done|done|lia|done..|].
    simpl. apply (IH batch1 (S n)); [done|done|lia|lia|done].
Qed.

Lemma max_list_fits {A} (f : array3 A → nat) (image_group : list (array3 A))
    (image : array3 A) :
  image ∈ image_group → f image ≤ max_list (f <$> image_group).
Proof.
  intros Hin. apply max_list_elem_of_le, list_elem_of_fmap. by exists image.
Qed.

Section batch_outcomes.
Context `{NumpyRandom}.

Lemma construct_image_batch_IndexError (w : world)
    (image_group : list (array3 spec_float)) :
  (0 ≤ w.(self).(batch_size) < Z.of_nat (length image_group))%Z →
  construct_image_batch image_group w = (Raise IndexError, w).
Proof.
  intros HB.
  assert (Hne : image_group ≠ []) by (intros ->; simpl in HB; lia).
  unfold construct_image_batch, bind, attr, lift. simpl.
  rewrite !py_max_max_list by (by destruct image_group). cbn [rbind].
  destruct (np_zeros (batch_size (self w)) (max_list (height <$> image_group))
              (max_list (width <$> image_group)) (max_list (channels <$> image_group)))
    as [batch|e] eqn:Hz.
  2:{ unfold np_zeros in Hz. by destruct (Z.ltb_spec (batch_size (self w)) 0); [lia|]. }
  destruct (get4_np_zeros _ _ _ _ batch 0 0 0 0 Hz) as (Hshape & Hwf & _ & _).
  cbn [rbind]. f_equal.
  eapply copy_images_overflow; [done|done|lia|lia|].
  apply Forall_forall. intros image Hin.
  split; [|split]; by apply max_list_fits.
Qed.

(** X13. The outcomes of [construct_image_batch]: it returns a tensor exactly
    for a non-empty group of at most [batch_size] images; it raises
    [ValueError] exactly for an empty group or a negative batch size, and
    [IndexError] exactly for a group with more images than a non-negative
    batch size.  The world is not touched. *)
Theorem construct_image_batch_outcomes (w : world)
    (image_group : list (array3 spec_float)) :
  let B := w.(self).(batch_size) in
  let n := Z.of_nat (length image_group) in
  (construct_image_batch image_group w).2 = w ∧
  (is_Ok (construct_image_batch image_group w).1 ↔ image_group ≠ [] ∧ (n ≤ B)%Z) ∧
  ((construct_image_batch image_group w).1 = Raise ValueError
     ↔ image_group = [] ∨ (B < 0)%Z) ∧
  ((construct_image_batch image_group w).1 = Raise IndexError
     ↔ image_group ≠ [] ∧ (0 ≤ B < n)%Z).
Proof.
  intros B n. split; [apply construct_image_batch_reads_only|].
  destruct (decide (image_group = [])) as [->|Hne].
  { cbn. split; [split; [done|by intros [? _]]|].
    split; [split; [by left|done]|]. split; [done|by intros [? _]]. }
  destruct (Z.lt_ge_cases B 0) as [Hneg|Hpos].
  { assert (Hrun : (construct_image_batch image_group w).1 = Raise ValueError).
    { unfold construct_image_batch, bind, attr, lift. simpl.
      rewrite !py_max_max_list by (by destruct image_group). cbn [rbind].
      unfold np_zeros. fold B. by destruct (Z.ltb_spec B 0); [|lia]. }
    rewrite Hrun. cbn.
    split; [split; [done|subst n; lia]|].
    split; [split; [by right|done]|]. split; [done|lia]. }
  destruct (Z.le_gt_cases n B) as [Hfit|Hover].
  - destruct (construct_image_batch_run w image_group Hne Hfit) as (batch & -> & _).
    cbn. split; [done|]. split; [split; [done|intros [?|?]; [done|lia]]|].
    split; [done|lia].
  - rewrite construct_image_batch_IndexError by (fold B n; lia). cbn.
    split; [split; [done|lia]|].
    split; [split; [done|intros [?|?]; [done|lia]]|]. split; [done|].
    intros _. done.
Qed.

End batch_outcomes.

(** *** [__getitem__] *)

Lemma py_getitem_elem_of {A} (l : list A) (k : Z) (x : A) :
  py_getitem l k = Ok x → x ∈ l.
Proof.
  unfold py_getitem. destruct (_ && _); [|done].
  destruct (l !! _) as [y|] eqn:Hy; [|done].
  intros [= <-]. by eapply list_elem_of_lookup_2.
Qed.

Lemma groups_of_elem_length {A} (xs : list A) (B : Z) (grp : list A) :
  (1 ≤ B)%Z → grp ∈ groups_of xs B → length grp = Z.to_nat B.
Proof.
  intros HB Hin. unfold groups_of in Hin.
  apply list_elem_of_fmap in Hin as (k & -> & Hk). apply elem_of_seq in Hk.
  destruct (groups_of_lookup xs B k HB) as [_ Hne]; [lia|].
  by apply group_at_length.
Qed.

Section getitem_result.
Context `{NumpyRandom, ImageLib}.

Lemma bind_Ok_inv {A B} (m : M A) (f : A → M B) (w w' : world) (b : B) :
  bind m f w = (Ok b, w') → ∃ a w1, m w = (Ok a, w1) ∧ f a w1 = (Ok b, w').
Proof.
  unfold bind. destruct (m w) as [[a|e] w1]; [|done]. intros Hf. by exists a, w1.
Qed.

(** X14. What [__getitem__] returns on a constructed generator with a batch
    size [B >= 1]: the images of the group were all loaded, there are [B] of
    them, the tensor has [B] slots of the largest height, width and number
    of channels among them, and the labels are [B] one-hot rows over the
    classes of the generator. *)
Theorem getitem_returns_full_batches (fs0 fs : node) (p : list string) (B : Z)
    (sh : bool) (ms : Z) (st st' st'' : rng_state) (g : Generator) (index : Z)
    (batch : array4 spec_float) (labels : list (list spec_float)) (w' : world) :
  (1 ≤ B)%Z →
  Generator_new fs0 p B sh ms st = (Ok g, st') →
  __getitem__ fs index (World g st'') = (Ok (batch, labels), w') →
  ∃ image_group images,
    image_group ∈ g.(image_groups) ∧
    Forall2 (fun image_path img => load_image fs ms image_path = Ok img)
            image_group images ∧
    length images = Z.to_nat B ∧
    shape4 batch = (Z.to_nat B, max_list (height <$> images),
                    max_list (width <$> images), max_list (channels <$> images)) ∧
    wf4 batch ∧
    length labels = Z.to_nat B ∧
    Forall (fun row => ∃ k, k < length g.(classes) ∧
                            row = one_hot (length g.(classes)) k) labels.
Proof.
  intros HB Hnew Hget.
  destruct (Generator_new_groups fs0 p B sh ms st st' g HB Hnew)
    as (HgB & Hgms & _ & Hgroups & Hlgroups).
  pose proof (Generator_new_label_rows fs0 p B sh ms st st' g Hnew) as Hrows.
  unfold __getitem__ in Hget.
  apply bind_Ok_inv in Hget as (groups & w1 & [= <- <-] & Hget).
  apply bind_Ok_inv in Hget as (ig & w1 & [= Hig <-] & Hget).
  apply bind_Ok_inv in Hget as (lgroups & w1 & [= <- <-] & Hget).
  apply bind_Ok_inv in Hget as (lg & w1 & [= Hlg <-] & Hget).
  apply bind_Ok_inv in Hget as (images & w1 & Himages & Hget).
  apply bind_Ok_inv in Hget as (b & w2 & Hrun & [= <- <- <-]).
  cbn [self] in Hig, Hlg.
  apply py_getitem_elem_of in Hig, Hlg.
  pose proof (load_images_reads_only fs ig (World g st'')) as Hw1.
  rewrite Himages in Hw1. simpl in Hw1. subst w1.
  unfold load_images in Himages.
  apply bind_Ok_inv in Himages as (ms' & w1 & [= <- <-] & Himages).
  cbn [self] in Himages. rewrite Hgms in Himages.
  unfold lift in Himages. injection Himages as Himages.
  assert (Hlen : length images = Z.to_nat B).
  { apply comprehension_length in Himages. rewrite Himages.
    rewrite Hgroups in Hig. by apply groups_of_elem_length in Hig. }
  destruct (construct_image_batch_run (World g st'') images)
    as (b' & Hrun' & Hshape & Hwf & _).
  { intros ->. simpl in Hlen. lia. }
  { cbn. rewrite HgB. lia. }
  rewrite Hrun' in Hrun. injection Hrun as -> _.
  exists ig, images. split; [done|]. split; [by apply comprehension_Forall2|].
  split; [done|]. cbn in Hshape. rewrite HgB in Hshape. split; [done|].
  split; [done|]. rewrite Hlgroups in Hlg. split.
  - by apply groups_of_elem_length in Hlg.
  - apply Forall_forall. intros row Hrow.
    rewrite Forall_forall in Hrows. apply Hrows.
    by eapply groups_of_elem_of.
Qed.

End getitem_result.

(** ** Further properties of [resize_image] *)



Section resize_extras.
Context `{ImageLib}.
Local Open Scope Z_scope.

(** X15. An image with an empty side cannot be resized: [resize_image]
    raises whatever the target, and for a positive target (below [2^53]) the
    exception is the [ZeroDivisionError] of the scale factor. *)
Theorem resize_rejects_an_empty_side (img : array3 spec_float) (min_side_len : Z) :
  height img = 0%nat ∨ width img = 0%nat →
  is_Raise (resize_image img min_side_len) ∧
  (0 < min_side_len < 2 ^ 53 → resize_image img min_side_len = Raise ZeroDivisionError).
Proof.
  intros Hempty.
  assert (Hscale : 0 < min_side_len →
            im_scale_of (Z.of_nat (height img)) (Z.of_nat (width img)) min_side_len
            = match py_float min_side_len with
              | Ok _ => Raise ZeroDivisionError
              | Raise e => Raise e
              end).
  { intros Hms. apply im_scale_of_empty_side; lia. }
  split.
  - unfold resize_image.
    destruct (Z.lt_ge_cases 0 min_side_len) as [Hms|Hms].
    + rewrite Hscale by done. by destruct (py_float min_side_len).
    + destruct (im_scale_of _ _ min_side_len) as [s|]; [|done]. cbn [rbind].
      destruct (scaled_side (Z.of_nat (height img)) s) as [nh|]; [|done]. cbn [rbind].
      destruct (scaled_side (Z.of_nat (width img)) s) as [nw|]; [|done]. cbn [rbind].
      destruct (cv2_resize img nw nh); [|done]. cbn [rbind].
      unfold py_int_truediv.
      destruct (Z.eqb_spec (Z.of_nat (height img)) 0); [done|].
      destruct (Z.eqb_spec (Z.of_nat (width img)) 0); [|lia].
      by destruct (F64.div (int_as_float nh) _).
  - intros Hms. unfold resize_image. rewrite Hscale by lia.
    by destruct (py_float_exact min_side_len) as (M & -> & _).
Qed.

(** X16. An image whose sides both reach the target is handed to
    [cv2.resize] with its own width and height, and the two ratios that are
    returned with the result are exactly [1.]. *)
Theorem resize_of_a_large_enough_image (img : array3 spec_float) (min_side_len : Z) :
  let h := Z.of_nat (height img) in
  let w := Z.of_nat (width img) in
  1 ≤ h < 2 ^ 53 → 1 ≤ w < 2 ^ 53 → min_side_len ≤ Z.min h w →
  resize_image img min_side_len
  = match cv2_resize img w h with
    | Some re_im => Ok (re_im, F64.one, F64.one)
    | None => Raise cv2_error
    end.
Proof.
  intros h w Hh Hw Hms. unfold resize_image. fold h w.
  assert (Hscale : im_scale_of h w min_side_len = Ok F64.one).
  { unfold im_scale_of. by destruct (Z.ltb_spec (Z.min h w) min_side_len); [lia|]. }
  rewrite Hscale. cbn [rbind].
  rewrite !scaled_side_one by done. cbn [rbind].
  destruct (cv2_resize img w h); [|done]. cbn [rbind].
  by rewrite !py_int_truediv_self by lia.
Qed.

(** X17. [resize_image] never asks for a smaller picture: for sides below
    [2^53] and a target below [2^49], the height and the width passed to
    [cv2.resize] are at least the height and the width of the image, whether
    the image is scaled up or left alone, in spite of the rounding of the
    scale factor and the truncation of the products. *)
Theorem resize_never_shrinks (img : array3 spec_float) (min_side_len : Z) :
  let h := Z.of_nat (height img) in
  let w := Z.of_nat (width img) in
  1 ≤ h < 2 ^ 53 → 1 ≤ w < 2 ^ 53 → min_side_len < 2 ^ 49 →
  ∃ im_scale new_h new_w,
    im_scale_of h w min_side_len = Ok im_scale ∧
    scaled_side h im_scale = Ok new_h ∧
    scaled_side w im_scale = Ok new_w ∧
    h ≤ new_h ∧ w ≤ new_w ∧
    ∀ re_im rh rw, resize_image img min_side_len = Ok (re_im, rh, rw) →
      cv2_resize img new_w new_h = Some re_im.
Proof.
  intros h w Hh Hw Hms.
  assert (Hfinish : ∀ im_scale new_h new_w,
    im_scale_of h w min_side_len = Ok im_scale →
    scaled_side h im_scale = Ok new_h →
    scaled_side w im_scale = Ok new_w →
    ∀ re_im rh rw, resize_image img min_side_len = Ok (re_im, rh, rw) →
      cv2_resize img new_w new_h = Some re_im).
  { intros s nh nw Hs Hnh Hnw re_im rh rw. unfold resize_image. fold h w.
    rewrite Hs. cbn [rbind]. rewrite Hnh, Hnw. cbn [rbind].
    destruct (cv2_resize img nw nh) as [re|]; [|done]. cbn [rbind].
    destruct (py_int_truediv nh h); [|done]. cbn [rbind].
    destruct (py_int_truediv nw w); [|done]. cbn [rbind]. congruence. }
  destruct (Z.lt_ge_cases (Z.min h w) min_side_len) as [Hsmall|Hlarge].
  - set (t := if h <? w then h else w).
    assert (Ht : t = Z.min h w) by (unfold t; destruct (Z.ltb_spec h w); lia).
    destruct (scale_above_one t min_side_len)
      as (F & G & S & c & HF & HG & Hdiv & HSd & Hc & Hmargin); [lia..|].
    assert (Hscale : im_scale_of h w min_side_len = Ok (S754_finite false S c)).
    { unfold im_scale_of. destruct (Z.ltb_spec (Z.min h w) min_side_len); [|lia].
      rewrite HF. cbn [rbind]. fold t. rewrite HG. cbn [rbind]. done. }
    destruct (scaled_side_grows h S c Hh HSd Hc) as (nh & Hnh & Hnhb); [lia|].
    destruct (scaled_side_grows w S c Hw HSd Hc) as (nw & Hnw & Hnwb); [lia|].
    exists (S754_finite false S c), nh, nw.
    split; [done|]. split; [done|]. split; [done|]. split; [done|]. split; [done|].
    by apply (Hfinish (S754_finite false S c)).
  - assert (Hscale : im_scale_of h w min_side_len = Ok F64.one).
    { unfold im_scale_of. by destruct (Z.ltb_spec (Z.min h w) min_side_len); [lia|]. }
    exists F64.one, h, w.
    split; [done|]. split; [by apply scaled_side_one|].
    split; [by apply scaled_side_one|]. split; [lia|]. split; [lia|].
    apply (Hfinish F64.one h w Hscale); by apply scaled_side_one.
Qed.

End resize_extras.

(** ** Further properties of an epoch *)

Lemma sum_list_same_length {A} (n : nat) (ls : list (list A)) :
  Forall (fun l => length l = n) ls → sum_list (length <$> ls) = length ls * n.
Proof. induction 1 as [|l ls Hl _ IH]; csimpl; [done|]. rewrite Hl, IH. lia. Qed.

(** The groups read one after the other: the list, then its first elements
    again until the last group is full. *)
Lemma groups_of_flat {A} (xs : list A) (B : Z) :
  (1 ≤ B)%Z →
  let flat := mjoin (groups_of xs B) in
  length flat = length (groups_of xs B) * Z.to_nat B ∧
  length xs ≤ length flat ∧
  (∀ i, i < length flat → flat !! i = xs !! (i mod length xs)) ∧
  take (length xs) flat = xs.
Proof.
  intros HB flat. set (b := Z.to_nat B). assert (Hb : 0 < b) by (unfold b; lia).
  assert (Hsame : Forall (fun l => length l = b) (groups_of xs B)).
  { apply Forall_forall. intros grp Hgrp. by apply (groups_of_elem_length xs B). }
  assert (Hlen : length flat = length (groups_of xs B) * b).
  { unfold flat. rewrite length_join. by apply sum_list_same_length. }
  pose proof (groups_of_length xs B) as HG.
  pose proof (ceil_div_bounds (Z.of_nat (length xs)) B ltac:(lia)) as [_ Hceil].
  assert (HN : length xs ≤ length flat).
  { rewrite Hlen. unfold b. nia. }
  assert (Hlook : ∀ i, i < length flat → flat !! i = xs !! (i mod length xs)).
  { intros i Hi. rewrite Hlen in Hi.
    pose proof (Nat.div_mod_eq i b) as Hdm.
    pose proof (Nat.mod_upper_bound i b ltac:(lia)) as Hmod.
    assert (Hj : i / b < length (groups_of xs B))
      by (apply Nat.Div0.div_lt_upper_bound; lia).
    destruct (groups_of_lookup xs B (i / b) HB) as [Hgrp Hne]; [lia|].
    destruct (wrap_is_Some xs i Hne) as [x Hx]. rewrite Hx.
    replace i with (i / b * b + i mod b) at 1 by lia.
    apply (join_lookup_Some_same_length' b); [done..|].
    exists (group_at xs b (i / b)). split; [done|].
    rewrite group_at_lookup by done.
    by replace (i / b * b + i mod b) with i by lia. }
  split; [done|]. split; [done|]. split; [done|].
  apply list_eq. intros i.
  destruct (decide (i < length xs)) as [Hi|Hi].
  - rewrite lookup_take_lt, Hlook by lia. by rewrite Nat.mod_small.
  - rewrite lookup_take_ge by lia. symmetry. apply lookup_ge_None_2. lia.
Qed.

Section epoch.
Context `{NumpyRandom}.

(** X18. The batches of an epoch read one after the other give the samples
    in their order, followed by the first samples again until the last batch
    is full: with [B >= 1] the concatenation of the groups has
    [B * __len__] entries, its first [N] entries are the list of samples, and
    entry [i] is the sample at position [i mod N]; the same holds for the
    label groups. *)
Theorem an_epoch_reads_the_samples_in_order (w w' : world) :
  (1 ≤ w.(self).(batch_size))%Z →
  create_image_groups w = (Ok (), w') →
  let B := Z.to_nat w.(self).(batch_size) in
  let g := w'.(self) in
  let flat := mjoin g.(image_groups) in
  let lflat := mjoin g.(label_groups) in
  length flat = length g.(image_groups) * B ∧
  take (length g.(image_paths)) flat = g.(image_paths) ∧
  (∀ i, i < length flat → flat !! i = g.(image_paths) !! (i mod length g.(image_paths))) ∧
  length lflat = length g.(label_groups) * B ∧
  take (length g.(image_labels)) lflat = g.(image_labels) ∧
  (∀ i, i < length lflat →
     lflat !! i = g.(image_labels) !! (i mod length g.(image_labels))).
Proof.
  intros HB Hrun B g flat lflat. subst g flat lflat.
  rewrite create_image_groups_run in Hrun by done. injection Hrun as <-.
  cbn [self image_paths image_labels image_groups label_groups
       set_label_groups set_image_groups].
  destruct (groups_of_flat (image_paths (reordered (self w))) _ HB)
    as (H1 & _ & H2 & H3).
  destruct (groups_of_flat (image_labels (reordered (self w))) _ HB)
    as (H4 & _ & H5 & H6).
  done.
Qed.

End epoch.

(** ** Further properties of [__getitem__] *)

Lemma comprehension_first_Raise {A B} (f : A → result B) (pre : list A) (x : A)
    (post : list A) (e : exn) :
  Forall (fun y => is_Ok (f y)) pre → f x = Raise e →
  comprehension f (pre ++ x :: post) = Raise e.
Proof.
  intros Hpre Hx. induction Hpre as [|y pre Hy _ IH]; simpl.
  - by rewrite Hx.
  - destruct (f y); [|done]. by rewrite IH.
Qed.

Section getitem_more.
Context `{NumpyRandom, ImageLib}.

Lemma getitem_Ok_inv (fs : node) (index : Z) (w w' : world)
    (batch : array4 spec_float) (labels : list (list spec_float)) :
  __getitem__ fs index w = (Ok (batch, labels), w') →
  ∃ image_group images,
    py_getitem w.(self).(image_groups) index = Ok image_group ∧
    py_getitem w.(self).(label_groups) index = Ok labels ∧
    comprehension (load_image fs w.(self).(image_min_side)) image_group = Ok images ∧
    construct_image_batch images w = (Ok batch, w) ∧ w' = w.
Proof.
  destruct w as [g0 st0]. intros Hget.
  assert (w' = World g0 st0) as ->.
  { pose proof (getitem_reads_only fs index (World g0 st0)) as Hw.
    by rewrite Hget in Hw. }
  unfold __getitem__ in Hget.
  apply bind_Ok_inv in Hget as (groups & w1 & [= <- <-] & Hget).
  apply bind_Ok_inv in Hget as (ig & w1 & [= Hig <-] & Hget).
  apply bind_Ok_inv in Hget as (lgroups & w1 & [= <- <-] & Hget).
  apply bind_Ok_inv in Hget as (lg & w1 & [= Hlg <-] & Hget).
  apply bind_Ok_inv in Hget as (images & w1 & Himages & Hget).
  apply bind_Ok_inv in Hget as (b & w2 & Hrun & [= <- <- Hw2]). subst w2.
  assert (w1 = World g0 st0) as ->.
  { pose proof (load_images_reads_only fs ig (World g0 st0)) as Hw1.
    by rewrite Himages in Hw1. }
  unfold load_images in Himages.
  apply bind_Ok_inv in Himages as (ms' & w1 & [= <- <-] & Himages).
  unfold lift in Himages. injection Himages as Himages.
  exists ig, images. done.
Qed.

(** The paths and the label rows of a constructed generator are aligned:
    the row at a position encodes the class folder of the path there. *)
Lemma Generator_new_aligned (fs : node) (p : list string) (B : Z) (sh : bool)
    (ms : Z) (st st' : rng_state) (g : Generator) :
  Generator_new fs p B sh ms st = (Ok g, st') →
  Forall2 (fun image_path row => ∃ c, image_path !! length p = Some c ∧
             c ∈ g.(classes) ∧ encode_label g.(classes) c = Ok row)
          g.(image_paths) g.(image_labels).
Proof.
  intros Hnew.
  apply Generator_new_inv in Hnew
    as (names & samples & rows & gs & lgs & Hls & Hne & Hscan & Hrows & _ & _ & ->).
  assert (Hcls : classes (set_label_groups lgs (set_image_groups gs
            (reordered (loaded names samples rows (configured B sh ms)))))
          = np_unique names).
  { unfold reordered. by destruct (shuffle_images _). }
  rewrite Hcls. cbn [image_paths image_labels set_label_groups set_image_groups].
  apply reordered_Forall2. cbn.
  apply onehot_transform_Forall2 in Hrows.
  pose proof (scan_classes_samples _ _ _ _ Hscan) as Hs.
  clear Hscan Hcls. revert rows Hrows.
  induction Hs as [|[q c] samples [Hc Hq] _ IH]; intros rows Hrows; csimpl in *.
  - inversion Hrows. constructor.
  - inversion Hrows as [|? row ? rows' Hrow Hrest]; subst.
    constructor; [|by apply IH].
    exists c. split; [done|]. split; [by apply np_unique_elem_of|done].
Qed.

(** X19. Every batch pairs each image with the label of its class folder:
    when [__getitem__] returns on a constructed generator ([B >= 1]), the
    label row in slot [j] is the one-hot row of the class folder that the
    path in slot [j] of the group lies in, and the image in slot [j] was
    loaded from that path. *)
Theorem batch_labels_match_their_images (fs0 fs : node) (p : list string) (B : Z)
    (sh : bool) (ms : Z) (st st' st'' : rng_state) (g : Generator) (index : Z)
    (batch : array4 spec_float) (labels : list (list spec_float)) (w' : world) :
  (1 ≤ B)%Z →
  Generator_new fs0 p B sh ms st = (Ok g, st') →
  __getitem__ fs index (World g st'') = (Ok (batch, labels), w') →
  ∃ image_group images,
    py_getitem g.(image_groups) index = Ok image_group ∧
    construct_image_batch images (World g st'') = (Ok batch, World g st'') ∧
    ∀ j image_path, image_group !! j = Some image_path →
      ∃ c row img,
        image_path !! length p = Some c ∧ c ∈ g.(classes) ∧
        labels !! j = Some row ∧ encode_label g.(classes) c = Ok row ∧
        images !! j = Some img ∧ load_image fs ms image_path = Ok img.
Proof.
  intros HB Hnew Hget.
  destruct (Generator_new_groups fs0 p B sh ms st st' g HB Hnew)
    as (HgB & Hgms & Hlens & Hgroups & Hlgroups).
  pose proof (Generator_new_aligned fs0 p B sh ms st st' g Hnew) as Haligned.
  apply getitem_Ok_inv in Hget as (ig & images & Hig & Hlg & Himages & Hrun & _).
  cbn [self] in *. rewrite Hgms in Himages.
  exists ig, images. split; [done|]. split; [done|].
  (* both groups are taken at the same position *)
  set (n := Z.of_nat (length (image_groups g))).
  assert (Hn : Z.of_nat (length (label_groups g)) = n).
  { unfold n. rewrite Hgroups, Hlgroups, !groups_of_length. by rewrite Hlens. }
  destruct (py_getitem_IndexError (image_groups g) index) as [Herr Hin]. fold n in Herr, Hin.
  assert (Hrange : (- n ≤ index < n)%Z).
  { destruct (Z.lt_ge_cases index (- n)) as [Hlo|Hlo];
      [by rewrite (proj2 Herr) in Hig by lia|].
    destruct (Z.lt_ge_cases index n) as [Hhi|Hhi];
      [lia|by rewrite (proj2 Herr) in Hig by lia]. }
  destruct (Hin Hrange) as (ig' & Hk & Hig'). rewrite Hig in Hig'. injection Hig' as <-.
  destruct (py_getitem_IndexError (label_groups g) index) as [_ Hlin].
  rewrite Hn in Hlin. destruct (Hlin Hrange) as (lg' & Hlk & Hlg').
  rewrite Hlg in Hlg'. injection Hlg' as <-.
  set (k := Z.to_nat (index `mod` n)) in *.
  rewrite Hgroups in Hk. rewrite Hlgroups in Hlk.
  assert (Hkc : (Z.of_nat k < ceil_div (Z.of_nat (length (image_paths g))) B)%Z).
  { apply lookup_lt_Some in Hk. pose proof (groups_of_length (image_paths g) B). lia. }
  destruct (groups_of_lookup (image_paths g) B k HB Hkc) as [Hk' Hne].
  destruct (groups_of_lookup (image_labels g) B k HB) as [Hlk' Hlne];
    [by rewrite <- Hlens|].
  rewrite Hk' in Hk. rewrite Hlk' in Hlk. injection Hk as <-. injection Hlk as <-.
  intros j image_path Hj.
  assert (Hjb : j < Z.to_nat B).
  { apply lookup_lt_Some in Hj. by rewrite group_at_length in Hj. }
  rewrite group_at_lookup in Hj by done.
  destruct (Forall2_lookup_l _ _ _ _ _ Haligned Hj) as (row & Hrow & c & Hc1 & Hc2 & Hc3).
  apply comprehension_Forall2 in Himages.
  assert (Hj' : group_at (image_paths g) (Z.to_nat B) k !! j = Some image_path)
    by (by rewrite group_at_lookup).
  destruct (Forall2_lookup_l _ _ _ _ _ Himages Hj') as (img & Himg & Hload).
  exists c, row, img. split; [done|]. split; [done|]. split; [|done].
  rewrite group_at_lookup by done. by rewrite <- Hlens.
Qed.

(** X20. A sample that cannot be loaded makes its batch fail with its own
    exception: when the group at [index] holds, after paths that load, a path
    whose image raises, [__getitem__] raises the same exception and leaves
    the generator as it was.  This is [FileNotFoundError] for a path with a
    component that no longer exists, [NotADirectoryError] for a path that
    runs through a regular file, [IsADirectoryError] for a directory,
    [UnidentifiedImageError] for a file that PIL cannot identify and
    [OSError] for an image whose pixels cannot be loaded (a truncated
    file). *)
Theorem unreadable_sample_fails_its_batch (fs : node) (index : Z) (w : world)
    (pre : list (list string)) (image_path : list string) (post : list (list string))
    (labels : list (list spec_float)) :
  py_getitem w.(self).(image_groups) index = Ok (pre ++ image_path :: post) →
  py_getitem w.(self).(label_groups) index = Ok labels →
  Forall (fun q => is_Ok (load_image fs w.(self).(image_min_side) q)) pre →
  (∀ e, load_image fs w.(self).(image_min_side) image_path = Raise e →
     __getitem__ fs index w = (Raise e, w)) ∧
  (∀ dir name rest entries,
     image_path = dir ++ name :: rest → resolve fs dir = Ok (Dir entries) →
     lookup_entry name entries = None →
     __getitem__ fs index w = (Raise FileNotFoundError, w)) ∧
  (∀ dir name rest d,
     image_path = dir ++ name :: rest → resolve fs dir = Ok (File d) →
     __getitem__ fs index w = (Raise NotADirectoryError, w)) ∧
  (∀ entries, resolve fs image_path = Ok (Dir entries) →
     __getitem__ fs index w = (Raise IsADirectoryError, w)) ∧
  (∀ d, resolve fs image_path = Ok (File d) → pil_open_rgb d = CannotIdentify →
     __getitem__ fs index w = (Raise UnidentifiedImageError, w)) ∧
  (∀ d, resolve fs image_path = Ok (File d) → pil_open_rgb d = CannotLoad →
     __getitem__ fs index w = (Raise OSError, w)).
Proof.
  intros Hig Hlg Hpre.
  assert (Hfail : ∀ e, load_image fs w.(self).(image_min_side) image_path = Raise e →
            __getitem__ fs index w = (Raise e, w)).
  { intros e He. unfold __getitem__, bind, attr, lift. simpl. rewrite Hig, Hlg.
    unfold load_images, bind, attr, lift. simpl.
    by rewrite (comprehension_first_Raise _ pre image_path post e). }
  split; [done|]. split; [|split; [|split; [|split]]].
  - intros dir name rest entries Hpath Hdir Hname. apply Hfail.
    unfold load_image, image_open_rgb.
    by rewrite Hpath, (resolve_missing fs dir name rest entries).
  - intros dir name rest d Hpath Hdir. apply Hfail.
    unfold load_image, image_open_rgb.
    by rewrite Hpath, (resolve_through_file fs dir name rest d).
  - intros entries Hres. apply Hfail. unfold load_image, image_open_rgb.
    by rewrite Hres.
  - intros d Hres Hraw. apply Hfail. unfold load_image, image_open_rgb.
    by rewrite Hres, Hraw.
  - intros d Hres Hraw. apply Hfail. unfold load_image, image_open_rgb.
    by rewrite Hres, Hraw.
Qed.

(** ** The constructor reads listings only *)

Lemma scan_classes_same_listings (fs1 fs2 : node) (p names : list string) :
  Forall (fun c => os_listdir fs1 (os_path_join p c) = os_listdir fs2 (os_path_join p c))
         names →
  scan_classes fs1 p names = scan_classes fs2 p names.
Proof.
  induction 1 as [|c names Hc _ IH]; simpl; [done|].
  unfold scan_class. by rewrite Hc, IH.
Qed.

(** X21. The constructor looks at the file system through [os.listdir] only:
    two file systems in which the root and the entries of the root list alike
    give the same generator, the same exception and the same random state,
    whatever the files contain; no image is opened before [__getitem__]. *)
Theorem construction_reads_listings_only (fs1 fs2 : node) (p : list string) (B : Z)
    (sh : bool) (ms : Z) (st : rng_state) :
  os_listdir fs1 p = os_listdir fs2 p →
  (∀ names, os_listdir fs1 p = Ok names →
     Forall (fun c => os_listdir fs1 (os_path_join p c) = os_listdir fs2 (os_path_join p c))
            names) →
  Generator_new fs1 p B sh ms st = Generator_new fs2 p B sh ms st.
Proof.
  intros Hroot Hclasses.
  assert (Hload : ∀ w, load_image_paths_labels fs1 p w = load_image_paths_labels fs2 p w).
  { intros w. unfold load_image_paths_labels, load_image_paths_labels_with, bind, lift. rewrite <- Hroot.
    destruct (os_listdir fs1 p) as [names|] eqn:Hls; [|done].
    by rewrite (scan_classes_same_listings fs1 fs2 p names) by (by apply Hclasses). }
  unfold Generator_new, __init__, bind, assign. simpl. by rewrite Hload.
Qed.

End getitem_more.

(** ** The claims on the demo data set *)

Section demo_checks.
#[local] Existing Instance tape_random.
#[local] Existing Instance toy_images.

Lemma groups_wrap_around_witness :
  ∃ w', create_image_groups demo_scanned = (Ok (), w') ∧ __len__ w' = (Ok 3%Z, w').
Proof.
  destruct (groups_wrap_around demo_scanned) as (w' & Hrun & HN & _ & _ & Hlen & _).
  - vm_compute. discriminate.
  - reflexivity.
  - exists w'. split; [exact Hrun|]. rewrite Hlen, HN. reflexivity.
Defined.

(** The third group of the demo wraps around: samples 4 and 0. *)
Example demo_last_group_wraps :
  demo_generator.(image_groups) !! 2
  = Some [["dataset"; "train"; "cat"; "c2.png"]; ["dataset"; "train"; "dog"; "d1.png"]].
Proof. reflexivity. Qed.

Lemma batch_is_zero_padded_copy_witness :
  ∃ batch, construct_image_batch demo_images demo_world = (Ok batch, demo_world) ∧
           shape4 batch = (2, 2, 2, 1).
Proof.
  destruct (batch_is_zero_padded_copy demo_world demo_images)
    as (batch & Hrun & Hshape & _).
  - discriminate.
  - vm_compute. discriminate.
  - repeat constructor.
  - exists batch. split; [exact Hrun|exact Hshape].
Defined.

(** The resampler of the examples honours the requested size. *)
Lemma nearest_resize_shape (img re_im : array3 spec_float) (new_w new_h : Z) :
  nearest_resize img new_w new_h = Some re_im →
  shape3 re_im = (Z.to_nat new_h, Z.to_nat new_w, channels img).
Proof.
  unfold nearest_resize. destruct (_ && _)%bool; [|done]. by intros [= <-].
Qed.

Lemma toy_images_honour_the_size : cv2_resize_law.
Proof.
  intros img re_im new_w new_h Hre Hc3.
  apply nearest_resize_shape in Hre. by rewrite Hre, Hc3.
Qed.

Lemma resize_reaches_min_side_witness :
  ∃ im_scale new_h new_w rh rw,
    im_scale_of 49 100 64 = Ok im_scale ∧ scaled_side 49 im_scale = Ok new_h ∧
    (63 ≤ new_h ≤ 64)%Z ∧
    py_int_truediv new_h 49 = Ok rh ∧ rounds_quotient rh new_h 49 ∧
    py_int_truediv new_w 100 = Ok rw ∧ rounds_quotient rw new_w 100 ∧
    ∀ re_im rh' rw', resize_image demo_tall 64 = Ok (re_im, rh', rw') →
      shape3 re_im = (Z.to_nat new_h, Z.to_nat new_w, 3) ∧ rh' = rh ∧ rw' = rw.
Proof.
  destruct (resize_reaches_min_side demo_tall 64)
    as (s & nh & nw & rh & rw & Hs & Hnh & _ & Hrh & Hrw & _ & _ & _ & Hrhq & Hrwq
        & Hshape & Hsmall & _).
  - vm_compute. split; [discriminate|reflexivity].
  - vm_compute. split; [discriminate|reflexivity].
  - reflexivity.
  - exists s, nh, nw, rh, rw. split; [exact Hs|]. split; [exact Hnh|].
    split; [destruct Hsmall as (_ & _ & Hb & _); [reflexivity|exact Hb]|].
    split; [exact Hrh|]. split; [exact Hrhq|]. split; [exact Hrw|].
    split; [exact Hrwq|].
    apply Hshape; [exact toy_images_honour_the_size|reflexivity].
Defined.

(** The ratios that come back for a side of 49 scaled to 64 and a side of
    100 scaled with it: 63/49 and 130/100, not the scale 64/49. *)
Example ratios_of_49_by_100 :
  (s <- im_scale_of 49 100 64;; nh <- scaled_side 49 s;; nw <- scaled_side 100 s;;
   rh <- py_int_truediv nh 49;; rw <- py_int_truediv nw 100;; Ok (nh, nw, rh, rw))
  = Ok (63, 130, S754_finite false 5790342378047781 (-52),
        S754_finite false 5854679515581645 (-52))%Z.
Proof. vm_compute. reflexivity. Qed.

(** The truncation is visible: a side of 49 scaled to 64 becomes 63. *)
Example side_49_scaled_to_64 :
  (s <- im_scale_of 49 100 64;; scaled_side 49 s) = Ok 63%Z.
Proof. vm_compute. reflexivity. Qed.

(** With the default target of 24 a side of 7 becomes exactly 24. *)
Example side_7_scaled_to_24 :
  (s <- im_scale_of 7 9 24;; scaled_side 7 s) = Ok 24%Z.
Proof. vm_compute. reflexivity. Qed.

Lemma normalization_range_is_closed_witness :
  SFltb (preprocess_pixel 128) F32.one = true.
Proof.
  destruct (normalization_range_is_closed 128) as (_ & _ & _ & _ & _ & _ & Hlt).
  - vm_compute. split; discriminate.
  - apply Hlt. reflexivity.
Defined.

Lemma shuffle_is_one_fixed_permutation_witness :
  (Generator_new demo_fs demo_path 2 true 4 [7]).1 = Ok demo_shuffled.
Proof.
  destruct (shuffle_is_one_fixed_permutation (H := tape_random) demo_fs demo_path 2 true 4
              [] [7] demo_rng_after_shuffle demo_shuffled) as [Hdet _].
  - vm_compute. reflexivity.
  - exact Hdet.
Defined.

Lemma label_encoding_bijective_witness :
  ∃ names, os_listdir demo_fs demo_path = Ok names ∧
           ∀ c, c ∈ demo_generator.(classes) ↔ c ∈ names.
Proof.
  destruct (label_encoding_bijective (H := tape_random) demo_fs demo_path 2 false 4 [] [] demo_generator)
    as (Hnames & _).
  - vm_compute. reflexivity.
  - exact Hnames.
Defined.

Lemma getitem_index_error_outside_wrapped_range_witness :
  (__getitem__ demo_fs 3 demo_world).1 = Raise IndexError ↔ (3 < - 3 ∨ 3 ≤ 3)%Z.
Proof.
  destruct (getitem_index_error_outside_wrapped_range (H := tape_random) demo_fs demo_fs demo_path 2 false 4
              [] [] [] demo_generator 3) as (_ & Hiff & _).
  - vm_compute. discriminate.
  - vm_compute. reflexivity.
  - exact Hiff.
Defined.

(** [__getitem__(-1)] returns the last batch although [-1] is not in
    [0, len). *)
Lemma getitem_accepts_minus_one :
  (__len__ demo_world).1 = Ok 3%Z ∧
  ¬ (0 ≤ -1 < 3)%Z ∧
  is_Ok (__getitem__ demo_fs (-1) demo_world).1 ∧
  (__getitem__ demo_fs (-1) demo_world).1 = (__getitem__ demo_fs 2 demo_world).1.
Proof.
  split; [reflexivity|]. split; [lia|]. split; [by vm_compute|].
  vm_compute. reflexivity.
Qed.


Lemma categories_sorted_whatever_the_listing_witness :
  demo_scanned_val.(self).(classes) = demo_scanned.(self).(classes) ∧
  demo_scanned.(self).(classes) = ["cat"; "dog"].
Proof.
  destruct (categories_sorted_whatever_the_listing (H := tape_random) demo_fs demo_fs_val demo_path demo_path_val
              (@World tape_random (configured 2 false 4) [])
              (@World tape_random (configured 2 false 4) [5])
              demo_scanned demo_scanned_val ["dog"; "cat"] ["cat"; "dog"])
    as (Hsame & _).
  - reflexivity.
  - reflexivity.
  - intros c. rewrite !elem_of_cons. tauto.
  - reflexivity.
  - reflexivity.
  - split; [exact Hsame|reflexivity].
Defined.

End demo_checks.

(** ** The further properties on the demo data set *)

Section demo_checks_more.
#[local] Existing Instance tape_random.
#[local] Existing Instance toy_images.

(** Sample 3 of the demo is the second entry of the second group. *)
Lemma every_sample_has_its_slot_witness :
  ∃ ig, demo_generator.(image_groups) !! 1 = Some ig ∧
        ig !! 1 = Some ["dataset"; "train"; "cat"; "c1.png"].
Proof.
  destruct (every_sample_has_its_slot demo_scanned demo_world) as (Hpaths & _).
  - vm_compute. discriminate.
  - reflexivity.
  - exact (Hpaths 3 ["dataset"; "train"; "cat"; "c1.png"] eq_refl).
Defined.

Lemma batch_size_below_one_witness :
  (create_image_groups (@World tape_random (set_batch_size 0 demo_generator) [])).1
  = Raise ValueError ∧
  ∃ w', create_image_groups (@World tape_random (set_batch_size (-3) demo_generator) [])
        = (Ok (), w') ∧ __len__ w' = (Ok 0%Z, w').
Proof.
  split.
  - destruct (batch_size_below_one (H0 := toy_images)
                (@World tape_random (set_batch_size 0 demo_generator) [])) as [Hzero _].
    apply Hzero. reflexivity.
  - destruct (batch_size_below_one (H0 := toy_images)
                (@World tape_random (set_batch_size (-3) demo_generator) [])) as [_ Hneg].
    destruct Hneg as (w' & Hrun & _ & _ & Hlen & _); [reflexivity|].
    exists w'. split; [exact Hrun|exact Hlen].
Defined.

Lemma construction_and_the_global_random_state_witness :
  Generator_new (H := tape_random) demo_fs demo_path 2 true 4 [7; 7; 7]
  = (Ok demo_shuffled, demo_rng_after_shuffle).
Proof.
  destruct (construction_and_the_global_random_state (H := tape_random)
              demo_fs demo_path 2 4 []) as [_ Hshuffle].
  destruct (Hshuffle demo_shuffled demo_rng_after_shuffle) as [_ Hany].
  - vm_compute. reflexivity.
  - exact (Hany [7; 7; 7]).
Defined.

Lemma dataset_without_samples_is_rejected_witness :
  Generator_new (H := tape_random) demo_fs_empty demo_path 2 false 4 []
  = (Raise ValueError, []).
Proof.
  apply (dataset_without_samples_is_rejected (H := tape_random) demo_fs_empty demo_path
           2 false 4 [] ["dog"; "cat"]).
  - reflexivity.
  - repeat constructor.
Defined.

Lemma first_unlistable_class_folder_raises_witness :
  Generator_new (H := tape_random) demo_fs_stray demo_path 2 false 4 []
  = (Raise NotADirectoryError, []).
Proof.
  destruct (first_unlistable_class_folder_raises (H := tape_random) demo_fs_stray
              demo_path 2 false 4 [] ["dog"] "notes.txt" ["cat"] NotADirectoryError)
    as [Hraise _].
  - reflexivity.
  - repeat constructor.
  - reflexivity.
  - exact Hraise.
Defined.

Lemma construction_succeeds_iff_witness :
  is_Ok (Generator_new (H := tape_random) demo_fs demo_path 2 false 4 []).1.
Proof.
  apply (construction_succeeds_iff (H := tape_random) demo_fs demo_path 2 false 4 []).
  split; [discriminate|].
  exists ["dog"; "cat"]. split; [reflexivity|]. split; [repeat constructor|].
  exists "dog", "d1.png", ["d2.png"; "d3.png"]. split; [constructor|reflexivity].
Defined.

Lemma samples_are_the_listed_entries_witness :
  length demo_generator.(image_paths) = 5 ∧
  ∃ names, os_listdir demo_fs demo_path = Ok names ∧
           demo_shuffled.(image_paths) ≡ₚ (names ≫= class_samples demo_fs demo_path).*1.
Proof.
  destruct (samples_are_the_listed_entries (H := tape_random) demo_fs demo_path 2 false 4
              [] [] demo_generator) as (names & Hls & _ & _ & Hlen & _).
  { vm_compute. reflexivity. }
  destruct (samples_are_the_listed_entries (H := tape_random) demo_fs demo_path 2 true 4
              [] demo_rng_after_shuffle demo_shuffled) as (names' & Hls' & Hperm & _).
  { vm_compute. reflexivity. }
  split.
  - rewrite Hlen. rewrite Hls in Hls'. injection Hls' as <-.
    assert (Hnames : names = ["dog"; "cat"]) by (vm_compute in Hls; congruence).
    rewrite Hnames. reflexivity.
  - exists names'. split; [exact Hls'|exact Hperm].
Defined.

Lemma constructed_generator_is_not_empty_witness :
  1 ≤ length demo_generator.(image_groups) ≤ length demo_generator.(image_paths).
Proof.
  destruct (constructed_generator_is_not_empty (H := tape_random) demo_fs demo_path
              2 false 4 [] [] demo_generator) as (_ & _ & _ & _ & _ & _ & _ & Hgroups).
  - vm_compute. reflexivity.
  - apply Hgroups. vm_compute. discriminate.
Defined.

Lemma reverse_channels_mirrors_the_last_axis_witness :
  get3 (reverse_channels demo_pixel) 0 0 0 = Some 30%Z ∧
  reverse_channels (reverse_channels demo_pixel) = demo_pixel.
Proof.
  destruct (reverse_channels_mirrors_the_last_axis demo_pixel) as (_ & _ & Hget & Hinv).
  - reflexivity.
  - split; [|exact Hinv].
    rewrite Hget; [reflexivity|vm_compute; lia..].
Defined.

Lemma preprocess_image_is_cellwise_witness :
  Forall (fun r => SFleb f32_minus_one r = true ∧ SFleb r F32.one = true)
         (data3 (preprocess_image demo_pixel)).
Proof.
  destruct (preprocess_image_is_cellwise demo_pixel) as (_ & _ & _ & Hrange).
  - repeat constructor; discriminate.
  - exact Hrange.
Defined.

Lemma normalisation_is_strictly_increasing_witness :
  SFltb (preprocess_pixel 10) (preprocess_pixel 20) = true.
Proof.
  destruct (normalisation_is_strictly_increasing 10 20) as [Hlt _].
  - discriminate.
  - discriminate.
  - apply Hlt. reflexivity.
Defined.

Lemma construct_image_batch_outcomes_witness :
  is_Ok (construct_image_batch demo_images demo_world).1 ∧
  (construct_image_batch (demo_images ++ demo_images) demo_world).1 = Raise IndexError.
Proof.
  split.
  - destruct (construct_image_batch_outcomes demo_world demo_images) as (_ & Hok & _).
    apply Hok. split; [discriminate|vm_compute; discriminate].
  - destruct (construct_image_batch_outcomes demo_world (demo_images ++ demo_images))
      as (_ & _ & _ & Hindex).
    apply Hindex. split; [discriminate|vm_compute]. split; [discriminate|reflexivity].
Defined.

Lemma getitem_returns_full_batches_witness :
  shape4 demo_batch = (2, 5, 6, 3) ∧ length demo_labels = 2.
Proof.
  destruct (getitem_returns_full_batches (H := tape_random) demo_fs demo_fs demo_path
              2 false 4 [] [] [] demo_generator 0 demo_batch demo_labels demo_world)
    as (ig & images & _ & _ & _ & _ & _ & Hlabels & _).
  - vm_compute. discriminate.
  - vm_compute. reflexivity.
  - vm_compute. reflexivity.
  - split; [reflexivity|exact Hlabels].
Defined.

Lemma resize_rejects_an_empty_side_witness :
  resize_image demo_no_rows 4 = Raise ZeroDivisionError.
Proof.
  destruct (resize_rejects_an_empty_side demo_no_rows 4) as [_ Hzero].
  - left. reflexivity.
  - apply Hzero. split; reflexivity.
Defined.

Lemma resize_of_a_large_enough_image_witness :
  ∃ re_im, resize_image demo_black 2 = Ok (re_im, F64.one, F64.one).
Proof.
  pose proof (resize_of_a_large_enough_image demo_black 2) as Hrun.
  cbv zeta in Hrun.
  exists demo_black. rewrite Hrun.
  - reflexivity.
  - vm_compute. split; [discriminate|reflexivity].
  - vm_compute. split; [discriminate|reflexivity].
  - vm_compute. discriminate.
Defined.

Lemma resize_never_shrinks_witness :
  ∃ im_scale new_h new_w,
    im_scale_of 49 100 64 = Ok im_scale ∧
    scaled_side 49 im_scale = Ok new_h ∧ scaled_side 100 im_scale = Ok new_w ∧
    (49 ≤ new_h)%Z ∧ (100 ≤ new_w)%Z.
Proof.
  destruct (resize_never_shrinks demo_tall 64)
    as (s & nh & nw & Hs & Hnh & Hnw & Hh & Hw & _).
  - vm_compute. split; [discriminate|reflexivity].
  - vm_compute. split; [discriminate|reflexivity].
  - reflexivity.
  - exists s, nh, nw. repeat split; assumption.
Defined.

Lemma an_epoch_reads_the_samples_in_order_witness :
  take 5 (mjoin demo_generator.(image_groups)) = demo_generator.(image_paths) ∧
  mjoin demo_generator.(image_groups) !! 5 = Some ["dataset"; "train"; "dog"; "d1.png"].
Proof.
  destruct (an_epoch_reads_the_samples_in_order demo_scanned demo_world)
    as (_ & Htake & Hwrap & _).
  - vm_compute. discriminate.
  - reflexivity.
  - split; [exact Htake|]. rewrite Hwrap; [reflexivity|vm_compute; lia].
Defined.

Lemma batch_labels_match_their_images_witness :
  ∃ c row, c ∈ demo_generator.(classes) ∧ demo_labels !! 1 = Some row ∧
           encode_label demo_generator.(classes) c = Ok row.
Proof.
  destruct (batch_labels_match_their_images (H := tape_random) demo_fs demo_fs demo_path
              2 false 4 [] [] [] demo_generator 0 demo_batch demo_labels demo_world)
    as (ig & images & Hig & _ & Hslots).
  - vm_compute. discriminate.
  - vm_compute. reflexivity.
  - vm_compute. reflexivity.
  - injection Hig as <-.
    destruct (Hslots 1 ["dataset"; "train"; "dog"; "d2.png"] eq_refl)
      as (c & row & img & _ & Hc & Hrow & Henc & _).
    exists c, row. split; [exact Hc|]. split; [exact Hrow|exact Henc].
Defined.

(** On a file system without the training files the first batch fails. *)
Lemma unreadable_sample_fails_its_batch_witness :
  __getitem__ demo_fs_val 0 demo_world = (Raise FileNotFoundError, demo_world) ∧
  __getitem__ demo_fs_corrupt 0 demo_world = (Raise UnidentifiedImageError, demo_world).
Proof.
  split.
  - destruct (unreadable_sample_fails_its_batch demo_fs_val 0 demo_world []
                ["dataset"; "train"; "dog"; "d1.png"]
                [["dataset"; "train"; "dog"; "d2.png"]] demo_labels)
      as (_ & Hmissing & _).
    + reflexivity.
    + reflexivity.
    + constructor.
    + eapply (Hmissing ["dataset"] "train" ["dog"; "d1.png"]); reflexivity.
  - destruct (unreadable_sample_fails_its_batch demo_fs_corrupt 0 demo_world []
                ["dataset"; "train"; "dog"; "d1.png"]
                [["dataset"; "train"; "dog"; "d2.png"]] demo_labels)
      as (_ & _ & _ & _ & Hunknown & _).
    + reflexivity.
    + reflexivity.
    + constructor.
    + eapply Hunknown; reflexivity.
Defined.

(** Unreadable files do not keep the constructor from succeeding. *)
Lemma construction_reads_listings_only_witness :
  Generator_new (H := tape_random) demo_fs_corrupt demo_path 2 false 4 []
  = (Ok demo_generator, []).
Proof.
  rewrite <- (construction_reads_listings_only (H := tape_random) demo_fs demo_fs_corrupt
                demo_path 2 false 4 []).
  - vm_compute. reflexivity.
  - reflexivity.
  - intros names Hnames. vm_compute in Hnames. injection Hnames as <-.
    repeat constructor.
Defined.

End demo_checks_more.
